(** * Exam seat allocation: a shallow embedding of the three allocators

    The repository holds three versions of [ExamSeatAllocator.allocate_seats]:

    - [Exam1_Seat_allocator.py]: course round robin (2:1:1 when three
      courses are active), registration sort, row-major placement and a
      second pass over free seats;   (module [Exam1])
    - [University_Exam_Seat_Allocater.py]: 25-seat block selection of halls,
      proportional targets, alternation between the two halves of the
      student list, serpentine placement;   (module [University])
    - [pdf_reports/University_Exam_Seat_Allocater (copy).py]: proportional
      targets over the first halls, round robin over a window of two
      courses, serpentine placement.   (module [UniversityCopy])

    Python lists are Rocq lists, [dict]s whose iteration order matters are
    association lists, the other [dict]s are [gmap]s, Python [int]s are [Z]
    (lengths and indices are [nat]), and [while] loops take fuel. *)

From Stdlib Require Import ZArith Lia Floats Uint63 Ascii String Sorted.
From stdpp Require Import base option list gmap strings pretty.

Local Open Scope Z_scope.

(** ** Data model *)

(** A row of the students sheet, as [_load_students] builds it.  The second
    and third allocator have no ['date'] field; they never read [date]. *)
Record Student := mkStudent {
  reg_no : string;
  department : string;
  course_code : string;
  course_title : string;
  date : string
}.

(** A row of the halls sheet, as [_load_halls] builds it.  The data model
    restricts [rows] and [cols] to positive integers; they are [nat] here
    since they only feed [range] and products. *)
Record Hall := mkHall {
  hall_code : string;
  hall_name : string;
  block : string;
  rows : nat;
  cols : nat;
  total_capacity : Z
}.

(** A value of the [allocations] dict.  [row] and [col] are the 1-based
    coordinates; [a_date] is only set by the first allocator. *)
Record Allocation := mkAllocation {
  a_hall_code : string;
  a_hall_name : string;
  a_block : string;
  a_row : nat;
  a_col : nat;
  a_course_code : string;
  a_course_title : string;
  a_department : string;
  a_date : option string
}.

(** The [ValueError]s of the allocators, told apart by their raise site, and
    the two look-up errors Python raises on a missing key or index. *)
Inductive Error :=
| CapacityError                         (* raised by [validate_inputs] *)
| InsufficientCapacityError             (* "Not enough selected hall seats ..." *)
| UnallocatedStudentsError (n : nat)    (* "Could not allocate all students ..." *)
| KeyError
| IndexError.

(** The result of running a piece of the program with some fuel for its
    [while] loops. *)
Inductive outcome (A : Type) :=
| Done (a : A)
| Raise (e : Error)
| OutOfFuel.
Arguments Done {A} a.
Arguments Raise {A} e.
Arguments OutOfFuel {A}.

#[global] Instance outcome_ret : MRet outcome := fun A a => Done a.
#[global] Instance outcome_bind : MBind outcome := fun A B k m =>
  match m with
  | Done a => k a
  | Raise e => Raise e
  | OutOfFuel => OutOfFuel
  end.

Abbreviation Grid := (list (list (option string))).

(** The mutable attributes of an [ExamSeatAllocator] that the claims are
    about.  ([hall_courses] is written but never read by [allocate_seats].) *)
Record State := mkState {
  allocations : gmap string Allocation;
  hall_seats : gmap string Grid
}.

Definition grid_capacity (hall : Hall) : Z := Z.of_nat (rows hall * cols hall).

(** [[[None for _ in range(cols)] for _ in range(rows)]] *)
Definition empty_grid (hall : Hall) : Grid :=
  replicate (rows hall) (replicate (cols hall) None).

(** [__init__]: the dict comprehension over [self.halls]; a later hall with
    the same code replaces the grid of an earlier one. *)
Definition init_hall_seats (halls : list Hall) : gmap string Grid :=
  foldl (fun m hall => <[hall_code hall := empty_grid hall]> m) ∅ halls.

Definition init_state (halls : list Hall) : State :=
  {| allocations := ∅; hall_seats := init_hall_seats halls |}.

(** [sum(hall['rows'] * hall['cols'] for hall in halls)] *)
Definition total_seats (halls : list Hall) : Z :=
  foldr (fun hall acc => grid_capacity hall + acc) 0 halls.

(** ** [validate_inputs] (the same text in the three files) *)

Fixpoint check_halls (halls : list Hall) : outcome unit :=
  match halls with
  | [] => Done ()
  | hall :: rest =>
      if decide (total_capacity hall > grid_capacity hall)
      then Raise CapacityError
      else check_halls rest
  end.

Definition validate_inputs (halls : list Hall) (students : list Student)
  : outcome unit :=
  _ ← check_halls halls;
  if decide (Z.of_nat (length students) > total_seats halls)
  then Raise CapacityError
  else Done ().

(** ** Writing a seat *)

(** The cell [hall_seats[hall_code][r][c]], [None] when it is empty or
    does not exist. *)
Definition cell (seats : gmap string Grid) (code : string) (r c : nat)
  : option string :=
  g ← seats !! code; line ← g !! r; o ← line !! c; o.

Definition allocation_of (hall : Hall) (r c : nat) (student : Student)
    (with_date : bool) : Allocation :=
  {| a_hall_code := hall_code hall;
     a_hall_name := hall_name hall;
     a_block := block hall;
     a_row := r + 1;
     a_col := c + 1;
     a_course_code := course_code student;
     a_course_title := course_title student;
     a_department := department student;
     a_date := if with_date then Some (date student) else None |}.

(** [self.hall_seats[hall_code][r][c] = reg] followed by
    [self.allocations[reg] = {...}].  The subscripts raise when the hall has
    no grid or the grid has no such cell. *)
Definition seat (with_date : bool) (hall : Hall) (r c : nat)
    (student : Student) (st : State) : outcome State :=
  match hall_seats st !! hall_code hall with
  | None => Raise KeyError
  | Some g =>
      match g !! r with
      | None => Raise IndexError
      | Some line =>
          if decide (c < length line)%nat then
            Done {| hall_seats :=
                      <[hall_code hall :=
                          <[r := <[c := Some (reg_no student)]> line]> g]>
                        (hall_seats st);
                    allocations :=
                      <[reg_no student := allocation_of hall r c student with_date]>
                        (allocations st) |}
          else Raise IndexError
      end
  end.

(** ** The grid mappers *)

(** The inner [for c in col_range] loop with its [break]. *)
Fixpoint place_cols (with_date : bool) (hall : Hall) (r : nat)
    (col_range : list nat) (hall_students : list Student) (idx : nat)
    (st : State) : outcome (nat * State) :=
  match col_range with
  | [] => Done (idx, st)
  | c :: col_range' =>
      match hall_students !! idx with
      | None => Done (idx, st)
      | Some student =>
          st' ← seat with_date hall r c student st;
          place_cols with_date hall r col_range' hall_students (S idx) st'
      end
  end.

(** The outer [for r in range(rows)] loop.  [row_break] tells whether the
    loop body starts with [if idx >= len(hall_students): break] (second
    allocator only). *)
Fixpoint place_rows (with_date row_break : bool) (hall : Hall)
    (col_range : nat → list nat) (row_range : list nat)
    (hall_students : list Student) (idx : nat) (st : State)
  : outcome (nat * State) :=
  match row_range with
  | [] => Done (idx, st)
  | r :: row_range' =>
      if row_break && bool_decide (length hall_students ≤ idx)%nat
      then Done (idx, st)
      else
        '(idx', st') ← place_cols with_date hall r (col_range r) hall_students idx st;
        place_rows with_date row_break hall col_range row_range'
          hall_students idx' st'
  end.

(** [range(cols)] *)
Definition row_major_cols (hall : Hall) (r : nat) : list nat :=
  seq 0 (cols hall).

(** [range(cols) if r % 2 == 0 else range(cols - 1, -1, -1)] *)
Definition serpentine_cols (hall : Hall) (r : nat) : list nat :=
  if Nat.even r then seq 0 (cols hall) else reverse (seq 0 (cols hall)).

(** "Row-wise seat assignment" of the first allocator. *)
Definition place_row_major (hall : Hall) (hall_students : list Student)
    (st : State) : outcome State :=
  '(_, st') ← place_rows true false hall (row_major_cols hall)
                (seq 0 (rows hall)) hall_students 0%nat st;
  Done st'.

(** "Place students in S-pattern" of the second and third allocator. *)
Definition place_serpentine (row_break : bool) (hall : Hall)
    (hall_students : list Student) (st : State) : outcome State :=
  '(_, st') ← place_rows false row_break hall (serpentine_cols hall)
                (seq 0 (rows hall)) hall_students 0%nat st;
  Done st'.

(** ** Python's [sorted] and the registration keys *)

Section Sorting.
Context {A : Type} (leb : A → A → bool).

Fixpoint insert_sorted (x : A) (l : list A) : list A :=
  match l with
  | [] => [x]
  | y :: l' => if leb x y then x :: l else y :: insert_sorted x l'
  end.

(** A stable sort, as [sorted] and [list.sort] are: of two elements that
    compare equal, the one that came first stays first. *)
Definition sorted (l : list A) : list A := foldr insert_sorted [] l.
End Sorting.

(** [<=] on the tuple [(course_code, reg_no)] of two strings. *)
Definition course_reg_leb (s1 s2 : Student) : bool :=
  match String.compare (course_code s1) (course_code s2) with
  | Lt => true
  | Gt => false
  | Eq => String.leb (reg_no s1) (reg_no s2)
  end.

(** [\d] on the characters of a registration number (taken to be ASCII). *)
Definition is_digit (a : ascii) : bool :=
  (48 <=? nat_of_ascii a)%nat && (nat_of_ascii a <=? 57)%nat.

(** [re.sub(r"\D", "", reg)] *)
Fixpoint digits_of (reg : string) : list ascii :=
  match reg with
  | EmptyString => []
  | String a reg' => if is_digit a then a :: digits_of reg' else digits_of reg'
  end.

(** [int(digits)] *)
Definition int_of_digits (digits : list ascii) : N :=
  foldl (fun acc a => (10 * acc + (N_of_ascii a - 48))%N) 0%N digits.

(** The tuples [(0, int(digits))] and [(1, reg)] that [_reg_sort_key]
    returns. *)
Inductive RegKey :=
| NumKey (n : N)
| StrKey (reg : string).

Definition _reg_sort_key (student : Student) : RegKey :=
  match digits_of (reg_no student) with
  | [] => StrKey (reg_no student)
  | digits => NumKey (int_of_digits digits)
  end.

Definition reg_key_leb (k1 k2 : RegKey) : bool :=
  match k1, k2 with
  | NumKey n1, NumKey n2 => (n1 <=? n2)%N
  | NumKey _, StrKey _ => true
  | StrKey _, NumKey _ => false
  | StrKey r1, StrKey r2 => String.leb r1 r2
  end.

Definition reg_leb (s1 s2 : Student) : bool :=
  reg_key_leb (_reg_sort_key s1) (_reg_sort_key s2).

(** [<=] on the tuples [(course, 0, int(digits))] and [(course, 1, reg)] of
    [_reg_sort_key2]. *)
Definition course_key_leb (s1 s2 : Student) : bool :=
  match String.compare (course_code s1) (course_code s2) with
  | Lt => true
  | Gt => false
  | Eq => reg_leb s1 s2
  end.

(** ** Course queues: insertion-ordered dicts from course code to list *)

Abbreviation Queues := (list (string * list Student)).

(** [d.get(k)] / [d[k]], with the empty list for a missing key. *)
Fixpoint dict_get (d : Queues) (k : string) : list Student :=
  match d with
  | [] => []
  | (k', l) :: d' => if decide (k = k') then l else dict_get d' k
  end.

(** [d[k] = l] *)
Fixpoint dict_set (d : Queues) (k : string) (l : list Student) : Queues :=
  match d with
  | [] => [(k, l)]
  | (k', l') :: d' =>
      if decide (k = k') then (k', l) :: d' else (k', l') :: dict_set d' k l
  end.

(** [students_by_course[s['course_code']].append(s)] for each student of the
    sorted list, on a [defaultdict(list)]. *)
Definition group_by_course (students_sorted : list Student) : Queues :=
  foldl (fun d s => dict_set d (course_code s) (dict_get d (course_code s) ++ [s]))
        [] students_sorted.

(** [sorted(students_by_course.keys(), key=lambda c: len(students_by_course[c]),
    reverse=True)] *)
Definition courses_by_size (students_by_course : Queues) : list string :=
  sorted (fun c1 c2 =>
            bool_decide (length (dict_get students_by_course c2)
                         ≤ length (dict_get students_by_course c1))%nat)
         (students_by_course.*1).

(** [{c: list(students_by_course[c]) for c in courses}] *)
Definition queues_of (students_by_course : Queues) (courses : list string)
  : Queues :=
  foldl (fun d c => dict_set d c (dict_get students_by_course c)) [] courses.

(** [bool(l)] of a list *)
Definition nonempty {A} (l : list A) : bool :=
  match l with [] => false | _ => true end.

(** [any(remaining[c] for c in courses)] *)
Definition any_remaining (remaining : Queues) (courses : list string) : bool :=
  existsb (fun c => nonempty (dict_get remaining c)) courses.

(** [sum(len(studs) for studs in remaining.values())] *)
Definition count_remaining (remaining : Queues) : nat :=
  foldr (fun kv acc => (length kv.2 + acc)%nat) 0%nat remaining.

(** The loop that picks the first [limit] courses that still have students:
    [for c in courses: if remaining.get(c): current.append(c);
     if len(current) == limit: break]. *)
Fixpoint pick_courses (limit : nat) (remaining : Queues)
    (courses : list string) (current : list string) : list string :=
  match courses with
  | [] => current
  | c :: courses' =>
      let current' :=
        if nonempty (dict_get remaining c) then current ++ [c] else current in
      if decide (length current' = limit) then current'
      else pick_courses limit remaining courses' current'
  end.

(** ** [while] loops *)

Fixpoint while {S : Type} (fuel : nat) (cond : S → bool) (body : S → S)
    (s : S) : outcome S :=
  if cond s then
    match fuel with
    | O => OutOfFuel
    | Datatypes.S fuel' => while fuel' cond body (body s)
    end
  else Done s.

(** [len(l) < n] for a Python [int] [n] *)
Definition len_lt {A} (l : list A) (n : Z) : bool :=
  bool_decide (Z.of_nat (length l) < n).

(** [sum(1 for row in grid for seat in row if seat is not None)] *)
Definition occupied (g : Grid) : nat :=
  foldr (fun line acc =>
           (length (filter (fun o : option string => is_Some o) line) + acc)%nat)
        0%nat g.

(** Reading [hall_seats[code][r][c]]. *)
Definition read_cell (seats : gmap string Grid) (code : string) (r c : nat)
  : outcome (option string) :=
  match seats !! code with
  | None => Raise KeyError
  | Some g =>
      match g !! r with
      | None => Raise IndexError
      | Some line =>
          match line !! c with
          | None => Raise IndexError
          | Some o => Done o
          end
      end
  end.

(** The pairs of [for row in range(rows): for col in range(cols)], in the
    order the two loops visit them. *)
Definition row_major_coords (hall : Hall) : list (nat * nat) :=
  r ← seq 0 (rows hall); c ← seq 0 (cols hall); [(r, c)].

(** ** First allocator: [Exam1_Seat_allocator.py] *)

Module Exam1.

(** The variables the packing loops of one hall update. *)
Record Pack := mkPack {
  hall_students : list Student;
  remaining_courses : Queues;
  idx : nat
}.

(** [if remaining_courses[course]:
       hall_students.append(remaining_courses[course].pop(0))] *)
Definition take (course : string) (p : Pack) : Pack :=
  match dict_get (remaining_courses p) course with
  | [] => p
  | student :: rest =>
      {| hall_students := hall_students p ++ [student];
         remaining_courses := dict_set (remaining_courses p) course rest;
         idx := idx p |}
  end.

Definition allocation_order : list nat := [0; 0; 1; 2]%nat.

(** The condition of both [while] loops. *)
Definition pack_cond (usable_capacity : Z) (current_courses : list string)
    (p : Pack) : bool :=
  len_lt (hall_students p) usable_capacity
  && any_remaining (remaining_courses p) current_courses.

(** Body of the 2:1:1 loop.  [current_courses] has three elements when the
    loop runs, so both subscripts are in range. *)
Definition ratio_body (current_courses : list string) (p : Pack) : Pack :=
  let course_idx :=
    default 0%nat (allocation_order !! (idx p mod length allocation_order)%nat) in
  let p' :=
    match current_courses !! course_idx with
    | Some course => take course p
    | None => p
    end in
  {| hall_students := hall_students p';
     remaining_courses := remaining_courses p';
     idx := S (idx p') |}.

(** Body of the round-robin loop: one [for course in current_courses]. *)
Definition round_robin_body (usable_capacity : Z)
    (current_courses : list string) (p : Pack) : Pack :=
  foldl (fun p course =>
           if nonempty (dict_get (remaining_courses p) course)
              && len_lt (hall_students p) usable_capacity
           then take course p else p)
        p current_courses.

(** The packing of one hall: the courses picked and the loop run. *)
Definition pack_hall (fuel : nat) (courses : list string) (hall : Hall)
    (remaining : Queues) : outcome (option Pack) :=
  let usable_capacity := Z.min (total_capacity hall) (grid_capacity hall) in
  let current_courses := pick_courses 4 remaining courses [] in
  let p0 := {| hall_students := []; remaining_courses := remaining; idx := 0 |} in
  if nonempty current_courses then
    p ← (if decide (length current_courses = 3%nat)
         then while fuel (pack_cond usable_capacity current_courses)
                    (ratio_body current_courses) p0
         else while fuel (pack_cond usable_capacity current_courses)
                    (round_robin_body usable_capacity current_courses) p0);
    Done (Some p)
  else Done None.

(** One iteration of the first pass: [None] is the [continue] taken when
    no course has students left. *)
Definition first_pass_hall (fuel : nat) (courses : list string) (hall : Hall)
    (st : State) (remaining : Queues) : outcome (State * Queues) :=
  o ← pack_hall fuel courses hall remaining;
  match o with
  | None => Done (st, remaining)
  | Some p =>
      st' ← place_row_major hall (sorted reg_leb (hall_students p)) st;
      Done (st', remaining_courses p)
  end.

Fixpoint first_pass (fuel : nat) (courses : list string) (halls : list Hall)
    (st : State) (remaining : Queues) : outcome (State * Queues) :=
  match halls with
  | [] => Done (st, remaining)
  | hall :: halls' =>
      '(st', remaining') ← first_pass_hall fuel courses hall st remaining;
      first_pass fuel courses halls' st' remaining'
  end.

(** The search for the next available seat of a hall; a student for whom
    no cell is free is dropped. *)
Fixpoint seat_first_free (hall : Hall) (coords : list (nat * nat))
    (student : Student) (st : State) : outcome State :=
  match coords with
  | [] => Done st
  | (r, c) :: coords' =>
      o ← read_cell (hall_seats st) (hall_code hall) r c;
      match o with
      | None => seat true hall r c student st
      | Some _ => seat_first_free hall coords' student st
      end
  end.

(** [for _ in range(to_allocate): student = unallocated_students.pop(0) ...] *)
Fixpoint seat_unallocated (hall : Hall) (to_allocate : nat)
    (unallocated_students : list Student) (st : State)
  : outcome (list Student * State) :=
  match to_allocate, unallocated_students with
  | S n, student :: rest =>
      st' ← seat_first_free hall (row_major_coords hall) student st;
      seat_unallocated hall n rest st'
  | _, _ => Done (unallocated_students, st)
  end.

Fixpoint second_pass_halls (halls : list Hall)
    (unallocated_students : list Student) (st : State) : outcome State :=
  match halls with
  | [] => Done st
  | hall :: halls' =>
      let usable_capacity := Z.min (total_capacity hall) (grid_capacity hall) in
      match hall_seats st !! hall_code hall with
      | None => Raise KeyError
      | Some g =>
          let available_seats := usable_capacity - Z.of_nat (occupied g) in
          if bool_decide (available_seats > 0) && nonempty unallocated_students
          then
            let to_allocate :=
              Z.min available_seats (Z.of_nat (length unallocated_students)) in
            '(unallocated', st') ←
              seat_unallocated hall (Z.to_nat to_allocate) unallocated_students st;
            second_pass_halls halls' unallocated' st'
          else second_pass_halls halls' unallocated_students st
      end
  end.

(** The second pass works on a list of its own, filled from the queues;
    the queues themselves are left as the first pass left them. *)
Definition second_pass (halls : list Hall) (remaining : Queues) (st : State)
  : outcome State :=
  let unallocated_students := concat (remaining.*2) in
  if nonempty unallocated_students
  then second_pass_halls halls (sorted course_key_leb unallocated_students) st
  else Done st.

(** [allocate_seats] up to, but without, its closing check, on a freshly
    built allocator. *)
Definition placement_passes (fuel : nat) (halls : list Hall)
    (students : list Student) : outcome (State * Queues) :=
  _ ← validate_inputs halls students;
  let students_sorted := sorted course_reg_leb students in
  let students_by_course := group_by_course students_sorted in
  let courses := courses_by_size students_by_course in
  let remaining := queues_of students_by_course courses in
  '(st, remaining') ← first_pass fuel courses halls (init_state halls) remaining;
  st' ← second_pass halls remaining' st;
  Done (st', remaining').

Definition allocate_seats (fuel : nat) (halls : list Hall)
    (students : list Student) : outcome State :=
  '(st, remaining) ← placement_passes fuel halls students;
  let unallocated := count_remaining remaining in
  if decide (0 < unallocated)%nat
  then Raise (UnallocatedStudentsError unallocated)
  else Done st.

End Exam1.

(** ** Python floats

    [cap / total] on two [int]s and the product with an [int] are IEEE
    binary64 operations; the operands are converted exactly as long as they
    stay below 2^53, which counts of seats and students do. *)

Definition float_of_int (z : Z) : float := PrimFloat.of_uint63 (Uint63.of_Z z).

(** [int(x)]: truncation toward zero. *)
Definition int_of_float (x : float) : Z :=
  match Prim2SF x with
  | S754_finite sign m e =>
      let v := if (0 <=? e)%Z then Z.shiftl (Z.pos m) e
               else Z.shiftr (Z.pos m) (- e) in
      if sign then - v else v
  | _ => 0
  end.

(** [math.ceil(x)] *)
Definition ceil_of_float (x : float) : Z :=
  match Prim2SF x with
  | S754_finite sign m e =>
      if (0 <=? e)%Z then
        let v := Z.shiftl (Z.pos m) e in if sign then - v else v
      else
        let q := Z.shiftr (Z.pos m) (- e) in
        let exact := (Z.shiftl q (- e) =? Z.pos m)%Z in
        if sign then - q else if exact then q else q + 1
  | _ => 0
  end.

(** [int((cap / total_capacity) * total_students)] *)
Definition proportional_count (cap total_capacity total_students : Z) : Z :=
  int_of_float
    (PrimFloat.mul
       (PrimFloat.div (float_of_int cap) (float_of_int total_capacity))
       (float_of_int total_students)).

(** [students_per_hall.get(code, 0)] *)
Definition target_of (students_per_hall : gmap string Z) (hall : Hall) : Z :=
  default 0 (students_per_hall !! hall_code hall).

(** The first loop of the distributor, over the selected halls:
    [students_per_hall[code] = count; allocated_count += count]. *)
Fixpoint proportional_counts (total_capacity total_students : Z)
    (halls : list Hall) (students_per_hall : gmap string Z) (allocated_count : Z)
  : gmap string Z * Z :=
  match halls with
  | [] => (students_per_hall, allocated_count)
  | hall :: halls' =>
      let count :=
        if decide (total_capacity > 0)
        then proportional_count (grid_capacity hall) total_capacity total_students
        else 0 in
      proportional_counts total_capacity total_students halls'
        (<[hall_code hall := count]> students_per_hall) (allocated_count + count)
  end.

(** The second loop: [if rem <= 0: break; students_per_hall[code] += 1;
    rem -= 1]. *)
Fixpoint spread_remainder (halls : list Hall) (students_per_hall : gmap string Z)
    (rem : Z) : gmap string Z :=
  match halls with
  | [] => students_per_hall
  | hall :: halls' =>
      if decide (rem <= 0) then students_per_hall
      else spread_remainder halls'
             (<[hall_code hall := target_of students_per_hall hall + 1]>
                students_per_hall)
             (rem - 1)
  end.

(** Both loops, from the dict [d0] the file starts with. *)
Definition distribute (d0 : gmap string Z) (halls : list Hall)
    (total_students : Z) : gmap string Z :=
  let total_capacity := total_seats halls in
  let '(students_per_hall, allocated_count) :=
    proportional_counts total_capacity total_students halls d0 0 in
  spread_remainder halls students_per_hall (total_students - allocated_count).

(** [sorted(halls, key=lambda h: h['rows'] * h['cols'], reverse=True)] *)
Definition halls_by_capacity (halls : list Hall) : list Hall :=
  sorted (fun h1 h2 => bool_decide (grid_capacity h2 ≤ grid_capacity h1)) halls.

(** ** Second allocator: [University_Exam_Seat_Allocater.py] *)

Module University.

(** [((total_students + 24) // 25) * 25] *)
Definition required_capacity (total_students : Z) : Z :=
  ((total_students + 24) / 25) * 25.

(** The accumulation loop over the halls, largest grid first. *)
Fixpoint select_codes (required : Z) (halls : list Hall) (cap_acc : Z)
    (selected_codes : gset string) : gset string :=
  match halls with
  | [] => selected_codes
  | h :: halls' =>
      let cap_acc' := cap_acc + grid_capacity h in
      let selected_codes' := {[hall_code h]} ∪ selected_codes in
      if decide (cap_acc' >= required) then selected_codes'
      else select_codes required halls' cap_acc' selected_codes'
  end.

(** [[h for h in self.halls if h['hall_code'] in selected_codes]] *)
Definition halls_to_use (halls : list Hall) (total_students : Z) : list Hall :=
  let selected_codes :=
    select_codes (required_capacity total_students)
      (halls_by_capacity halls) 0 ∅ in
  filter (fun h => hall_code h ∈ selected_codes) halls.

(** The hall selector with its check. *)
Definition select_halls (halls : list Hall) (total_students : Z)
  : outcome (list Hall) :=
  let selected := halls_to_use halls total_students in
  if decide (total_seats selected < total_students)
  then Raise InsufficientCapacityError
  else Done selected.

(** The variables the alternation loop of one hall updates. *)
Record Pack := mkPack {
  hall_students : list Student;
  first_half : list Student;
  second_half : list Student
}.

Definition pack_cond (usable : Z) (p : Pack) : bool :=
  len_lt (hall_students p) usable
  && (nonempty (first_half p) || nonempty (second_half p)).

(** [if first_half and len(hall_students) < usable:
       hall_students.append(first_half.popleft())] *)
Definition take_first (usable : Z) (p : Pack) : Pack :=
  match first_half p with
  | student :: rest =>
      if len_lt (hall_students p) usable
      then {| hall_students := hall_students p ++ [student];
              first_half := rest; second_half := second_half p |}
      else p
  | [] => p
  end.

Definition take_second (usable : Z) (p : Pack) : Pack :=
  match second_half p with
  | student :: rest =>
      if len_lt (hall_students p) usable
      then {| hall_students := hall_students p ++ [student];
              first_half := first_half p; second_half := rest |}
      else p
  | [] => p
  end.

Definition pack_body (usable : Z) (p : Pack) : Pack :=
  take_second usable (take_first usable p).

(** One iteration of the loop over the selected halls. *)
Definition allocate_hall (fuel : nat) (students_per_hall : gmap string Z)
    (hall : Hall) (st : State) (first second : list Student)
  : outcome (State * list Student * list Student) :=
  let target := target_of students_per_hall hall in
  if decide (target <= 0) then Done (st, first, second)
  else
    let usable :=
      Z.min (Z.min (grid_capacity hall) (total_capacity hall)) target in
    p ← while fuel (pack_cond usable) (pack_body usable)
          {| hall_students := []; first_half := first; second_half := second |};
    if nonempty (hall_students p) then
      st' ← place_serpentine true hall (hall_students p) st;
      Done (st', first_half p, second_half p)
    else Done (st, first_half p, second_half p).

Fixpoint allocate_halls (fuel : nat) (students_per_hall : gmap string Z)
    (halls : list Hall) (st : State) (first second : list Student)
  : outcome (State * list Student * list Student) :=
  match halls with
  | [] => Done (st, first, second)
  | hall :: halls' =>
      '(st', first', second') ←
        allocate_hall fuel students_per_hall hall st first second;
      allocate_halls fuel students_per_hall halls' st' first' second'
  end.

(** [allocate_seats] up to, but without, its closing check, on a freshly
    built allocator. *)
Definition placement_passes (fuel : nat) (halls : list Hall)
    (students : list Student)
  : outcome (State * list Student * list Student) :=
  _ ← validate_inputs halls students;
  let total_students := Z.of_nat (length students) in
  selected ← select_halls halls total_students;
  let half := Z.to_nat ((total_students + 1) / 2) in
  let students_per_hall := distribute ∅ selected total_students in
  allocate_halls fuel students_per_hall selected (init_state halls)
    (take half students) (drop half students).

Definition allocate_seats (fuel : nat) (halls : list Hall)
    (students : list Student) : outcome State :=
  '(st, first, second) ← placement_passes fuel halls students;
  let remaining := first ++ second in
  if nonempty remaining
  then Raise (UnallocatedStudentsError (length remaining))
  else Done st.

End University.

(** ** Third allocator: [pdf_reports/University_Exam_Seat_Allocater (copy).py] *)

Module UniversityCopy.

(** [ceil(total_students / 25) if total_students > 0 else 0], times 25 *)
Definition required_seats (total_students : Z) : Z :=
  let required_blocks :=
    if decide (total_students > 0)
    then ceil_of_float
           (PrimFloat.div (float_of_int total_students) (float_of_int 25))
    else 0 in
  required_blocks * 25.

(** The selection loop, over the halls in the order given. *)
Fixpoint select_halls (required : Z) (halls : list Hall)
    (selected_halls : list Hall) (selected_capacity : Z) : list Hall * Z :=
  match halls with
  | [] => (selected_halls, selected_capacity)
  | hall :: halls' =>
      let selected_halls' := selected_halls ++ [hall] in
      let selected_capacity' := selected_capacity + grid_capacity hall in
      if decide (selected_capacity' >= required)
      then (selected_halls', selected_capacity')
      else select_halls required halls' selected_halls' selected_capacity'
  end.

(** [{h['hall_code']: 0 for h in self.halls}] *)
Definition zero_targets (halls : list Hall) : gmap string Z :=
  foldl (fun d h => <[hall_code h := 0]> d) ∅ halls.

Definition students_per_hall (halls : list Hall) (total_students : Z)
  : gmap string Z :=
  let '(selected_halls, selected_capacity) :=
    select_halls (required_seats total_students) halls [] 0 in
  if decide (selected_capacity > 0 ∧ total_students > 0)
  then distribute (zero_targets halls) selected_halls total_students
  else zero_targets halls.

(** The variables the round-robin loop of one hall updates; [stopped] is
    set by the [break] that ends the [while] loop. *)
Record Pack := mkPack {
  hall_students : list Student;
  remaining : Queues;
  current_courses : list string;
  future_courses : list string;
  stopped : bool
}.

(** [current_courses.remove(course)] *)
Fixpoint remove_first (course : string) (l : list string) : list string :=
  match l with
  | [] => []
  | c :: l' => if decide (course = c) then l' else c :: remove_first course l'
  end.

(** The body of [for course in list(current_courses)] after its [break]
    test. *)
Definition visit (course : string) (p : Pack) : Pack :=
  match dict_get (remaining p) course with
  | student :: rest =>
      {| hall_students := hall_students p ++ [student];
         remaining := dict_set (remaining p) course rest;
         current_courses := current_courses p;
         future_courses := future_courses p;
         stopped := stopped p |}
  | [] =>
      let '(current, future) :=
        match future_courses p with
        | next_course :: future' => (current_courses p ++ [next_course], future')
        | [] => (current_courses p, [])
        end in
      {| hall_students := hall_students p;
         remaining := remaining p;
         current_courses := remove_first course current;
         future_courses := future;
         stopped := stopped p |}
  end.

(** [for course in list(current_courses)], over the copy [snapshot]. *)
Fixpoint cycle (usable_capacity : Z) (snapshot : list string) (p : Pack)
  : Pack :=
  match snapshot with
  | [] => p
  | course :: snapshot' =>
      if len_lt (hall_students p) usable_capacity
      then cycle usable_capacity snapshot' (visit course p)
      else p
  end.

Definition pack_cond (usable_capacity : Z) (p : Pack) : bool :=
  len_lt (hall_students p) usable_capacity && negb (stopped p).

Definition pack_body (usable_capacity : Z) (p : Pack) : Pack :=
  let p' := cycle usable_capacity (current_courses p) p in
  if nonempty (current_courses p') then p'
  else {| hall_students := hall_students p';
          remaining := remaining p';
          current_courses := current_courses p';
          future_courses := future_courses p';
          stopped := true |}.

(** One iteration of the loop over all halls. *)
Definition allocate_hall (fuel : nat) (courses_sorted : list string)
    (targets : gmap string Z) (hall : Hall) (st : State) (queues : Queues)
  : outcome (State * Queues) :=
  match targets !! hall_code hall with
  | None => Raise KeyError
  | Some target =>
      if decide (target <= 0) then Done (st, queues)
      else
        let usable_capacity :=
          Z.min (Z.min (grid_capacity hall) (total_capacity hall)) target in
        let current := pick_courses 2 queues courses_sorted [] in
        let future :=
          filter (fun c => c ∉ current) courses_sorted in
        p ← while fuel (pack_cond usable_capacity) (pack_body usable_capacity)
              {| hall_students := []; remaining := queues;
                 current_courses := current; future_courses := future;
                 stopped := false |};
        st' ← place_serpentine false hall (hall_students p) st;
        Done (st', remaining p)
  end.

Fixpoint allocate_halls (fuel : nat) (courses_sorted : list string)
    (targets : gmap string Z) (halls : list Hall) (st : State)
    (queues : Queues) : outcome (State * Queues) :=
  match halls with
  | [] => Done (st, queues)
  | hall :: halls' =>
      '(st', queues') ←
        allocate_hall fuel courses_sorted targets hall st queues;
      allocate_halls fuel courses_sorted targets halls' st' queues'
  end.

Definition allocate_seats (fuel : nat) (halls : list Hall)
    (students : list Student) : outcome State :=
  _ ← validate_inputs halls students;
  let students_by_course := group_by_course (sorted course_reg_leb students) in
  let courses_sorted := courses_by_size students_by_course in
  let queues := queues_of students_by_course courses_sorted in
  let targets := students_per_hall halls (Z.of_nat (length students)) in
  '(st, queues') ←
    allocate_halls fuel courses_sorted targets halls (init_state halls) queues;
  let unallocated := count_remaining queues' in
  if decide (0 < unallocated)%nat
  then Raise (UnallocatedStudentsError unallocated)
  else Done st.

End UniversityCopy.

(** * Vocabulary of the properties *)

(** A seat handed out: hall, 0-based row and column, student. *)
Abbreviation Placement := (Hall * nat * nat * Student)%type.

Definition placed_cell (p : Placement) : string * nat * nat :=
  (hall_code p.1.1.1, p.1.1.2, p.1.2).

Definition placed_reg (p : Placement) : string := reg_no p.2.

Fixpoint run_trace (with_date : bool) (trace : list Placement) (st : State)
  : outcome State :=
  match trace with
  | [] => Done st
  | (hall, r, c, student) :: trace' =>
      st' ← seat with_date hall r c student st;
      run_trace with_date trace' st'
  end.

Definition trace_of (hall : Hall) (coords : list (nat * nat))
    (hall_students : list Student) : list Placement :=
  zip_with (λ rc student, (hall, rc.1, rc.2, student)) coords hall_students.

Definition coords_of (col_range : nat → list nat) (row_range : list nat)
  : list (nat * nat) :=
  r ← row_range; (pair r <$> col_range r).

(** The number of cells of a grid whose content satisfies [P]. *)
Definition count_cells (P : option string → Prop) `{!∀ o, Decision (P o)}
    (g : Grid) : nat :=
  foldr (λ line acc, (length (filter P line) + acc)%nat) 0%nat g.

(** The same number summed over all grids of [hall_seats]. *)
Definition grid_sum (f : Grid → nat) (seats : gmap string Grid) : nat :=
  map_fold (λ _ g acc, (f g + acc)%nat) 0%nat seats.

(** Cells that hold a student, over all halls. *)
Definition occupied_cells (seats : gmap string Grid) : nat :=
  grid_sum occupied seats.

(** Cells that hold the registration number [reg], over all halls. *)
Definition cells_holding (reg : string) (seats : gmap string Grid) : nat :=
  grid_sum (count_cells (λ o, o = Some reg)) seats.

Definition indicator (P : Prop) `{!Decision P} : nat := if decide P then 1 else 0.

(** Every ledger entry points at the cell that holds its student. *)
Definition ledger_in_grid (st : State) : Prop :=
  ∀ reg a, allocations st !! reg = Some a →
    (1 ≤ a_row a)%nat ∧ (1 ≤ a_col a)%nat ∧
    cell (hall_seats st) (a_hall_code a) (a_row a - 1) (a_col a - 1) = Some reg.

(** Every occupied cell has the ledger entry of its student, with the
    1-based coordinates of the cell. *)
Definition grid_in_ledger (st : State) : Prop :=
  ∀ code r c reg, cell (hall_seats st) code r c = Some reg →
    ∃ a, allocations st !! reg = Some a ∧ a_hall_code a = code ∧
         a_row a = (r + 1)%nat ∧ a_col a = (c + 1)%nat.

(** The grid of a hall has the dimensions of the hall. *)
Definition grid_shape (hall : Hall) (g : Grid) : Prop :=
  length g = rows hall ∧ ∀ r line, g !! r = Some line → length line = cols hall.

Definition shaped (halls : list Hall) (st : State) : Prop :=
  ∀ hall, hall ∈ halls →
    ∃ g, hall_seats st !! hall_code hall = Some g ∧ grid_shape hall g.

(** What holds of a state reached by the seats [done]. *)
Record traced (done : list Placement) (st : State) : Prop := {
  tr_ledger : ledger_in_grid st;
  tr_grid : grid_in_ledger st;
  tr_cells : ∀ code r c,
    is_Some (cell (hall_seats st) code r c) → (code, r, c) ∈ placed_cell <$> done;
  tr_regs : ∀ reg,
    is_Some (allocations st !! reg) ↔ reg ∈ placed_reg <$> done;
  tr_occupied : occupied_cells (hall_seats st) = length done;
  tr_holding : ∀ reg,
    cells_holding reg (hall_seats st) = indicator (reg ∈ placed_reg <$> done)
}.

(** A seat of the trace is a cell of one of the halls. *)
Definition in_hall (halls : list Hall) (p : Placement) : Prop :=
  p.1.1.1 ∈ halls ∧ (p.1.1.2 < rows p.1.1.1)%nat ∧ (p.1.2 < cols p.1.1.1)%nat.

(** The trace of a mapper over a whole hall. *)
Definition hall_trace (hall : Hall) (col_range : nat → list nat)
    (hall_students : list Student) : list Placement :=
  trace_of hall (coords_of col_range (seq 0 (rows hall))) hall_students.

(** Seats handed out hall by hall, each hall once. *)
Definition good_trace (halls : list Hall) (trace : list Placement) : Prop :=
  Forall (in_hall halls) trace ∧ NoDup (placed_cell <$> trace).

(** What the packing loops keep: the students taken and those still queued
    are the students queued at the start, and the hall is not overfilled. *)
Definition exam1_pack_inv (queued : list Student) (usable : Z)
    (p : Exam1.Pack) : Prop :=
  Exam1.hall_students p ++ concat ((Exam1.remaining_courses p).*2) ≡ₚ queued
  ∧ Z.of_nat (length (Exam1.hall_students p)) ≤ Z.max 0 usable.

Definition university_pack_inv (queued : list Student) (usable : Z)
    (p : University.Pack) : Prop :=
  University.hall_students p ++ University.first_half p ++ University.second_half p
    ≡ₚ queued
  ∧ Z.of_nat (length (University.hall_students p)) ≤ Z.max 0 usable.

(** A state whose ledger and grids come from seating [students], each
    once and each in a cell of a hall of their own. *)
Definition seated (students : list Student) (st : State) : Prop :=
  ∃ trace, traced trace st ∧ snd <$> trace ≡ₚ students.

(** The registration number [reg] is in exactly one cell of the grids. *)
Definition in_one_cell (reg : string) (seats : gmap string Grid) : Prop :=
  ∃ code r c, cell seats code r c = Some reg ∧
    ∀ code' r' c', cell seats code' r' c' = Some reg → (code', r', c') = (code, r, c).

(** No student dropped, no seat handed out twice. *)
Definition all_seated_once (students : list Student) (st : State) : Prop :=
  occupied_cells (hall_seats st) = length students ∧
  ∀ s, s ∈ students →
    cells_holding (reg_no s) (hall_seats st) = 1%nat ∧
    in_one_cell (reg_no s) (hall_seats st).

(** Small inputs the statements below are tried on. *)
Definition demo_student (reg course : string) : Student :=
  {| reg_no := reg; department := "CSE"; course_code := course;
     course_title := "Title"; date := "2024-01-01" |}.

Definition demo_hall (code : string) (rows cols : nat) (capacity : Z) : Hall :=
  {| hall_code := code; hall_name := "Hall"; block := "Main";
     rows := rows; cols := cols; total_capacity := capacity |}.

Definition demo_students : list Student :=
  [demo_student "R10" "C1"; demo_student "R9" "C1"; demo_student "R3" "C2";
   demo_student "R4" "C3"].

Definition demo_halls : list Hall :=
  [demo_hall "A" 1 3 3; demo_hall "B" 2 2 4].

Definition state_of (o : outcome State) (halls : list Hall) : State :=
  match o with Done st => st | _ => init_state halls end.

(** The writes of a trace, seen on the grid of its hall alone. *)
Fixpoint write_all (g : Grid) (trace : list Placement) : option Grid :=
  match trace with
  | [] => Some g
  | (_, r, c, student) :: trace' =>
      line ← g !! r;
      if decide (c < length line)%nat
      then write_all (<[r := <[c := Some (reg_no student)]> line]> g) trace'
      else None
  end.

(** Some hall declares more seats than its grid has. *)
Definition over_declared (halls : list Hall) : Prop :=
  Exists (λ hall, total_capacity hall > grid_capacity hall) halls.

(** The usable seats of the data model, [min(declared_capacity, rows*cols)],
    summed over the halls: the total the specification of the validator
    speaks of. *)
Definition total_usable_seats (halls : list Hall) : Z :=
  foldr (λ hall acc, Z.min (total_capacity hall) (grid_capacity hall) + acc) 0 halls.

(** The condition under which the validator raises, as the specification
    words it. *)
Definition spec_capacity_condition (halls : list Hall) (students : list Student)
  : Prop :=
  over_declared halls ∨ total_usable_seats halls < Z.of_nat (length students).

(** A hall of 1 x 2 that declares one seat, and two students. *)
Definition narrow_hall : list Hall := [demo_hall "A" 1 2 1].
Definition two_students : list Student :=
  [demo_student "R1" "C1"; demo_student "R2" "C1"].

(** The accumulated halls cannot reach the rounded threshold: all halls
    together have fewer grid seats than the next multiple of 25. *)
Definition threshold_missed (halls : list Hall) (total_students : Z) : Prop :=
  total_seats halls < University.required_capacity total_students.

(** The errors of the subscripts are the only ones the loop over the halls
    can raise. *)
Definition lookup_error (e : Error) : Prop := e = KeyError ∨ e = IndexError.

(** [sum(students_per_hall[h] for h in halls)] *)
Definition sum_targets (targets : gmap string Z) (halls : list Hall) : Z :=
  foldr (λ hall acc, target_of targets hall + acc) 0 halls.

(** The float computation of the share of a hall gives the floor of the
    exact quotient [cap * total_students / total_capacity]. *)
Definition exact_share (total_capacity total_students : Z) (hall : Hall) : Prop :=
  proportional_count (grid_capacity hall) total_capacity total_students
  = grid_capacity hall * total_students / total_capacity.

(** The float computation of the share of a hall is at most the exact
    quotient and less than one below it. *)
Definition near_share (total_capacity total_students : Z) (hall : Hall) : Prop :=
  let count :=
    proportional_count (grid_capacity hall) total_capacity total_students in
  0 ≤ count ∧
  count * total_capacity ≤ grid_capacity hall * total_students ∧
  grid_capacity hall * total_students ≤ (count + 1) * total_capacity.

(** The share of a hall, as the first loop computes it. *)
Definition share (total_capacity total_students : Z) (hall : Hall) : Z :=
  if decide (total_capacity > 0)
  then proportional_count (grid_capacity hall) total_capacity total_students
  else 0.

Definition sum_shares (total_capacity total_students : Z) (halls : list Hall) : Z :=
  foldr (λ hall acc, share total_capacity total_students hall + acc) 0 halls.


(** A hall of 48 seats and a hall of one seat. *)
Definition two_uneven_halls : list Hall :=
  [demo_hall "A" 6 8 48; demo_hall "B" 1 1 1].

Definition university_measure (p : University.Pack) : nat :=
  length (University.first_half p) + length (University.second_half p).

Definition exam1_measure (p : Exam1.Pack) : nat :=
  count_remaining (Exam1.remaining_courses p).

(** Whether the course whose turn it is at [phase] (0..3) has students,
    given which of the three courses have. *)
Definition turn_has (e0 e1 e2 : bool) (phase : nat) : bool :=
  match default 0%nat (Exam1.allocation_order !! (phase mod 4)%nat) with
  | 0%nat => e0
  | 1%nat => e1
  | _ => e2
  end.

(** Rounds until the turn of a course that has students. *)
Definition turns_to_wait (e0 e1 e2 : bool) (phase : nat) : nat :=
  if turn_has e0 e1 e2 phase then 0
  else if turn_has e0 e1 e2 (phase + 1) then 1
  else if turn_has e0 e1 e2 (phase + 2) then 2
  else if turn_has e0 e1 e2 (phase + 3) then 3
  else 4.

Definition exam1_ratio_measure (c0 c1 c2 : string) (p : Exam1.Pack) : nat :=
  let has c := nonempty (dict_get (Exam1.remaining_courses p) c) in
  (5 * exam1_measure p
   + turns_to_wait (has c0) (has c1) (has c2) (Exam1.idx p mod 4))%nat.

(** An outcome other than [OutOfFuel]: the run returned or raised. *)
Definition finished {A} (o : outcome A) : Prop := o ≠ OutOfFuel.

Definition copy_measure (p : UniversityCopy.Pack) : nat :=
  count_remaining (UniversityCopy.remaining p)
  + length (UniversityCopy.current_courses p)
  + length (UniversityCopy.future_courses p).

Definition copy_loop_measure (p : UniversityCopy.Pack) : nat :=
  copy_measure p + (if UniversityCopy.stopped p then 0 else 1).

(** One hall of 1 x 5 that declares five seats, and five students of five
    courses. *)
Definition one_row_hall : list Hall := [demo_hall "H1" 1 5 5].

Definition five_courses : list Student :=
  [demo_student "S1" "C1"; demo_student "S2" "C2"; demo_student "S3" "C3";
   demo_student "S4" "C4"; demo_student "S5" "C5"].



Definition result_of {A} (o : outcome A) (default : A) : A :=
  match o with Done a => a | _ => default end.

(** The queues keep their courses and do not grow. *)
Definition queues_shrunk (before after : Queues) : Prop :=
  after.*1 = before.*1 ∧
  ∀ c, (length (dict_get after c) ≤ length (dict_get before c))%nat.

(** The course codes of the students. *)
Definition distinct_courses (students : list Student) : gset string :=
  list_to_set (course_code <$> students).

(** Two halls of two seats each, and four students of two courses. *)
Definition two_full_halls : list Hall :=
  [demo_hall "A" 1 2 2; demo_hall "B" 1 2 2].

Definition four_students : list Student :=
  [demo_student "R1" "C1"; demo_student "R2" "C2"; demo_student "R3" "C1";
   demo_student "R4" "C2"].

(** [n] students of one course, numbered from 0. *)
Definition numbered_students (n : nat) : list Student :=
  (λ i, demo_student (pretty i) "C1") <$> seq 0 n.

(** * The reports and the course sets of the halls *)

(** What the round robin of the third allocator keeps: the students taken
    and those still queued are the students queued at the start, and the
    hall is not overfilled. *)
Definition copy_pack_inv (queued : list Student) (usable : Z)
    (p : UniversityCopy.Pack) : Prop :=
  UniversityCopy.hall_students p ++ concat ((UniversityCopy.remaining p).*2)
    ≡ₚ queued
  ∧ Z.of_nat (length (UniversityCopy.hall_students p)) ≤ Z.max 0 usable.

(** [allocate_seats] of the third allocator up to, but without, its closing
    check, on a freshly built allocator. *)
Definition copy_placement_passes (fuel : nat) (halls : list Hall)
    (students : list Student) : outcome (State * Queues) :=
  _ ← validate_inputs halls students;
  let students_by_course := group_by_course (sorted course_reg_leb students) in
  let courses_sorted := courses_by_size students_by_course in
  let queues := queues_of students_by_course courses_sorted in
  let targets := UniversityCopy.students_per_hall halls (Z.of_nat (length students)) in
  UniversityCopy.allocate_halls fuel courses_sorted targets halls
    (init_state halls) queues.

(** The students the grid of a hall holds: the count
    [sum(1 for row in self.hall_seats[code] for seat in row if seat is not None)]
    of the first allocator, 0 for a code without a grid. *)
Definition seats_taken (st : State) (code : string) : nat :=
  match hall_seats st !! code with
  | Some g => occupied g
  | None => 0%nat
  end.

(** [min(hall_capacity, grid_capacity)] *)
Definition usable_seats (hall : Hall) : Z :=
  Z.min (total_capacity hall) (grid_capacity hall).

(** No hall holds more students than the smaller of its declared capacity
    and its grid. *)
Definition within_capacity (halls : list Hall) (st : State) : Prop :=
  ∀ hall, hall ∈ halls →
    Z.of_nat (seats_taken st (hall_code hall)) ≤ Z.max 0 (usable_seats hall).

(** No hall holds more students than its target, nor more than
    [within_capacity] allows. *)
Definition within_targets (targets : gmap string Z) (halls : list Hall)
    (st : State) : Prop :=
  ∀ hall, hall ∈ halls →
    Z.of_nat (seats_taken st (hall_code hall))
    ≤ Z.max 0 (Z.min (usable_seats hall) (target_of targets hall)).

(** The seats of a trace that lie in the hall [code]. *)
Definition placed_in (code : string) (trace : list Placement) : nat :=
  length (filter (λ p : Placement, hall_code p.1.1.1 = code) trace).

(** The halls the third allocator selects: the shortest prefix of the halls
    whose grids reach the required seats, or all halls. *)
Definition copy_selected_halls (halls : list Hall) (total_students : Z)
  : list Hall :=
  (UniversityCopy.select_halls (UniversityCopy.required_seats total_students)
     halls [] 0).1.

#[global] Instance Hall_eq_dec : EqDecision Hall.
Proof. solve_decision. Defined.

#[global] Instance Student_eq_dec : EqDecision Student.
Proof. solve_decision. Defined.

(** A hall of 25 seats followed by a hall of 2 seats. *)
Definition large_and_small_hall : list Hall :=
  [demo_hall "A" 5 5 25; demo_hall "B" 1 2 2].

(** The order of [(course_code, reg_no)] tuples and of registration
    numbers as strings, and the ranking of two courses by the size of
    their queues. *)
Definition course_reg_le (s1 s2 : Student) : Prop := course_reg_leb s1 s2 = true.

Definition reg_string_le (s1 s2 : Student) : Prop :=
  String.leb (reg_no s1) (reg_no s2) = true.

Definition larger_first (queues : Queues) (c1 c2 : string) : Prop :=
  (length (dict_get queues c2) ≤ length (dict_get queues c1))%nat.

(** ** The hall pages of the second allocator: [export_pdf_seating_plan]

    The part of the loop over the halls that numbers the seats: which halls
    get a page, the base code of a hall, the seat numbers of its grid and
    the dict [last_seat_per_base] that carries the numbering from one hall
    to the next hall of the same base.  The other statements of the loop
    body build the tables and styles from these; they write none of these
    variables. *)

Module SeatingPlanPdf.

Abbreviation SeatNumbers := (list (list (option Z))).

(** [bool(reg_no)] of a cell: [None] and the empty string are false. *)
Definition truthy (o : option string) : bool :=
  match o with
  | Some (String _ _) => true
  | _ => false
  end.

(** [[self.hall_seats[hall_code][r][c] for r in range(rows)
      for c in range(cols) if self.hall_seats[hall_code][r][c]]] *)
Fixpoint allocated_reg_nos (seats : gmap string Grid) (code : string)
    (coords : list (nat * nat)) : outcome (list string) :=
  match coords with
  | [] => Done []
  | (r, c) :: coords' =>
      o ← read_cell seats code r c;
      regs ← allocated_reg_nos seats code coords';
      Done (match o with
            | Some reg => if truthy o then reg :: regs else regs
            | None => regs
            end)
  end.

(** [hall_code.rsplit('-', 1)[0]] when ['-' in hall_code]: the text before
    the last ['-'], [None] when there is no ['-']. *)
Fixpoint rsplit_head (hall_code : string) : option string :=
  match hall_code with
  | EmptyString => None
  | String a rest =>
      match rsplit_head rest with
      | Some head => Some (String a head)
      | None => if Ascii.eqb a "-" then Some EmptyString else None
      end
  end.

(** [hall_code.rsplit('-', 1)[0] if '-' in hall_code else hall_code] *)
Definition base_code (hall_code : string) : string :=
  default hall_code (rsplit_head hall_code).

(** [for c in col_range: seat_no_grid[r][c] = seat_number; seat_number += 1] *)
Definition number_row (r : nat) (col_range : list nat)
    (acc : SeatNumbers * Z) : SeatNumbers * Z :=
  foldl (λ '(grid, seat_number) c,
           (alter (λ line, <[c := Some seat_number]> line) r grid,
            seat_number + 1))
        acc col_range.

(** [(r % 2 == 0 and not continue_in_reverse)
     or (r % 2 == 1 and continue_in_reverse)] *)
Definition left_to_right (continue_in_reverse : bool) (r : nat) : bool :=
  (Nat.even r && negb continue_in_reverse) || (Nat.odd r && continue_in_reverse).

(** [range(cols)] or [range(cols - 1, -1, -1)] *)
Definition numbering_cols (hall : Hall) (continue_in_reverse : bool) (r : nat)
  : list nat :=
  if left_to_right continue_in_reverse r then seq 0 (cols hall)
  else reverse (seq 0 (cols hall)).

(** The grid of seat numbers of a hall and the seat number after its last
    seat. *)
Definition seat_no_grid (hall : Hall) (continue_in_reverse : bool)
    (seat_number : Z) : SeatNumbers * Z :=
  foldl (λ acc r, number_row r (numbering_cols hall continue_in_reverse r) acc)
        (replicate (rows hall) (replicate (cols hall) None), seat_number)
        (seq 0 (rows hall)).

(** What the loop fixes for a hall that gets a page. *)
Record Page := mkPage {
  page_hall : Hall;
  continue_in_reverse : bool;
  first_seat : Z;
  seat_numbers : SeatNumbers
}.

(** The loop over the halls, from the dict [last_seat_per_base]. *)
Fixpoint number_halls (seats : gmap string Grid) (halls : list Hall)
    (last_seat_per_base : gmap string Z) : outcome (list Page) :=
  match halls with
  | [] => Done []
  | hall :: halls' =>
      regs ← allocated_reg_nos seats (hall_code hall) (row_major_coords hall);
      if nonempty regs then
        let base := base_code (hall_code hall) in
        let seat_number := default 0 (last_seat_per_base !! base) + 1 in
        let reverse := bool_decide (is_Some (last_seat_per_base !! base)) in
        let '(grid, seat_number') := seat_no_grid hall reverse seat_number in
        pages ← number_halls seats halls'
                  (<[base := seat_number' - 1]> last_seat_per_base);
        Done ({| page_hall := hall; continue_in_reverse := reverse;
                 first_seat := seat_number; seat_numbers := grid |} :: pages)
      else number_halls seats halls' last_seat_per_base
  end.

(** [seat_no_grid[r][c]], [None] for a cell without a number. *)
Definition seat_no (grid : SeatNumbers) (r c : nat) : option Z :=
  line ← grid !! r; o ← line !! c; o.

End SeatingPlanPdf.

(** The seat number printed for the student placed in position [i] of a
    hall whose numbering starts at [first]: the numbering follows the
    placement, or runs against it within every row when the hall continues
    a base code. *)
Definition seat_number_of (hall : Hall) (reverse : bool) (first : Z) (i : nat) : Z :=
  if reverse
  then first + Z.of_nat ((i / cols hall) * cols hall
                         + (cols hall - 1 - i mod cols hall))
  else first + Z.of_nat i.

(** The pages of the halls whose base code is [base], and their grid
    seats. *)
Definition pages_of_base (base : string) (pages : list SeatingPlanPdf.Page)
  : list SeatingPlanPdf.Page :=
  filter (λ p, SeatingPlanPdf.base_code (hall_code (SeatingPlanPdf.page_hall p)) = base)
         pages.

Definition seats_before (base : string) (pages : list SeatingPlanPdf.Page) : Z :=
  total_seats (SeatingPlanPdf.page_hall <$> pages_of_base base pages).

(** One assignment [seat_no_grid[r][c] = seat_number; seat_number += 1]. *)
Definition write_number (acc : SeatingPlanPdf.SeatNumbers * Z) (rc : nat * nat)
  : SeatingPlanPdf.SeatNumbers * Z :=
  (alter (λ line, <[rc.2 := Some acc.2]> line) rc.1 acc.1, acc.2 + 1).

(** Every cell of [coords] is a cell of the grid of seat numbers. *)
Definition numbered_cells (grid : SeatingPlanPdf.SeatNumbers)
    (coords : list (nat * nat)) : Prop :=
  ∀ r c, (r, c) ∈ coords → ∃ line, grid !! r = Some line ∧ (c < length line)%nat.

(** The hall has a cell with a registration number that is not empty. *)
Definition has_student (seats : gmap string Grid) (hall : Hall) : Prop :=
  ∃ r c reg, (r < rows hall)%nat ∧ (c < cols hall)%nat ∧
    cell seats (hall_code hall) r c = Some reg ∧ reg ≠ EmptyString.

(** No ['-'] in the string. *)
Fixpoint no_dash (s : string) : bool :=
  match s with
  | EmptyString => true
  | String a rest => negb (Ascii.eqb a "-") && no_dash rest
  end.

(** Two halls of two seats whose codes share the base ["H"]. *)
Definition two_halls_one_base : list Hall :=
  [demo_hall "H-1" 1 2 2; demo_hall "H-2" 1 2 2].

(** ** Ranges of registration numbers

    The loop "create continuous ranges of register numbers" that
    [export_master_seating_plan] (all three files) and the hall summary of
    [export_pdf_seating_plan] (second and third file) run over the sorted
    registration numbers of a group. *)

Section RegisterRanges.

(** Python's [int] on a string: the number, or [None] for the [ValueError]
    of a string that is no number. *)
Variable int : string → option Z.

(** [int(r) == int(prev) + 1] inside [try]; a [ValueError] takes the same
    statements as the [else] branch. *)
Definition continuous (prev r : string) : bool :=
  match int r, int prev with
  | Some a, Some b => bool_decide (a = b + 1)
  | _, _ => false
  end.

(** [f"{start}-{prev}" if start != prev else f"{start}"] *)
Definition range_text (start prev : string) : string :=
  if decide (start ≠ prev) then start +:+ "-" +:+ prev else start.

(** One round of [for r in regnos_sorted[1:]], on [(ranges, start, prev)]. *)
Definition ranges_step (acc : list string * string * string) (r : string)
  : list string * string * string :=
  let '(ranges, start, prev) := acc in
  if continuous prev r then (ranges, start, r)
  else (ranges ++ [range_text start prev], r, r).

(** The whole loop with the [ranges.append] behind it;
    [regnos_sorted[0]] raises on an empty list. *)
Definition reg_ranges (regnos_sorted : list string) : outcome (list string) :=
  match regnos_sorted with
  | [] => Raise IndexError
  | first :: rest =>
      let '(ranges, start, prev) := foldl ranges_step ([], first, first) rest in
      Done (ranges ++ [range_text start prev])
  end.

End RegisterRanges.

(** Every element of the list stands in [R] to the next one. *)
Definition adjacent {A} (R : A → A → Prop) (l : list A) : Prop :=
  ∀ i x y, l !! i = Some x → l !! S i = Some y → R x y.

(** A run of registration numbers: each is the number after the one
    before. *)
Definition is_run (int : string → option Z) (run : list string) : Prop :=
  run ≠ [] ∧ adjacent (λ x y, continuous int x y = true) run.

(** The run [run2] does not continue the run [run1]. *)
Definition run_ends (int : string → option Z) (run1 run2 : list string) : Prop :=
  ∀ x y, last run1 = Some x → head run2 = Some y → continuous int x y = false.

(** The text of a run: its first and last number, or its only number. *)
Definition run_text (run : list string) : string :=
  match run with
  | [] => EmptyString
  | first :: _ => range_text first (List.last run first)
  end.

(** [int] on the strings of decimal digits. *)
Definition decimal (s : string) : option Z :=
  match list_ascii_of_string s with
  | [] => None
  | digits =>
      if forallb is_digit digits then Some (Z.of_N (int_of_digits digits))
      else None
  end.

(** ** The master seating plan of the first allocator:
       [export_master_seating_plan]

    The rows and totals the function hands to the tables: the rows of
    [master_data], [dept_data] and [hall_data] behind their header rows,
    and [grand_total].  The dict [self.allocations] is read through
    [items], its [items()] in the order of the dict. *)

Module MasterPlan.

(** A [dict] with string keys, in insertion order. *)
Fixpoint odict_get {V} (d : list (string * V)) (k : string) : option V :=
  match d with
  | [] => None
  | (k', v) :: d' => if decide (k = k') then Some v else odict_get d' k
  end.

Fixpoint odict_set {V} (d : list (string * V)) (k : string) (v : V)
  : list (string * V) :=
  match d with
  | [] => [(k, v)]
  | (k', v') :: d' =>
      if decide (k = k') then (k', v) :: d' else (k', v') :: odict_set d' k v
  end.

(** [defaultdict(lambda: defaultdict(lambda: defaultdict(list)))]:
    hall code, department, course code, registration numbers. *)
Abbreviation Courses := (list (string * list string)).
Abbreviation Departments := (list (string * Courses)).
Abbreviation Grouped := (list (string * Departments)).

(** [grouped[alloc['hall_code']][alloc['department']][alloc['course_code']]
      .append(reg_no)] *)
Definition group_item (grouped : Grouped) (item : string * Allocation) : Grouped :=
  let alloc := item.2 in
  let departments := default [] (odict_get grouped (a_hall_code alloc)) in
  let courses := default [] (odict_get departments (a_department alloc)) in
  let regnos := default [] (odict_get courses (a_course_code alloc)) in
  odict_set grouped (a_hall_code alloc)
    (odict_set departments (a_department alloc)
       (odict_set courses (a_course_code alloc) (regnos ++ [item.1]))).

Definition group_items (items : list (string * Allocation)) : Grouped :=
  foldl group_item [] items.

(** The variables the loop over the halls updates. *)
Record Master := mkMaster {
  master_data : list (list string);
  grand_total : Z;
  hall_summary : gmap string Z
}.

Definition newline : string := String (ascii_of_nat 10) EmptyString.

Section WithInt.
Variable int : string → option Z.

(** The body of [for course_code, regnos in courses.items()]. *)
Definition course_row (hall : Hall) (dept : string)
    (entry : string * list string) (m : Master) : outcome Master :=
  let '(course_code, regnos) := entry in
  let regnos_sorted := sorted String.leb regnos in
  ranges ← reg_ranges int regnos_sorted;
  let regno_range_str := String.concat ("," +:+ newline) ranges in
  let count := Z.of_nat (length regnos_sorted) in
  Done {| master_data :=
            master_data m ++ [[block hall; hall_name hall; dept; course_code;
                               regno_range_str; pretty count]];
          grand_total := grand_total m + count;
          hall_summary :=
            <[hall_code hall := default 0 (hall_summary m !! hall_code hall) + count]>
              (hall_summary m) |}.

Fixpoint course_rows (hall : Hall) (dept : string) (courses : Courses)
    (m : Master) : outcome Master :=
  match courses with
  | [] => Done m
  | entry :: courses' =>
      m' ← course_row hall dept entry m;
      course_rows hall dept courses' m'
  end.

(** [for dept, courses in grouped[hall_code].items()] *)
Fixpoint dept_rows (hall : Hall) (departments : Departments) (m : Master)
  : outcome Master :=
  match departments with
  | [] => Done m
  | (dept, courses) :: departments' =>
      m' ← course_rows hall dept courses m;
      dept_rows hall departments' m'
  end.

(** [for hall in self.halls], with its [continue] for a hall without
    allocations. *)
Fixpoint hall_rows (grouped : Grouped) (halls : list Hall) (m : Master)
  : outcome Master :=
  match halls with
  | [] => Done m
  | hall :: halls' =>
      match odict_get grouped (hall_code hall) with
      | None => hall_rows grouped halls' m
      | Some departments =>
          m' ← dept_rows hall departments m;
          hall_rows grouped halls' m'
      end
  end.

Definition master_rows (halls : list Hall) (items : list (string * Allocation))
  : outcome Master :=
  hall_rows (group_items items) halls
    {| master_data := []; grand_total := 0; hall_summary := ∅ |}.

End WithInt.

(** [dept_course_totals[dept][course_code] += 1] on nested
    [defaultdict(int)]s. *)
Definition count_item (totals : list (string * list (string * Z)))
    (item : string * Allocation) : list (string * list (string * Z)) :=
  let alloc := item.2 in
  let courses := default [] (odict_get totals (a_department alloc)) in
  let total := default 0 (odict_get courses (a_course_code alloc)) in
  odict_set totals (a_department alloc)
    (odict_set courses (a_course_code alloc) (total + 1)).

Definition dept_course_totals (items : list (string * Allocation))
  : list (string * list (string * Z)) :=
  foldl count_item [] items.

(** The rows of [dept_data]. *)
Definition dept_data (items : list (string * Allocation)) : list (list string) :=
  '(dept, courses) ← dept_course_totals items;
  '(course_code, total) ← courses;
  [[dept; course_code; pretty total]].

(** The rows of [hall_data]. *)
Definition hall_data (halls : list Hall) (hall_summary : gmap string Z)
  : list (list string) :=
  hall ← halls;
  match hall_summary !! hall_code hall with
  | Some total =>
      [[hall_name hall +:+ " (" +:+ hall_code hall +:+ ")"; pretty total]]
  | None => []
  end.

End MasterPlan.

(** The sum of [f] over the values of a dict. *)
Definition odict_sum {V} (f : V → Z) (d : list (string * V)) : Z :=
  foldr (λ kv acc, f kv.2 + acc) 0 d.

(** The registration numbers of a hall in [grouped], over its departments
    and courses. *)
Definition group_size (departments : MasterPlan.Departments) : Z :=
  odict_sum (odict_sum (λ regnos : list string, Z.of_nat (length regnos)))
    departments.

(** The entries of the ledger that name the hall [code]. *)
Definition ledger_count (code : string) (items : list (string * Allocation)) : Z :=
  Z.of_nat (length (filter (λ item, a_hall_code item.2 = code) items)).

(** No list of registration numbers in [grouped] is empty. *)
Definition well_grouped (grouped : MasterPlan.Grouped) : Prop :=
  ∀ code departments dept courses course regnos,
    MasterPlan.odict_get grouped code = Some departments →
    (dept, courses) ∈ departments → (course, regnos) ∈ courses → regnos ≠ [].

(** The totals of the master plan for a ledger: the grand total counts the
    entries, and the total of a hall the entries that name it. *)
Definition master_totals (halls : list Hall) (items : list (string * Allocation))
    (m : MasterPlan.Master) : Prop :=
  MasterPlan.grand_total m = Z.of_nat (length items) ∧
  ∀ hall, hall ∈ halls →
    default 0 (MasterPlan.hall_summary m !! hall_code hall)
    = ledger_count (hall_code hall) items.

(** The [items()] of [self.allocations], in some order. *)
Definition items_of (st : State) (items : list (string * Allocation)) : Prop :=
  items ≡ₚ map_to_list (allocations st).

(** A ledger of three students in two halls. *)
Definition demo_items : list (string * Allocation) :=
  [("R2", allocation_of (demo_hall "B" 2 2 4) 0 0 (demo_student "R2" "C1") true);
   ("R1", allocation_of (demo_hall "A" 1 3 3) 0 0 (demo_student "R1" "C1") true);
   ("R3", allocation_of (demo_hall "B" 2 2 4) 0 1 (demo_student "R3" "C2") true)].

(** ** The courses of the halls: [hall_courses]

    The allocator with its attribute [hall_courses] beside the ledger and
    the grids, and the statements of [allocate_seats] that write it, for
    the first and the second allocator. *)

Record Allocator := mkAllocator {
  state : State;
  hall_courses : gmap string (gset string)
}.

(** [{hall['hall_code']: set() for hall in self.halls}] *)
Definition init_hall_courses (halls : list Hall) : gmap string (gset string) :=
  foldl (λ m hall, <[hall_code hall := ∅]> m) ∅ halls.

(** [__init__] *)
Definition init_allocator (halls : list Hall) : Allocator :=
  {| state := init_state halls; hall_courses := init_hall_courses halls |}.

Module Exam1Courses.

(** One iteration of the first pass:
    [self.hall_courses[hall_code] = set(current_courses)] comes behind the
    loop that picks the courses and before the [continue], the packing and
    the placement. *)
Definition first_pass_hall (fuel : nat) (courses : list string) (hall : Hall)
    (a : Allocator) (remaining : Queues) : outcome (Allocator * Queues) :=
  let current_courses := pick_courses 4 remaining courses [] in
  let hall_courses' :=
    <[hall_code hall := list_to_set current_courses]> (hall_courses a) in
  '(st', remaining') ← Exam1.first_pass_hall fuel courses hall (state a) remaining;
  Done ({| state := st'; hall_courses := hall_courses' |}, remaining').

Fixpoint first_pass (fuel : nat) (courses : list string) (halls : list Hall)
    (a : Allocator) (remaining : Queues) : outcome (Allocator * Queues) :=
  match halls with
  | [] => Done (a, remaining)
  | hall :: halls' =>
      '(a', remaining') ← first_pass_hall fuel courses hall a remaining;
      first_pass fuel courses halls' a' remaining'
  end.

(** [allocate_seats] on a freshly built allocator; the second pass and the
    closing check do not touch [hall_courses]. *)
Definition allocate_seats (fuel : nat) (halls : list Hall)
    (students : list Student) : outcome Allocator :=
  _ ← validate_inputs halls students;
  let students_sorted := sorted course_reg_leb students in
  let students_by_course := group_by_course students_sorted in
  let courses := courses_by_size students_by_course in
  let remaining := queues_of students_by_course courses in
  '(a, remaining') ← first_pass fuel courses halls (init_allocator halls) remaining;
  st' ← Exam1.second_pass halls remaining' (state a);
  let unallocated := count_remaining remaining' in
  if decide (0 < unallocated)%nat
  then Raise (UnallocatedStudentsError unallocated)
  else Done {| state := st'; hall_courses := hall_courses a |}.

End Exam1Courses.

Module UniversityCourses.

(** One iteration of the loop over the selected halls, with
    [self.hall_courses[hall_code] = set(s['course_code'] for s in hall_students)]
    between the packing and the placement. *)
Definition allocate_hall (fuel : nat) (students_per_hall : gmap string Z)
    (hall : Hall) (a : Allocator) (first second : list Student)
  : outcome (Allocator * list Student * list Student) :=
  let target := target_of students_per_hall hall in
  if decide (target <= 0) then Done (a, first, second)
  else
    let usable :=
      Z.min (Z.min (grid_capacity hall) (total_capacity hall)) target in
    p ← while fuel (University.pack_cond usable) (University.pack_body usable)
          {| University.hall_students := []; University.first_half := first;
             University.second_half := second |};
    if nonempty (University.hall_students p) then
      let hall_courses' :=
        <[hall_code hall :=
            list_to_set (course_code <$> University.hall_students p)]>
          (hall_courses a) in
      st' ← place_serpentine true hall (University.hall_students p) (state a);
      Done ({| state := st'; hall_courses := hall_courses' |},
            University.first_half p, University.second_half p)
    else Done (a, University.first_half p, University.second_half p).

Fixpoint allocate_halls (fuel : nat) (students_per_hall : gmap string Z)
    (halls : list Hall) (a : Allocator) (first second : list Student)
  : outcome (Allocator * list Student * list Student) :=
  match halls with
  | [] => Done (a, first, second)
  | hall :: halls' =>
      '(a', first', second') ←
        allocate_hall fuel students_per_hall hall a first second;
      allocate_halls fuel students_per_hall halls' a' first' second'
  end.

Definition allocate_seats (fuel : nat) (halls : list Hall)
    (students : list Student) : outcome Allocator :=
  _ ← validate_inputs halls students;
  let total_students := Z.of_nat (length students) in
  selected ← University.select_halls halls total_students;
  let half := Z.to_nat ((total_students + 1) / 2) in
  let students_per_hall := distribute ∅ selected total_students in
  '(a, first, second) ←
    allocate_halls fuel students_per_hall selected (init_allocator halls)
      (take half students) (drop half students);
  let remaining := first ++ second in
  if nonempty remaining
  then Raise (UnallocatedStudentsError (length remaining))
  else Done a.

End UniversityCourses.

(** ** [print_seating_plan] (the same text in the three files)

    The lines the function prints when it returns, one string for every
    call of [print]. *)

Module SeatingPlanText.

(** [any(self.hall_seats[hall_code][r][c] for r in range(rows)
         for c in range(cols))]: the cells are read until one is true. *)
Fixpoint any_seat (seats : gmap string Grid) (code : string)
    (coords : list (nat * nat)) : outcome bool :=
  match coords with
  | [] => Done false
  | (r, c) :: coords' =>
      o ← read_cell seats code r c;
      if SeatingPlanPdf.truthy o then Done true else any_seat seats code coords'
  end.

(** [f"{reg_no} ({course})"] with [self.allocations[reg_no]['course_code']],
    or ["-"] for a cell that is not true. *)
Definition seat_display (allocations : gmap string Allocation)
    (o : option string) : outcome string :=
  match o with
  | Some reg_no =>
      if SeatingPlanPdf.truthy o then
        match allocations !! reg_no with
        | Some alloc => Done (reg_no +:+ " (" +:+ a_course_code alloc +:+ ")")
        | None => Raise KeyError
        end
      else Done "-"
  | None => Done "-"
  end.

(** [for reg_no in row: row_display.append(...)] *)
Fixpoint row_display (allocations : gmap string Allocation)
    (row : list (option string)) : outcome (list string) :=
  match row with
  | [] => Done []
  | o :: row' =>
      text ← seat_display allocations o;
      texts ← row_display allocations row';
      Done (text :: texts)
  end.

(** [for row_idx, row in enumerate(grid, row_idx)] *)
Fixpoint print_rows (allocations : gmap string Allocation) (row_idx : nat)
    (grid : Grid) : outcome (list string) :=
  match grid with
  | [] => Done []
  | row :: grid' =>
      texts ← row_display allocations row;
      lines ← print_rows allocations (S row_idx) grid';
      Done (("Row " +:+ pretty row_idx +:+ ": " +:+ String.concat " " texts) :: lines)
  end.

(** The body of [for hall in self.halls]. *)
Definition print_hall (a : Allocator) (hall : Hall) : outcome (list string) :=
  any ← any_seat (hall_seats (state a)) (hall_code hall) (row_major_coords hall);
  if any : bool then
    match hall_courses a !! hall_code hall with
    | None => Raise KeyError
    | Some courses =>
        let courses_list := sorted String.leb (elements courses) in
        match hall_seats (state a) !! hall_code hall with
        | None => Raise KeyError
        | Some grid =>
            lines ← print_rows (allocations (state a)) 1 grid;
            Done ((MasterPlan.newline +:+ "Hall: " +:+ hall_name hall +:+ " ("
                     +:+ hall_code hall +:+ ", Block: " +:+ block hall +:+ ")")
                  :: ("Courses: "
                      +:+ (if nonempty courses_list
                           then String.concat ", " courses_list else "-"))
                  :: lines)
        end
    end
  else Done [].

Fixpoint print_seating_plan (halls : list Hall) (a : Allocator)
  : outcome (list string) :=
  match halls with
  | [] => Done []
  | hall :: halls' =>
      lines ← print_hall a hall;
      rest ← print_seating_plan halls' a;
      Done (lines ++ rest)
  end.

End SeatingPlanText.

(** The course codes of the students a trace seats in the hall [code]. *)
Definition courses_of_trace (code : string) (trace : list Placement) : gset string :=
  list_to_set
    ((λ p : Placement, course_code p.2)
       <$> filter (λ p : Placement, hall_code p.1.1.1 = code) trace).

(** The course codes of the ledger entries that name the hall [code]. *)
Definition seated_course (st : State) (code course : string) : Prop :=
  ∃ reg alloc, allocations st !! reg = Some alloc ∧
    a_hall_code alloc = code ∧ a_course_code alloc = course.

(** [self.hall_courses[code]], the empty set for a missing key. *)
Definition courses_in (a : Allocator) (code : string) : gset string :=
  default ∅ (hall_courses a !! code).

(** Every student of a queue has the course code of the queue. *)
Definition queues_by_course (queues : Queues) : Prop :=
  ∀ c s, s ∈ dict_get queues c → course_code s = c.

(** What [print_seating_plan] needs of an allocator: every hall has its
    grid, of the dimensions of the hall, and its entry in [hall_courses],
    and every registration number of a grid is in the ledger. *)
Definition printable (halls : list Hall) (a : Allocator) : Prop :=
  shaped halls (state a) ∧ grid_in_ledger (state a) ∧
  ∀ hall, hall ∈ halls → is_Some (hall_courses a !! hall_code hall).

(** The plan is printed without an error: no line for a hall without a
    student, and the two header lines and a line for every row of the grid
    for a hall with one. *)
Definition plan_printed (halls : list Hall) (a : Allocator) : Prop :=
  (∃ lines, SeatingPlanText.print_seating_plan halls a = Done lines) ∧
  ∀ hall, hall ∈ halls →
    ∃ lines, SeatingPlanText.print_hall a hall = Done lines ∧
      (has_student (hall_seats (state a)) hall → length lines = (2 + rows hall)%nat) ∧
      (¬ has_student (hall_seats (state a)) hall → lines = []).

(** * Properties *)

(** ** The outcome monad *)

Lemma outcome_bind_done {A B} (m : outcome A) (k : A → outcome B) (b : B) :
  m ≫= k = Done b → ∃ a, m = Done a ∧ k a = Done b.
Proof. destruct m as [a| |]; simpl; [eauto | done | done]. Qed.

Lemma outcome_bind_assoc {A B C} (m : outcome A) (k : A → outcome B)
    (k' : B → outcome C) :
  (m ≫= k) ≫= k' = m ≫= (λ a, k a ≫= k').
Proof. by destruct m. Qed.

Ltac done_inv H :=
  let a := fresh "x" in
  let H1 := fresh H in
  apply outcome_bind_done in H as (a & H1 & H).

#[local] Arguments Nat.min : simpl never.
#[local] Arguments Nat.sub : simpl never.

(** ** The grid mappers write the first cells of their traversal *)

Lemma run_trace_app wd t1 t2 st :
  run_trace wd (t1 ++ t2) st = run_trace wd t1 st ≫= run_trace wd t2.
Proof.
  revert st. induction t1 as [|[[[h r] c] s] t1 IH]; intros st; simpl; [done|].
  rewrite outcome_bind_assoc. destruct (seat wd h r c s st); simpl; auto.
Qed.

Lemma trace_of_app hall cs1 cs2 hs :
  trace_of hall (cs1 ++ cs2) hs =
  trace_of hall cs1 hs ++ trace_of hall cs2 (drop (length cs1) hs).
Proof.
  unfold trace_of. revert hs.
  induction cs1 as [|rc cs1 IH]; intros [|s hs]; simpl; try done.
  - by destruct cs2.
  - by rewrite IH.
Qed.

Lemma trace_of_nil_r hall cs : trace_of hall cs [] = [].
Proof. by destruct cs. Qed.

Lemma place_cols_trace wd hall r cs hs idx st :
  place_cols wd hall r cs hs idx st =
  run_trace wd (trace_of hall (pair r <$> cs) (drop idx hs)) st
  ≫= λ st', Done ((idx + Nat.min (length cs) (length hs - idx))%nat, st').
Proof.
  revert idx st. induction cs as [|c cs IH]; intros idx st; simpl.
  - do 2 f_equal. lia.
  - destruct (hs !! idx) as [s|] eqn:Hs.
    + rewrite (drop_S _ _ _ Hs). simpl.
      apply lookup_lt_Some in Hs.
      destruct (seat wd hall r c s st) as [st'| |]; simpl; try done.
      rewrite IH. destruct (run_trace _ _ _); simpl; try done.
      do 2 f_equal. lia.
    + apply lookup_ge_None in Hs. rewrite drop_ge by lia. simpl.
      do 2 f_equal. lia.
Qed.

Lemma place_rows_trace wd rb hall col_range rs hs idx st :
  place_rows wd rb hall col_range rs hs idx st =
  run_trace wd (trace_of hall (coords_of col_range rs) (drop idx hs)) st
  ≫= λ st', Done ((idx + Nat.min (length (coords_of col_range rs))
                                 (length hs - idx))%nat, st').
Proof.
  revert idx st. induction rs as [|r rs IH]; intros idx st; simpl.
  - do 2 f_equal. lia.
  - destruct (rb && bool_decide (length hs ≤ idx)%nat) eqn:Hb.
    + apply andb_true_iff in Hb as [_ Hb]. apply bool_decide_eq_true in Hb.
      rewrite drop_ge by lia. rewrite trace_of_nil_r. simpl.
      do 2 f_equal. lia.
    + clear Hb. rewrite place_cols_trace.
      unfold coords_of at 1. simpl. fold (coords_of col_range rs).
      rewrite trace_of_app, run_trace_app, !outcome_bind_assoc.
      destruct (run_trace wd (trace_of hall (pair r <$> col_range r) _) st)
        as [st'| |]; simpl; try done.
      rewrite IH. rewrite drop_drop, length_fmap.
      destruct (le_lt_dec (length hs - idx) (length (col_range r))) as [Hle|Hlt].
      * rewrite Nat.min_r by lia.
        rewrite !drop_ge by lia. rewrite trace_of_nil_r. simpl.
        do 2 f_equal. rewrite length_app, length_fmap. lia.
      * rewrite (Nat.min_l (length (col_range r))) by lia.
        destruct (run_trace _ _ _); simpl; try done.
        do 2 f_equal. rewrite length_app, length_fmap. lia.
Qed.

(** ** Counting cells *)

Lemma occupied_count_cells g : occupied g = count_cells is_Some g.
Proof. reflexivity. Qed.

Section Counting.
Context (P : option string → Prop) `{!∀ o, Decision (P o)}.

Lemma filter_length_insert (line : list (option string)) c o o' :
  line !! c = Some o →
  (length (filter P (<[c:=o']> line)) + indicator (P o)
   = length (filter P line) + indicator (P o'))%nat.
Proof.
  revert c. induction line as [|x line IH]; intros [|c] Hc; simplify_eq/=.
  - rewrite !filter_cons. unfold indicator.
    repeat case_decide; simpl; lia.
  - rewrite !filter_cons. specialize (IH _ Hc).
    case_decide; simpl; [f_equal|]; exact IH.
Qed.

Lemma count_cells_insert (g : Grid) r line line' :
  g !! r = Some line →
  (count_cells P (<[r:=line']> g) + length (filter P line)
   = count_cells P g + length (filter P line'))%nat.
Proof.
  unfold count_cells.
  revert r. induction g as [|x g IH]; intros [|r] Hr; simplify_eq/=.
  - lia.
  - specialize (IH _ Hr). rewrite <- !Nat.add_assoc. f_equal. exact IH.
Qed.

Lemma count_cells_write (g : Grid) r c line o o' :
  g !! r = Some line → line !! c = Some o →
  (count_cells P (<[r := <[c:=o']> line]> g) + indicator (P o)
   = count_cells P g + indicator (P o'))%nat.
Proof.
  intros Hr Hc.
  pose proof (count_cells_insert g r line (<[c:=o']> line) Hr).
  pose proof (filter_length_insert line c o o' Hc). lia.
Qed.

Lemma count_cells_replicate n m :
  (∀ o, P o → o ≠ None) →
  count_cells P (replicate n (replicate m None)) = 0%nat.
Proof.
  intros HP. induction n as [|n IH]; simpl; [done|]. rewrite IH.
  assert (filter P (replicate m (None : option string)) = []) as ->; [|done].
  clear IH. induction m as [|m IHm]; simpl; [done|].
  rewrite filter_cons. case_decide; [|done]. by destruct (HP None).
Qed.
End Counting.

Lemma grid_sum_empty f : grid_sum f ∅ = 0%nat.
Proof. apply map_fold_empty. Qed.

Lemma grid_sum_delete f (seats : gmap string Grid) code g :
  seats !! code = Some g →
  grid_sum f seats = (f g + grid_sum f (delete code seats))%nat.
Proof.
  intros Hg. unfold grid_sum.
  apply (map_fold_delete_L (λ _ g acc, (f g + acc)%nat)); [|done].
  intros. lia.
Qed.

Lemma grid_sum_insert f (seats : gmap string Grid) code g g' :
  seats !! code = Some g →
  (grid_sum f (<[code:=g']> seats) + f g = grid_sum f seats + f g')%nat.
Proof.
  intros Hg.
  rewrite (grid_sum_delete f seats code g Hg).
  rewrite (grid_sum_delete f (<[code:=g']> seats) code g')
    by apply lookup_insert_eq.
  rewrite delete_insert_eq. lia.
Qed.

Lemma grid_sum_zero f (seats : gmap string Grid) :
  (∀ code g, seats !! code = Some g → f g = 0%nat) → grid_sum f seats = 0%nat.
Proof.
  unfold grid_sum.
  induction seats as [|code g seats Hnone Hfold IH] using map_first_key_ind.
  - intros _. apply map_fold_empty.
  - intros Hall. rewrite map_fold_insert_first_key by done.
    rewrite (Hall code g) by apply lookup_insert_eq.
    rewrite IH; [done|]. intros code' g' Hg'.
    apply (Hall code' g'). rewrite lookup_insert_ne; [done|].
    intros ->. congruence.
Qed.

(** ** Ledger and grids after a sequence of seats *)

Lemma cell_write (seats : gmap string Grid) code g r line c reg code' r' c' :
  seats !! code = Some g → g !! r = Some line → (c < length line)%nat →
  cell (<[code := <[r := <[c := Some reg]> line]> g]> seats) code' r' c' =
  if decide ((code', r', c') = (code, r, c)) then Some reg
  else cell seats code' r' c'.
Proof.
  intros Hg Hr Hc. unfold cell.
  pose proof (lookup_lt_Some _ _ _ Hr) as Hrlt.
  destruct (decide (code' = code)) as [->|Hcode].
  - rewrite lookup_insert_eq, Hg. simpl.
    destruct (decide (r' = r)) as [->|Hrow].
    + rewrite list_lookup_insert_eq by done. rewrite Hr. simpl.
      destruct (decide (c' = c)) as [->|Hcol].
      * rewrite list_lookup_insert_eq by done. simpl.
        by rewrite decide_True.
      * rewrite list_lookup_insert_ne by done.
        rewrite decide_False; [done|]. congruence.
    + rewrite list_lookup_insert_ne by done.
      rewrite decide_False; [done|]. congruence.
  - rewrite lookup_insert_ne by done.
    rewrite decide_False; [done|]. congruence.
Qed.

Lemma cell_lookup (seats : gmap string Grid) code g r line c o :
  seats !! code = Some g → g !! r = Some line → line !! c = Some o →
  cell seats code r c = o.
Proof. intros Hg Hr Hc. unfold cell. rewrite Hg. simpl. rewrite Hr. simpl. by rewrite Hc. Qed.

Lemma seat_shaped wd halls hall r c student st st' :
  seat wd hall r c student st = Done st' → shaped halls st → shaped halls st'.
Proof.
  unfold seat. intros Hseat Hsh hall' Hin.
  destruct (hall_seats st !! hall_code hall) as [g|] eqn:Hg; [|done].
  destruct (g !! r) as [line|] eqn:Hr; [|done].
  case_decide; [|done]. simplify_eq/=.
  destruct (Hsh hall' Hin) as (g' & Hg' & Hlen & Hlines).
  destruct (decide (hall_code hall' = hall_code hall)) as [Heq|Hne].
  - rewrite Heq in *. simplify_eq. rewrite lookup_insert_eq.
    eexists; split; [done|]. split; [by rewrite length_insert|].
    intros r' line' Hr'.
    destruct (decide (r' = r)) as [->|Hrow].
    + rewrite list_lookup_insert_eq in Hr' by (by eapply lookup_lt_Some).
      simplify_eq. rewrite length_insert. eauto.
    + rewrite list_lookup_insert_ne in Hr' by done. eauto.
  - rewrite lookup_insert_ne by done. exists g'. by split.
Qed.

Lemma elem_of_snoc {A} (l : list A) (x y : A) :
  y ∈ l ++ [x] ↔ y ∈ l ∨ y = x.
Proof. rewrite elem_of_app, list_elem_of_singleton. tauto. Qed.

Lemma elem_of_fmap_snoc {A B} (f : A → B) (l : list A) (x : A) (y : B) :
  y ∈ f <$> (l ++ [x]) ↔ y ∈ f <$> l ∨ y = f x.
Proof. rewrite fmap_app. apply elem_of_snoc. Qed.

Lemma indicator_True (P : Prop) `{!Decision P} : P → indicator P = 1%nat.
Proof. intros. unfold indicator. by rewrite decide_True. Qed.

Lemma indicator_False (P : Prop) `{!Decision P} : ¬ P → indicator P = 0%nat.
Proof. intros. unfold indicator. by rewrite decide_False. Qed.

(** One more seat, on a free cell of a hall and for a student not seated
    yet, keeps ledger and grids in step. *)
Lemma seat_traced wd halls done hall r c student st :
  traced done st → shaped halls st → hall ∈ halls →
  (r < rows hall)%nat → (c < cols hall)%nat →
  (hall_code hall, r, c) ∉ placed_cell <$> done →
  reg_no student ∉ placed_reg <$> done →
  ∃ st', seat wd hall r c student st = Done st' ∧
         traced (done ++ [(hall, r, c, student)]) st'.
Proof.
  intros Htr Hsh Hin Hr Hc Hcell Hreg.
  destruct (Hsh hall Hin) as (g & Hg & Hlen & Hlines).
  destruct (lookup_lt_is_Some_2 g r) as [line Hline]; [lia|].
  pose proof (Hlines r line Hline) as Hll.
  destruct (lookup_lt_is_Some_2 line c) as [o Ho]; [lia|].
  assert (o = None) as ->.
  { destruct o as [x|]; [|done]. destruct Hcell.
    apply (tr_cells _ _ Htr). erewrite cell_lookup by done. by eexists. }
  assert (cell (hall_seats st) (hall_code hall) r c = None) as Hfree
    by by erewrite cell_lookup.
  unfold seat. rewrite Hg, Hline. rewrite decide_True by lia.
  eexists; split; [done|].
  set (reg := reg_no student).
  set (a := allocation_of hall r c student wd).
  set (g' := <[r := <[c := Some reg]> line]> g).
  assert (∀ code' r' c',
    cell (<[hall_code hall := g']> (hall_seats st)) code' r' c' =
    if decide ((code', r', c') = (hall_code hall, r, c)) then Some reg
    else cell (hall_seats st) code' r' c') as Hcw.
  { intros. apply cell_write; [done..|lia]. }
  split; unfold ledger_in_grid, grid_in_ledger; simpl.
  - intros reg' a'. destruct (decide (reg' = reg)) as [->|Hne].
    + rewrite lookup_insert_eq. intros [= <-]. simpl.
      split; [lia|]. split; [lia|].
      rewrite Hcw. replace (r + 1 - 1)%nat with r by lia.
      replace (c + 1 - 1)%nat with c by lia. by rewrite decide_True.
    + rewrite lookup_insert_ne by done. intros Ha'.
      destruct (tr_ledger _ _ Htr _ _ Ha') as (? & ? & Hold).
      split; [done|]. split; [done|]. rewrite Hcw.
      case_decide as Heq; [|done]. simplify_eq. congruence.
  - intros code' r' c' reg'. rewrite Hcw. case_decide as Heq.
    + intros [= <-]. simplify_eq. exists a. by rewrite lookup_insert_eq.
    + intros Hold. destruct (tr_grid _ _ Htr _ _ _ _ Hold) as (a' & Ha' & ?).
      exists a'. split; [|done]. rewrite lookup_insert_ne; [done|].
      intros <-. apply Hreg. apply (tr_regs _ _ Htr). by eexists.
  - intros code' r' c'. rewrite Hcw, elem_of_fmap_snoc.
    case_decide as Heq; [by right|]. intros. left. by apply (tr_cells _ _ Htr).
  - intros reg'. rewrite elem_of_fmap_snoc, lookup_insert_is_Some.
    rewrite (tr_regs _ _ Htr). unfold placed_reg at 2. simpl. fold reg.
    destruct (decide (reg = reg')) as [<-|?]; [split; auto|].
    split; [intros [?|[_ ?]]|intros [?|?]]; auto; congruence.
  - rewrite length_app. simpl.
    pose proof (grid_sum_insert occupied (hall_seats st) (hall_code hall) g g' Hg) as Hs.
    pose proof (count_cells_write is_Some g r c line None (Some reg) Hline Ho) as Hw.
    rewrite (indicator_True (is_Some (Some reg))) in Hw by by eexists.
    rewrite (indicator_False (is_Some None)) in Hw by by intros [??].
    fold g' in Hw.
    change (count_cells is_Some g') with (occupied g') in Hw.
    change (count_cells is_Some g) with (occupied g) in Hw.
    pose proof (tr_occupied _ _ Htr) as Hocc. unfold occupied_cells in *.
    lia.
  - intros reg'.
    pose proof (grid_sum_insert (count_cells (λ o, o = Some reg'))
                  (hall_seats st) (hall_code hall) g g' Hg) as Hs.
    pose proof (count_cells_write (λ o, o = Some reg') g r c line None
                  (Some reg) Hline Ho) as Hw.
    rewrite (indicator_False (None = Some reg')) in Hw by done.
    fold g' in Hw.
    pose proof (tr_holding _ _ Htr reg') as Hold. unfold cells_holding in *.
    destruct (decide (reg' = reg)) as [->|Hne].
    + rewrite (indicator_True (Some reg = Some reg)) in Hw by done.
      rewrite indicator_False in Hold by done.
      rewrite indicator_True by (apply elem_of_fmap_snoc; by right).
      lia.
    + rewrite (indicator_False (Some reg = Some reg')) in Hw by congruence.
      assert (indicator (reg' ∈ placed_reg <$> done ++ [(hall, r, c, student)])
              = indicator (reg' ∈ placed_reg <$> done)) as ->.
      { destruct (decide (reg' ∈ placed_reg <$> done)) as [Hd|Hd].
        - rewrite !indicator_True; [done..|]. apply elem_of_fmap_snoc. by left.
        - rewrite !indicator_False; [done..|].
          rewrite elem_of_fmap_snoc. by intros [?|?]. }
      lia.
Qed.

Lemma run_trace_traced wd halls trace done st :
  traced done st → shaped halls st → Forall (in_hall halls) trace →
  NoDup (placed_cell <$> done ++ trace) →
  NoDup (placed_reg <$> done ++ trace) →
  ∃ st', run_trace wd trace st = Done st' ∧ traced (done ++ trace) st'
         ∧ shaped halls st'.
Proof.
  revert done st.
  induction trace as [|[[[hall r] c] student] trace IH];
    intros done st Htr Hsh Hin Hcells Hregs.
  - exists st. by rewrite app_nil_r.
  - apply Forall_cons in Hin as [(Hh & Hr & Hc) Hin]. simpl in Hh, Hr, Hc.
    pose proof Hcells as Hcells'. pose proof Hregs as Hregs'.
    rewrite fmap_app in Hcells'. rewrite fmap_app in Hregs'.
    apply NoDup_app in Hcells' as (_ & Hc1 & _).
    apply NoDup_app in Hregs' as (_ & Hr1 & _).
    destruct (seat_traced wd halls done hall r c student st) as (st1 & Hseat & Htr1);
      try done.
    { intros Hel. apply (Hc1 _ Hel). simpl. left. }
    { intros Hel. apply (Hr1 _ Hel). simpl. left. }
    simpl. rewrite Hseat. simpl.
    destruct (IH (done ++ [(hall, r, c, student)]) st1) as (st' & Hrun & Htr' & Hsh');
      try done.
    + by eapply seat_shaped.
    + by rewrite <- (assoc_L (++)).
    + by rewrite <- (assoc_L (++)).
    + exists st'. rewrite <- (assoc_L (++)) in Htr'. done.
Qed.

(** The state of a freshly built allocator *)

Lemma init_hall_seats_from (halls : list Hall) (m : gmap string Grid) code g :
  foldl (λ m hall, <[hall_code hall := empty_grid hall]> m) m halls !! code = Some g →
  m !! code = Some g ∨ ∃ hall, hall ∈ halls ∧ g = empty_grid hall.
Proof.
  revert m. induction halls as [|h halls IH]; intros m; simpl; [auto|].
  intros Hl. apply IH in Hl as [Hl|(hall & ? & ?)].
  - destruct (decide (hall_code h = code)) as [<-|Hne].
    + rewrite lookup_insert_eq in Hl. right. exists h. split; [left|congruence].
    + rewrite lookup_insert_ne in Hl by done. auto.
  - right. exists hall. split; [by right|done].
Qed.

Lemma init_hall_seats_keep (halls : list Hall) (m : gmap string Grid) code :
  code ∉ hall_code <$> halls →
  foldl (λ m hall, <[hall_code hall := empty_grid hall]> m) m halls !! code
  = m !! code.
Proof.
  revert m. induction halls as [|h halls IH]; intros m Hn; simpl; [done|].
  rewrite fmap_cons, not_elem_of_cons in Hn. destruct Hn as [? ?].
  rewrite IH by done. by rewrite lookup_insert_ne.
Qed.

Lemma init_hall_seats_lookup (halls : list Hall) hall :
  NoDup (hall_code <$> halls) → hall ∈ halls →
  init_hall_seats halls !! hall_code hall = Some (empty_grid hall).
Proof.
  unfold init_hall_seats. generalize (∅ : gmap string Grid).
  induction halls as [|h halls IH]; intros m Hnd Hin; [by apply elem_of_nil in Hin|].
  rewrite fmap_cons in Hnd. apply NoDup_cons in Hnd as [Hh Hnd]. simpl.
  apply elem_of_cons in Hin as [->|Hin].
  - rewrite init_hall_seats_keep by done. apply lookup_insert_eq.
  - by apply IH.
Qed.

Lemma empty_grid_cell hall r line c o :
  empty_grid hall !! r = Some line → line !! c = Some o → o = None.
Proof.
  unfold empty_grid. intros [-> _]%lookup_replicate [-> _]%lookup_replicate. done.
Qed.

Lemma init_cell halls code r c : cell (init_hall_seats halls) code r c = None.
Proof.
  unfold cell.
  destruct (init_hall_seats halls !! code) as [g|] eqn:Hg; [|done]. simpl.
  apply init_hall_seats_from in Hg as [Hg|(hall & _ & ->)]; [done|].
  destruct (empty_grid hall !! r) as [line|] eqn:Hr; [|done]. simpl.
  destruct (line !! c) as [o|] eqn:Hc; [|done]. simpl.
  by eapply empty_grid_cell.
Qed.

Lemma init_grid_sum halls P `{!∀ o, Decision (P o)} :
  (∀ o, P o → o ≠ None) → grid_sum (count_cells P) (init_hall_seats halls) = 0%nat.
Proof.
  intros HP. apply grid_sum_zero. intros code g Hg.
  apply init_hall_seats_from in Hg as [Hg|(hall & _ & ->)]; [done|].
  by apply count_cells_replicate.
Qed.

Lemma init_traced halls : traced [] (init_state halls).
Proof.
  split; unfold ledger_in_grid, grid_in_ledger; simpl.
  - intros reg a. by rewrite lookup_empty.
  - intros code r c reg. by rewrite init_cell.
  - intros code r c. rewrite init_cell. by intros [??].
  - intros reg. rewrite lookup_empty. split; [by intros [??]|].
    by intros ?%elem_of_nil.
  - apply (init_grid_sum halls is_Some). by intros ? [??] ->.
  - intros reg. rewrite indicator_False by apply not_elem_of_nil.
    apply (init_grid_sum halls (λ o, o = Some reg)). by intros ? ->.
Qed.

Lemma init_shaped halls :
  NoDup (hall_code <$> halls) → shaped halls (init_state halls).
Proof.
  intros Hnd hall Hin. exists (empty_grid hall).
  split; [by apply init_hall_seats_lookup|].
  unfold grid_shape, empty_grid. split; [by rewrite length_replicate|].
  intros r line [-> _]%lookup_replicate. by rewrite length_replicate.
Qed.

(** ** The cells a mapper visits *)

Section Coords.
Context (hall : Hall) (col_range : nat → list nat).
Hypothesis col_range_perm : ∀ r, col_range r ≡ₚ seq 0 (cols hall).

Lemma coords_of_elem rs r c :
  (r, c) ∈ coords_of col_range rs ↔ r ∈ rs ∧ (c < cols hall)%nat.
Proof.
  unfold coords_of. rewrite list_elem_of_bind. split.
  - intros (r' & Hin & Hr'). apply list_elem_of_fmap in Hin as (c' & [= -> ->] & Hc).
    split; [done|]. rewrite col_range_perm in Hc. apply elem_of_seq in Hc. lia.
  - intros [Hr Hc]. exists r. split; [|done].
    apply list_elem_of_fmap. exists c. split; [done|].
    rewrite col_range_perm. apply elem_of_seq. lia.
Qed.

Lemma coords_of_NoDup rs : NoDup rs → NoDup (coords_of col_range rs).
Proof.
  intros Hrs. unfold coords_of. apply NoDup_bind; [| |done].
  - intros r1 r2 [r c] _ _ H1 H2.
    apply list_elem_of_fmap in H1 as (? & [= -> _] & _).
    apply list_elem_of_fmap in H2 as (? & [= -> _] & _). done.
  - intros r _. apply NoDup_fmap_2; [intros ?? [=]; done|].
    rewrite col_range_perm. apply NoDup_seq.
Qed.

Lemma coords_of_length rs :
  length (coords_of col_range rs) = (length rs * cols hall)%nat.
Proof.
  unfold coords_of. induction rs as [|r rs IH]; [done|].
  change (length ((pair r <$> col_range r) ++ (rs ≫= λ r, pair r <$> col_range r))
          = (cols hall + length rs * cols hall)%nat).
  rewrite length_app, length_fmap, IH, col_range_perm, length_seq. done.
Qed.
End Coords.

Lemma row_major_cols_perm hall r : row_major_cols hall r ≡ₚ seq 0 (cols hall).
Proof. done. Qed.

Lemma serpentine_cols_perm hall r : serpentine_cols hall r ≡ₚ seq 0 (cols hall).
Proof.
  unfold serpentine_cols. destruct (Nat.even r); [done|]. apply reverse_Permutation.
Qed.

Lemma trace_of_cells hall coords hs x :
  x ∈ placed_cell <$> trace_of hall coords hs →
  ∃ rc, rc ∈ coords ∧ x = (hall_code hall, rc.1, rc.2).
Proof.
  intros (p & -> & Hp)%list_elem_of_fmap.
  apply elem_of_zip_with in Hp as (rc & s & -> & Hrc & _). by exists rc.
Qed.

Lemma trace_of_NoDup hall coords hs :
  NoDup coords → NoDup (placed_cell <$> trace_of hall coords hs).
Proof.
  unfold trace_of. revert hs.
  induction coords as [|rc coords IH]; intros [|s hs] Hnd; simpl;
    try apply NoDup_nil_2.
  apply NoDup_cons in Hnd as [Hrc Hnd]. apply NoDup_cons. split; [|by apply IH].
  intros (rc' & Hin & Heq)%trace_of_cells. unfold placed_cell in Heq.
  simpl in Heq. destruct rc, rc'. simplify_eq/=. done.
Qed.

Lemma trace_of_students hall coords (hs : list Student) :
  (length hs ≤ length coords)%nat → snd <$> trace_of hall coords hs = hs.
Proof. intros. by apply fmap_zip_with_r. Qed.

Lemma trace_of_in_hall hall coords hs :
  (∀ rc, rc ∈ coords → (rc.1 < rows hall)%nat ∧ (rc.2 < cols hall)%nat) →
  Forall (λ p : Placement, p.1.1.1 = hall ∧ (p.1.1.2 < rows hall)%nat
                           ∧ (p.1.2 < cols hall)%nat)
         (trace_of hall coords hs).
Proof.
  intros Hb. apply Forall_forall. intros p Hp.
  apply elem_of_zip_with in Hp as (rc & s & -> & Hrc & _). simpl.
  split; [done|]. by apply Hb.
Qed.

Lemma place_rows_hall_trace wd rb hall col_range hs st :
  place_rows wd rb hall col_range (seq 0 (rows hall)) hs 0 st ≫= (λ x, Done x.2)
  = run_trace wd (hall_trace hall col_range hs) st.
Proof.
  rewrite place_rows_trace, outcome_bind_assoc. unfold hall_trace.
  rewrite drop_0. by destruct (run_trace _ _ _).
Qed.

Lemma place_row_major_trace hall hs st :
  place_row_major hall hs st = run_trace true (hall_trace hall (row_major_cols hall) hs) st.
Proof.
  rewrite <- place_rows_hall_trace with (rb := false). unfold place_row_major.
  destruct (place_rows _ _ _ _ _ _ _ _) as [[??]| |]; done.
Qed.

Lemma place_serpentine_trace rb hall hs st :
  place_serpentine rb hall hs st
  = run_trace false (hall_trace hall (serpentine_cols hall) hs) st.
Proof.
  rewrite <- place_rows_hall_trace with (rb := rb). unfold place_serpentine.
  destruct (place_rows _ _ _ _ _ _ _ _) as [[??]| |]; done.
Qed.

Section HallTrace.
Context (hall : Hall) (col_range : nat → list nat) (hs : list Student).
Hypothesis col_range_perm : ∀ r, col_range r ≡ₚ seq 0 (cols hall).

Lemma hall_trace_students :
  (length hs ≤ rows hall * cols hall)%nat →
  snd <$> hall_trace hall col_range hs = hs.
Proof.
  intros fits. apply trace_of_students. rewrite (coords_of_length hall) by done.
  by rewrite length_seq.
Qed.

Lemma hall_trace_NoDup : NoDup (placed_cell <$> hall_trace hall col_range hs).
Proof.
  apply trace_of_NoDup, (coords_of_NoDup hall); [done|]. apply NoDup_seq.
Qed.

Lemma hall_trace_in_hall :
  Forall (λ p : Placement, p.1.1.1 = hall ∧ (p.1.1.2 < rows hall)%nat
                           ∧ (p.1.2 < cols hall)%nat)
         (hall_trace hall col_range hs).
Proof.
  apply trace_of_in_hall. intros [r c] Hrc.
  apply (coords_of_elem hall) in Hrc as [Hr Hc]; [|done].
  apply elem_of_seq in Hr. simpl. lia.
Qed.
End HallTrace.

Lemma good_trace_nil halls : good_trace halls [].
Proof. split; [done|]. apply NoDup_nil_2. Qed.

Lemma good_trace_skip hall halls trace :
  good_trace halls trace → good_trace (hall :: halls) trace.
Proof.
  intros [Hin Hnd]. split; [|done].
  eapply Forall_impl; [exact Hin|]. intros p (? & ? & ?). split; [by right|done].
Qed.

Lemma good_trace_cons hall halls col_range hs trace :
  (∀ r, col_range r ≡ₚ seq 0 (cols hall)) →
  hall_code hall ∉ hall_code <$> halls →
  good_trace halls trace →
  good_trace (hall :: halls) (hall_trace hall col_range hs ++ trace).
Proof.
  intros Hperm Hcode [Hin Hnd].
  pose proof (hall_trace_in_hall hall col_range hs Hperm) as Hh.
  split.
  - apply Forall_app. split.
    + eapply Forall_impl; [exact Hh|]. intros p (Hp & ? & ?).
      unfold in_hall. rewrite Hp. split; [left|done].
    + eapply Forall_impl; [exact Hin|]. intros p (? & ? & ?).
      split; [by right|done].
  - rewrite fmap_app. apply NoDup_app. split; [by apply hall_trace_NoDup|].
    split; [|done].
    intros x (p & -> & Hp)%list_elem_of_fmap (q & Hq & Hqin)%list_elem_of_fmap.
    rewrite Forall_forall in Hh, Hin.
    destruct (Hh p Hp) as (Hph & _). destruct (Hin q Hqin) as (Hqh & _).
    apply Hcode. apply list_elem_of_fmap. exists q.1.1.1. split; [|done].
    unfold placed_cell in Hq. rewrite Hph in Hq. congruence.
Qed.

(** ** Sorting keeps the elements *)

Lemma insert_sorted_Permutation {A} (leb : A → A → bool) x l :
  insert_sorted leb x l ≡ₚ x :: l.
Proof.
  induction l as [|y l IH]; simpl; [done|].
  destruct (leb x y); [done|]. rewrite IH. apply Permutation_swap.
Qed.

Lemma sorted_Permutation {A} (leb : A → A → bool) l : sorted leb l ≡ₚ l.
Proof.
  induction l as [|x l IH]; simpl; [done|].
  by rewrite insert_sorted_Permutation, IH.
Qed.

(** ** Loops *)

Lemma while_inv {S} (I : S → Prop) fuel cond body (s s' : S) :
  I s → (∀ s, I s → cond s = true → I (body s)) →
  while fuel cond body s = Done s' → I s' ∧ cond s' = false.
Proof.
  intros Hs Hstep. revert s Hs.
  induction fuel as [|fuel IH]; intros s Hs; simpl;
    destruct (cond s) eqn:Hc; try done.
  - intros [= <-]. done.
  - intros Hw. eapply IH; [|done]. by apply Hstep.
  - intros [= <-]. done.
Qed.

(** With as much fuel as a measure that every round decreases, a loop
    comes to its end. *)
Lemma while_terminates {S} (measure : S → nat) fuel cond body (s : S) :
  (∀ s, cond s = true → (measure (body s) < measure s)%nat) →
  (measure s ≤ fuel)%nat →
  ∃ s', while fuel cond body s = Done s'.
Proof.
  intros Hstep. revert s.
  induction fuel as [|fuel IH]; intros s Hm; simpl;
    destruct (cond s) eqn:Hc; eauto.
  - specialize (Hstep s Hc). lia.
  - apply IH. specialize (Hstep s Hc). lia.
Qed.

(** ** Course queues *)

Lemma dict_pop_Permutation (d : Queues) k s rest :
  dict_get d k = s :: rest →
  concat (d.*2) ≡ₚ s :: concat ((dict_set d k rest).*2).
Proof.
  induction d as [|[k' l] d IH]; simpl; [done|].
  case_decide; simpl.
  - by intros ->.
  - intros Hg. rewrite (IH Hg). by rewrite Permutation_middle.
Qed.

Lemma count_remaining_length (d : Queues) :
  count_remaining d = length (concat (d.*2)).
Proof.
  induction d as [|[k l] d IH]; simpl; [done|]. by rewrite length_app, IH.
Qed.

Lemma nonempty_false {A} (l : list A) : nonempty l = false ↔ l = [].
Proof. by destruct l. Qed.

Lemma len_lt_true {A} (l : list A) n : len_lt l n = true ↔ Z.of_nat (length l) < n.
Proof. unfold len_lt. apply bool_decide_eq_true. Qed.

(** ** Grouping the students by course *)

Lemma dict_set_keys_in (d : Queues) k l :
  k ∈ d.*1 → (dict_set d k l).*1 = d.*1.
Proof.
  induction d as [|[k' l'] d IH]; csimpl; [by intros ?%elem_of_nil|].
  case_decide; csimpl; [done|].
  intros [?|?]%elem_of_cons; [done|]. by rewrite IH.
Qed.

Lemma dict_set_keys_new (d : Queues) k l :
  k ∉ d.*1 → dict_set d k l = d ++ [(k, l)].
Proof.
  induction d as [|[k' l'] d IH]; csimpl; [done|].
  intros [? ?]%not_elem_of_cons. rewrite decide_False by done. by rewrite IH.
Qed.

Lemma dict_get_absent (d : Queues) k : k ∉ d.*1 → dict_get d k = [].
Proof.
  induction d as [|[k' l'] d IH]; csimpl; [done|].
  intros [? ?]%not_elem_of_cons. rewrite decide_False by done. auto.
Qed.

Lemma dict_set_values (d : Queues) k l :
  k ∈ d.*1 →
  concat ((dict_set d k l).*2) ++ dict_get d k ≡ₚ concat (d.*2) ++ l.
Proof.
  induction d as [|[k' l'] d IH]; csimpl; [by intros ?%elem_of_nil|].
  case_decide; csimpl.
  - intros _. rewrite <- !(assoc_L (++)). rewrite (comm (++) (concat _) l').
    rewrite (comm (++) (concat _) l). rewrite !(assoc_L (++)).
    by rewrite (comm (++) l l').
  - intros [?|Hin]%elem_of_cons; [done|].
    rewrite <- !(assoc_L (++)). by rewrite (IH Hin).
Qed.

Lemma dict_set_NoDup (d : Queues) k l : NoDup (d.*1) → NoDup ((dict_set d k l).*1).
Proof.
  intros Hnd. destruct (decide (k ∈ d.*1)).
  - by rewrite dict_set_keys_in.
  - rewrite dict_set_keys_new by done. rewrite fmap_app. csimpl.
    apply NoDup_app. split; [done|]. split; [|apply NoDup_singleton].
    intros x Hx ->%list_elem_of_singleton. done.
Qed.

Lemma dict_append_values (d : Queues) (s : Student) :
  concat ((dict_set d (course_code s) (dict_get d (course_code s) ++ [s])).*2)
  ≡ₚ concat (d.*2) ++ [s].
Proof.
  destruct (decide (course_code s ∈ d.*1)) as [Hin|Hout].
  - pose proof (dict_set_values d (course_code s)
                  (dict_get d (course_code s) ++ [s]) Hin) as Hp.
    rewrite (assoc_L (++)) in Hp.
    rewrite (comm (++) (concat (d.*2))) in Hp.
    rewrite <- (assoc_L (++)) in Hp.
    rewrite (comm (++) (concat _) (dict_get _ _)) in Hp.
    by apply (inj (app _)) in Hp.
  - rewrite dict_set_keys_new, dict_get_absent by done.
    rewrite fmap_app, concat_app. csimpl. done.
Qed.

Lemma group_by_course_facts (l : list Student) :
  concat ((group_by_course l).*2) ≡ₚ l ∧ NoDup ((group_by_course l).*1).
Proof.
  unfold group_by_course.
  assert (∀ d : Queues, NoDup (d.*1) →
    let d' := foldl (λ d s, dict_set d (course_code s)
                              (dict_get d (course_code s) ++ [s])) d l in
    concat (d'.*2) ≡ₚ concat (d.*2) ++ l ∧ NoDup (d'.*1)) as Hgen.
  { induction l as [|s l IH]; intros d Hnd; csimpl.
    - by rewrite app_nil_r.
    - destruct (IH (dict_set d (course_code s) (dict_get d (course_code s) ++ [s])))
        as [Hp Hnd']; [by apply dict_set_NoDup|].
      split; [|done]. simpl in Hp. rewrite Hp, dict_append_values.
      by rewrite <- (assoc_L (++)). }
  apply (Hgen []). apply NoDup_nil_2.
Qed.

Lemma dict_get_values (d : Queues) :
  NoDup (d.*1) → dict_get d <$> d.*1 = d.*2.
Proof.
  induction d as [|[k l] d IH]; csimpl; [done|].
  intros [Hk Hnd]%NoDup_cons. rewrite decide_True by done. f_equal.
  rewrite <- IH by done. apply list_fmap_ext. intros i k' Hk'.
  rewrite decide_False; [done|]. intros ->. apply Hk.
  by eapply list_elem_of_lookup_2.
Qed.

Lemma queues_of_facts (d : Queues) (courses : list string) :
  NoDup courses →
  queues_of d courses = (λ c, (c, dict_get d c)) <$> courses.
Proof.
  unfold queues_of. intros Hnd.
  assert (∀ q : Queues, (∀ c, c ∈ courses → c ∉ q.*1) →
    foldl (λ q c, dict_set q c (dict_get d c)) q courses
    = q ++ ((λ c, (c, dict_get d c)) <$> courses)) as Hgen.
  { induction Hnd as [|c courses Hc Hnd IH]; intros q Hq; csimpl.
    - by rewrite app_nil_r.
    - rewrite dict_set_keys_new by (apply Hq; left).
      rewrite IH; [by rewrite <- (assoc_L (++))|].
      intros c' Hc'. rewrite fmap_app. csimpl.
      rewrite elem_of_app, list_elem_of_singleton.
      intros [?| ->]; [|done]. by apply (Hq c'); [right|]. }
  apply (Hgen []). intros c _. apply not_elem_of_nil.
Qed.

(** The queues the first and third allocator start from hold every student
    once. *)
Lemma initial_queues_Permutation (students : list Student) :
  let students_by_course := group_by_course (sorted course_reg_leb students) in
  concat ((queues_of students_by_course (courses_by_size students_by_course)).*2)
  ≡ₚ students.
Proof.
  intros d.
  destruct (group_by_course_facts (sorted course_reg_leb students)) as [Hp Hnd].
  fold d in Hp, Hnd.
  assert (courses_by_size d ≡ₚ d.*1) as Hc by apply sorted_Permutation.
  rewrite queues_of_facts by (by rewrite Hc).
  rewrite <- list_fmap_compose.
  assert ((snd ∘ (λ c, (c, dict_get d c))) <$> courses_by_size d
          = dict_get d <$> courses_by_size d) as -> by done.
  rewrite Hc, dict_get_values by done.
  by rewrite Hp, sorted_Permutation.
Qed.

(** ** First allocator: the seats of the first pass *)

Lemma exam1_take_inv queued usable course p :
  exam1_pack_inv queued usable p →
  len_lt (Exam1.hall_students p) usable = true →
  exam1_pack_inv queued usable (Exam1.take course p).
Proof.
  intros [Hp Hl] Hlt%len_lt_true. unfold Exam1.take.
  destruct (dict_get (Exam1.remaining_courses p) course) as [|s rest] eqn:Hg;
    [done|].
  split; simpl.
  - rewrite <- Hp, (dict_pop_Permutation _ _ _ _ Hg).
    rewrite <- (assoc_L (++)). done.
  - rewrite length_app. simpl. lia.
Qed.

Lemma exam1_ratio_body_inv queued usable current p :
  exam1_pack_inv queued usable p →
  Exam1.pack_cond usable current p = true →
  exam1_pack_inv queued usable (Exam1.ratio_body current p).
Proof.
  intros Hinv [Hlt _]%andb_true_iff. unfold Exam1.ratio_body.
  destruct (current !! _) as [course|].
  - by apply (exam1_take_inv _ _ course) in Hinv.
  - done.
Qed.

Lemma exam1_round_robin_body_inv queued usable current p :
  exam1_pack_inv queued usable p →
  exam1_pack_inv queued usable (Exam1.round_robin_body usable current p).
Proof.
  unfold Exam1.round_robin_body. revert p.
  induction current as [|course current IH]; intros p Hinv; simpl; [done|].
  apply IH.
  destruct (nonempty _ && len_lt _ _) eqn:Hc; [|done].
  apply andb_true_iff in Hc as [_ Hlt]. by apply exam1_take_inv.
Qed.

Lemma exam1_pack_hall_inv fuel courses hall remaining p :
  Exam1.pack_hall fuel courses hall remaining = Done (Some p) →
  exam1_pack_inv (concat (remaining.*2))
    (Z.min (total_capacity hall) (grid_capacity hall)) p.
Proof.
  unfold Exam1.pack_hall.
  destruct (nonempty (pick_courses 4 remaining courses [])); [|done].
  intros Hrun. done_inv Hrun. simplify_eq.
  set (usable := Z.min _ _) in *.
  assert (exam1_pack_inv (concat (remaining.*2)) usable
            {| Exam1.hall_students := []; Exam1.remaining_courses := remaining;
               Exam1.idx := 0 |}) as H0.
  { split; simpl; [done|lia]. }
  case_decide.
  - eapply (while_inv (exam1_pack_inv _ usable)) in Hrun0 as [? _]; [done|done|].
    intros. by apply exam1_ratio_body_inv.
  - eapply (while_inv (exam1_pack_inv _ usable)) in Hrun0 as [? _]; [done|done|].
    intros. by apply exam1_round_robin_body_inv.
Qed.

Lemma exam1_first_pass_hall_trace fuel courses hall st remaining st' remaining' :
  Exam1.first_pass_hall fuel courses hall st remaining = Done (st', remaining') →
  ∃ hs, run_trace true (hall_trace hall (row_major_cols hall) hs) st = Done st'
        ∧ hs ++ concat (remaining'.*2) ≡ₚ concat (remaining.*2)
        ∧ (length hs ≤ rows hall * cols hall)%nat.
Proof.
  unfold Exam1.first_pass_hall. intros Hrun. done_inv Hrun.
  destruct x as [p|].
  - done_inv Hrun. simplify_eq.
    apply exam1_pack_hall_inv in Hrun0 as [Hp Hl].
    exists (sorted reg_leb (Exam1.hall_students p)).
    rewrite <- place_row_major_trace. split; [done|].
    split; [by rewrite sorted_Permutation|].
    rewrite sorted_Permutation. unfold grid_capacity in Hl. lia.
  - simplify_eq. exists []. unfold hall_trace. rewrite trace_of_nil_r.
    split; [done|]. split; [done|]. simpl. lia.
Qed.

Lemma exam1_first_pass_trace fuel courses halls st remaining st' remaining' :
  NoDup (hall_code <$> halls) →
  Exam1.first_pass fuel courses halls st remaining = Done (st', remaining') →
  ∃ trace, run_trace true trace st = Done st' ∧ good_trace halls trace
           ∧ (snd <$> trace) ++ concat (remaining'.*2) ≡ₚ concat (remaining.*2).
Proof.
  revert st remaining.
  induction halls as [|hall halls IH]; intros st remaining Hnd Hrun; simpl in Hrun.
  - simplify_eq. exists []. split; [done|]. split; [apply good_trace_nil|done].
  - rewrite fmap_cons in Hnd. apply NoDup_cons in Hnd as [Hcode Hnd].
    done_inv Hrun. destruct x as [st1 remaining1].
    apply exam1_first_pass_hall_trace in Hrun0 as (hs & Hrun1 & Hp1 & Hfit).
    apply IH in Hrun as (trace & Hrun2 & Hgood & Hp2); [|done].
    exists (hall_trace hall (row_major_cols hall) hs ++ trace).
    split; [by rewrite run_trace_app, Hrun1|].
    split; [apply good_trace_cons; [apply row_major_cols_perm|done..]|].
    rewrite fmap_app, hall_trace_students;
      [|apply row_major_cols_perm|done].
    by rewrite <- (assoc_L (++)), Hp2.
Qed.

(** ** Second allocator: the seats of the loop over the selected halls *)

Lemma university_take_first_inv queued usable p :
  university_pack_inv queued usable p →
  university_pack_inv queued usable (University.take_first usable p).
Proof.
  unfold University.take_first.
  destruct (University.first_half p) as [|s rest] eqn:Hf; [done|].
  destruct (len_lt _ _) eqn:Hlt; [|done].
  intros [Hp Hl]. rewrite Hf in Hp.
  apply len_lt_true in Hlt. split; simpl.
  - rewrite <- Hp. rewrite <- (assoc_L (++)). done.
  - rewrite length_app. simpl. lia.
Qed.

Lemma university_take_second_inv queued usable p :
  university_pack_inv queued usable p →
  university_pack_inv queued usable (University.take_second usable p).
Proof.
  unfold University.take_second.
  destruct (University.second_half p) as [|s rest] eqn:Hf; [done|].
  destruct (len_lt _ _) eqn:Hlt; [|done].
  intros [Hp Hl]. rewrite Hf in Hp.
  apply len_lt_true in Hlt. split; simpl.
  - rewrite <- Hp. rewrite <- (assoc_L (++)).
    apply Permutation_app_head. simpl.
    by rewrite Permutation_middle.
  - rewrite length_app. simpl. lia.
Qed.

Lemma university_allocate_hall_trace fuel targets hall st first second
    st' first' second' :
  University.allocate_hall fuel targets hall st first second
    = Done (st', first', second') →
  ∃ hs, run_trace false (hall_trace hall (serpentine_cols hall) hs) st = Done st'
        ∧ hs ++ first' ++ second' ≡ₚ first ++ second
        ∧ (length hs ≤ rows hall * cols hall)%nat.
Proof.
  unfold University.allocate_hall. intros Hrun.
  assert (∃ hs, hs = @nil Student ∧
            run_trace false (hall_trace hall (serpentine_cols hall) hs) st = Done st)
    as (nohs & -> & Hnone).
  { eexists; split; [done|]. unfold hall_trace. by rewrite trace_of_nil_r. }
  case_decide.
  - simplify_eq. exists []. split; [done|]. split; [done|]. simpl. lia.
  - done_inv Hrun. rename x into p.
    set (usable := Z.min _ _) in *.
    eapply (while_inv (university_pack_inv (first ++ second) usable))
      in Hrun0 as [[Hp Hl] _].
    + destruct (University.hall_students p) as [|s hs] eqn:Hhs.
      * simpl in Hrun. simplify_eq. exists []. split; [done|].
        split; [done|]. simpl. lia.
      * simpl in Hrun. done_inv Hrun. simplify_eq.
        exists (s :: hs). rewrite <- place_serpentine_trace with (rb := true).
        split; [done|]. split; [done|].
        unfold usable, grid_capacity in Hl. lia.
    + split; simpl; [done|lia].
    + intros p' Hinv _. unfold University.pack_body.
      by apply university_take_second_inv, university_take_first_inv.
Qed.

Lemma university_allocate_halls_trace fuel targets halls st first second
    st' first' second' :
  NoDup (hall_code <$> halls) →
  University.allocate_halls fuel targets halls st first second
    = Done (st', first', second') →
  ∃ trace, run_trace false trace st = Done st' ∧ good_trace halls trace
           ∧ (snd <$> trace) ++ first' ++ second' ≡ₚ first ++ second.
Proof.
  revert st first second.
  induction halls as [|hall halls IH]; intros st first second Hnd Hrun;
    simpl in Hrun.
  - simplify_eq. exists []. split; [done|]. split; [apply good_trace_nil|done].
  - rewrite fmap_cons in Hnd. apply NoDup_cons in Hnd as [Hcode Hnd].
    done_inv Hrun. destruct x as [[st1 first1] second1].
    apply university_allocate_hall_trace in Hrun0 as (hs & Hrun1 & Hp1 & Hfit).
    apply IH in Hrun as (trace & Hrun2 & Hgood & Hp2); [|done].
    exists (hall_trace hall (serpentine_cols hall) hs ++ trace).
    split; [by rewrite run_trace_app, Hrun1|].
    split; [apply good_trace_cons; [apply serpentine_cols_perm|done..]|].
    rewrite fmap_app, hall_trace_students;
      [|apply serpentine_cols_perm|done].
    by rewrite <- (assoc_L (++)), Hp2.
Qed.

(** ** Every successful run seats each student once *)

Lemma placed_reg_students (trace : list Placement) :
  placed_reg <$> trace = reg_no <$> (snd <$> trace).
Proof. by rewrite <- list_fmap_compose. Qed.

Lemma run_trace_seated wd halls trace students st :
  NoDup (hall_code <$> halls) → NoDup (reg_no <$> students) →
  run_trace wd trace (init_state halls) = Done st →
  Forall (in_hall halls) trace → NoDup (placed_cell <$> trace) →
  snd <$> trace ≡ₚ students →
  seated students st.
Proof.
  intros Hcodes Hregs Hrun Hin Hcells Hp.
  destruct (run_trace_traced wd halls trace [] (init_state halls))
    as (st' & Hrun' & Htr & _); try done.
  - apply init_traced.
  - by apply init_shaped.
  - simpl. by rewrite placed_reg_students, Hp.
  - rewrite Hrun in Hrun'. simplify_eq. by exists trace.
Qed.

Lemma exam1_success_seated fuel halls students st :
  NoDup (hall_code <$> halls) → NoDup (reg_no <$> students) →
  Exam1.allocate_seats fuel halls students = Done st →
  seated students st.
Proof.
  intros Hcodes Hregs Hrun. unfold Exam1.allocate_seats in Hrun.
  apply outcome_bind_done in Hrun as ([st1 remaining] & Hpasses & Hrun).
  case_decide as Hleft; [done|]. simplify_eq.
  unfold Exam1.placement_passes in Hpasses.
  apply outcome_bind_done in Hpasses as (_ & _ & Hpasses).
  apply outcome_bind_done in Hpasses as ([st0 remaining0] & Hfirst & Hpasses).
  apply outcome_bind_done in Hpasses as (st2 & Hsecond & Hpasses).
  simplify_eq.
  assert (concat (remaining.*2) = []) as Hnil.
  { apply length_zero_iff_nil. rewrite <- count_remaining_length. lia. }
  unfold Exam1.second_pass in Hsecond. rewrite Hnil in Hsecond.
  simpl in Hsecond. simplify_eq.
  apply exam1_first_pass_trace in Hfirst as (trace & Hrun & [Hin Hcells] & Hp);
    [|done].
  rewrite Hnil, app_nil_r, initial_queues_Permutation in Hp.
  by eapply run_trace_seated.
Qed.

Lemma university_success_seated fuel halls students st :
  NoDup (hall_code <$> halls) → NoDup (reg_no <$> students) →
  University.allocate_seats fuel halls students = Done st →
  seated students st.
Proof.
  intros Hcodes Hregs Hrun. unfold University.allocate_seats in Hrun.
  apply outcome_bind_done in Hrun as ([[st1 first] second] & Hpasses & Hrun).
  destruct (first ++ second) as [|] eqn:Hrem; [|done]. simpl in Hrun.
  simplify_eq. unfold University.placement_passes in Hpasses.
  apply outcome_bind_done in Hpasses as (_ & _ & Hpasses).
  apply outcome_bind_done in Hpasses as (selected & Hsel & Hpasses).
  unfold University.select_halls in Hsel. case_decide; [done|]. simplify_eq.
  set (selected := University.halls_to_use _ _) in *.
  assert (selected `sublist_of` halls) as Hsub by apply sublist_filter.
  apply university_allocate_halls_trace in Hpasses
    as (trace & Hrun & [Hin Hcells] & Hp).
  - rewrite Hrem, app_nil_r, take_drop in Hp.
    eapply run_trace_seated; try done.
    eapply Forall_impl; [exact Hin|]. intros p (Hp1 & ? & ?).
    split; [|done]. by eapply elem_of_sublist.
  - eapply sublist_NoDup; [exact Hcodes|]. by apply fmap_sublist.
Qed.

Lemma seated_all_seated_once students st :
  seated students st → all_seated_once students st.
Proof.
  intros (trace & Htr & Hp). split.
  - rewrite (tr_occupied _ _ Htr). rewrite <- Hp. by rewrite length_fmap.
  - intros s Hs.
    assert (reg_no s ∈ placed_reg <$> trace) as Hreg.
    { rewrite placed_reg_students, Hp. by apply list_elem_of_fmap_2. }
    split.
    + rewrite (tr_holding _ _ Htr). by apply indicator_True.
    + apply (tr_regs _ _ Htr) in Hreg as [a Ha].
      destruct (tr_ledger _ _ Htr _ _ Ha) as (Hr & Hc & Hcell).
      exists (a_hall_code a), (a_row a - 1)%nat, (a_col a - 1)%nat.
      split; [done|]. intros code' r' c' Hcell'.
      destruct (tr_grid _ _ Htr _ _ _ _ Hcell') as (a' & Ha' & <- & Hr' & Hc').
      simplify_eq. f_equal; [f_equal|]; lia.
Qed.

(** C1. On every input with distinct registration numbers (and the hall
    codes distinct, as the data model has them) on which [allocate_seats]
    returns, in the first and in the second allocator: the grids hold as
    many students as there are, and every student is in exactly one cell. *)
Theorem allocate_seats_seats_each_student_once fuel halls students :
  NoDup (hall_code <$> halls) →
  NoDup (reg_no <$> students) →
  (∀ st, Exam1.allocate_seats fuel halls students = Done st →
         all_seated_once students st) ∧
  (∀ st, University.allocate_seats fuel halls students = Done st →
         all_seated_once students st).
Proof.
  intros Hcodes Hregs. split; intros st Hrun; apply seated_all_seated_once.
  - by eapply exam1_success_seated.
  - by eapply university_success_seated.
Qed.

Lemma allocate_seats_seats_each_student_once_witness :
  all_seated_once demo_students
    (state_of (Exam1.allocate_seats 8 demo_halls demo_students) demo_halls) ∧
  all_seated_once demo_students
    (state_of (University.allocate_seats 8 demo_halls demo_students) demo_halls).
Proof.
  pose proof (allocate_seats_seats_each_student_once 8 demo_halls demo_students)
    as Hthm.
  destruct Hthm as [H1 H2].
  - apply (bool_decide_unpack _). vm_compute. exact I.
  - apply (bool_decide_unpack _). vm_compute. exact I.
  - split.
    + apply H1. vm_compute. reflexivity.
    + apply H2. vm_compute. reflexivity.
Defined.

(** C10. On every input with distinct registration numbers (and distinct
    hall codes) on which [allocate_seats] returns, in the first and in the
    second allocator: the entry of a student in [allocations] gives the
    1-based row and column of the cell that holds the student, and every
    occupied cell has such an entry. *)
Theorem allocate_seats_ledger_matches_grid fuel halls students :
  NoDup (hall_code <$> halls) →
  NoDup (reg_no <$> students) →
  (∀ st, Exam1.allocate_seats fuel halls students = Done st →
         ledger_in_grid st ∧ grid_in_ledger st) ∧
  (∀ st, University.allocate_seats fuel halls students = Done st →
         ledger_in_grid st ∧ grid_in_ledger st).
Proof.
  intros Hcodes Hregs. split; intros st Hrun.
  - destruct (exam1_success_seated fuel halls students st) as (t & Htr & _);
      try done. split; [apply (tr_ledger _ _ Htr)|apply (tr_grid _ _ Htr)].
  - destruct (university_success_seated fuel halls students st) as (t & Htr & _);
      try done. split; [apply (tr_ledger _ _ Htr)|apply (tr_grid _ _ Htr)].
Qed.

Lemma allocate_seats_ledger_matches_grid_witness :
  (let st := state_of (Exam1.allocate_seats 8 demo_halls demo_students) demo_halls in
   ledger_in_grid st ∧ grid_in_ledger st) ∧
  (let st := state_of (University.allocate_seats 8 demo_halls demo_students) demo_halls in
   ledger_in_grid st ∧ grid_in_ledger st).
Proof.
  pose proof (allocate_seats_ledger_matches_grid 8 demo_halls demo_students)
    as Hthm.
  destruct Hthm as [H1 H2].
  - apply (bool_decide_unpack _). vm_compute. exact I.
  - apply (bool_decide_unpack _). vm_compute. exact I.
  - split.
    + apply H1. vm_compute. reflexivity.
    + apply H2. vm_compute. reflexivity.
Defined.

(** ** The serpentine mapper on a 3 x 4 hall *)

Lemma run_trace_write_all wd hall coords hs st g g' :
  hall_seats st !! hall_code hall = Some g →
  write_all g (trace_of hall coords hs) = Some g' →
  ∃ st', run_trace wd (trace_of hall coords hs) st = Done st'
         ∧ hall_seats st' !! hall_code hall = Some g'.
Proof.
  unfold trace_of. revert hs st g.
  induction coords as [|[r c] coords IH]; intros [|s hs] st g Hg Hw;
    simpl in *; simplify_eq; eauto.
  destruct (g !! r) as [line|] eqn:Hr; [|done]. simpl in Hw.
  case_decide; [|done].
  unfold seat. rewrite Hg, Hr. rewrite decide_True by done. simpl.
  eapply IH; [|done]. simpl. apply lookup_insert_eq.
Qed.

(** C7. In a hall of 3 rows and 4 columns, the serpentine mapper of the
    second ([row_break = true]) and third ([row_break = false]) allocator
    puts twelve students s0..s11 as row 0 = s0 s1 s2 s3, row 1 = s7 s6 s5 s4,
    row 2 = s8 s9 s10 s11. *)
Theorem serpentine_three_by_four row_break code name blk capacity
    (s0 s1 s2 s3 s4 s5 s6 s7 s8 s9 s10 s11 : Student) :
  let hall := {| hall_code := code; hall_name := name; block := blk;
                 rows := 3; cols := 4; total_capacity := capacity |} in
  ∃ st,
    place_serpentine row_break hall
      [s0; s1; s2; s3; s4; s5; s6; s7; s8; s9; s10; s11] (init_state [hall])
    = Done st ∧
    hall_seats st !! code = Some
      [ [Some (reg_no s0); Some (reg_no s1); Some (reg_no s2); Some (reg_no s3)];
        [Some (reg_no s7); Some (reg_no s6); Some (reg_no s5); Some (reg_no s4)];
        [Some (reg_no s8); Some (reg_no s9); Some (reg_no s10); Some (reg_no s11)] ].
Proof.
  intros hall. rewrite place_serpentine_trace. unfold hall_trace.
  apply (run_trace_write_all false hall _ _ _ (empty_grid hall)).
  - apply lookup_insert_eq.
  - reflexivity.
Qed.

(** ** The input validator *)

Lemma check_halls_spec halls :
  (over_declared halls ∧ check_halls halls = Raise CapacityError)
  ∨ (¬ over_declared halls ∧ check_halls halls = Done ()).
Proof.
  unfold over_declared. induction halls as [|hall halls IH]; simpl.
  - right. split; [by intros ?%Exists_nil|done].
  - case_decide.
    + left. split; [by apply Exists_cons_hd|done].
    + destruct IH as [[? ->]|[Hn ->]].
      * left. split; [by apply Exists_cons_tl|done].
      * right. split; [|done]. intros [?|?]%Exists_cons; done.
Qed.

(** C3, as stated, fails: the usable seats (1) are fewer than the students
    (2), and the validator does not raise. *)
Lemma validate_inputs_counts_grid_seats :
  spec_capacity_condition narrow_hall two_students ∧
  validate_inputs narrow_hall two_students = Done ().
Proof. split; [right; vm_compute; reflexivity|reflexivity]. Qed.

(** C3, amended.  The validator raises [CapacityError] exactly when some
    hall declares more seats than its grid has or the students outnumber
    the grid seats of all halls, whatever the halls declare; otherwise it
    returns.  When it raises, each allocator raises the same error as its
    first step, before any seat is written. *)
Theorem validate_inputs_raises_iff halls students :
  (validate_inputs halls students = Raise CapacityError ↔
     over_declared halls ∨ total_seats halls < Z.of_nat (length students)) ∧
  (validate_inputs halls students ≠ Raise CapacityError →
     validate_inputs halls students = Done ()) ∧
  (validate_inputs halls students = Raise CapacityError →
     ∀ fuel,
       Exam1.placement_passes fuel halls students = Raise CapacityError ∧
       Exam1.allocate_seats fuel halls students = Raise CapacityError ∧
       University.placement_passes fuel halls students = Raise CapacityError ∧
       University.allocate_seats fuel halls students = Raise CapacityError ∧
       UniversityCopy.allocate_seats fuel halls students = Raise CapacityError).
Proof.
  split; [|split].
  - unfold validate_inputs.
    destruct (check_halls_spec halls) as [[Ho ->]|[Hn ->]]; simpl.
    + split; auto.
    + case_decide; split; try done; auto.
      * intros _. right. lia.
      * intros [?|?]; [done|lia].
  - unfold validate_inputs.
    destruct (check_halls_spec halls) as [[Ho ->]|[Hn ->]]; simpl; [done|].
    by case_decide.
  - intros Hraise fuel.
    unfold Exam1.allocate_seats, Exam1.placement_passes,
      University.allocate_seats, University.placement_passes,
      UniversityCopy.allocate_seats.
    rewrite Hraise. done.
Qed.

Lemma validate_inputs_raises_iff_witness :
  Exam1.allocate_seats 0 [demo_hall "A" 1 1 1] two_students = Raise CapacityError ∧
  University.allocate_seats 0 [demo_hall "A" 1 1 1] two_students
    = Raise CapacityError.
Proof.
  pose proof (validate_inputs_raises_iff [demo_hall "A" 1 1 1] two_students)
    as (_ & _ & Hraise).
  destruct (Hraise eq_refl 0%nat) as (_ & H1 & _ & H2 & _).
  split; [exact H1|exact H2].
Defined.

(** ** The hall selector of the second allocator *)

Lemma grid_capacity_nonneg hall : 0 ≤ grid_capacity hall.
Proof. unfold grid_capacity. lia. Qed.

Lemma total_seats_nonneg halls : 0 ≤ total_seats halls.
Proof.
  induction halls as [|h halls IH]; simpl; [done|].
  pose proof (grid_capacity_nonneg h). lia.
Qed.

Lemma total_seats_app l1 l2 : total_seats (l1 ++ l2) = total_seats l1 + total_seats l2.
Proof. induction l1 as [|h l1 IH]; simpl; lia. Qed.

Lemma total_seats_Permutation l1 l2 : l1 ≡ₚ l2 → total_seats l1 = total_seats l2.
Proof. induction 1; simpl; lia. Qed.

Lemma required_capacity_ge n : n ≤ University.required_capacity n.
Proof.
  unfold University.required_capacity.
  pose proof (Z.div_mod (n + 24) 25). pose proof (Z.mod_pos_bound (n + 24) 25).
  lia.
Qed.

(** The accumulation loop selects the codes of a prefix of the halls it is
    given, and that prefix reaches the threshold unless it is the whole
    list. *)
Lemma select_codes_prefix required halls cap_acc selected :
  ∃ taken rest,
    halls = taken ++ rest ∧
    University.select_codes required halls cap_acc selected
      = list_to_set (hall_code <$> taken) ∪ selected ∧
    (required ≤ cap_acc + total_seats taken ∨ rest = []).
Proof.
  revert cap_acc selected.
  induction halls as [|h halls IH]; intros cap_acc selected; simpl.
  - exists [], []. split; [done|]. split; [set_solver|by right].
  - case_decide.
    + exists [h], halls. split; [done|]. split; [set_solver|].
      left. simpl. lia.
    + destruct (IH (cap_acc + grid_capacity h) ({[hall_code h]} ∪ selected))
        as (taken & rest & -> & -> & Hreach).
      exists (h :: taken), rest. split; [done|]. split; [set_solver|].
      simpl. destruct Hreach; [left; lia|by right].
Qed.

Lemma filter_all {A} (P : A → Prop) `{!∀ x, Decision (P x)} (l : list A) :
  Forall P l → filter P l = l.
Proof.
  induction 1 as [|x l Hx Hl IH]; [done|].
  rewrite filter_cons, decide_True by done. by rewrite IH.
Qed.

Lemma total_seats_filter (P : Hall → Prop) `{!∀ x, Decision (P x)} halls :
  total_seats (filter P halls) ≤ total_seats halls.
Proof.
  induction halls as [|h halls IH]; simpl; [done|].
  rewrite filter_cons. pose proof (grid_capacity_nonneg h).
  case_decide; simpl; lia.
Qed.

(** The halls kept have at least the seats the loop accumulated. *)
Lemma halls_to_use_seats halls total_students :
  total_students ≤ total_seats halls →
  total_students ≤ total_seats (University.halls_to_use halls total_students).
Proof.
  intros Hfit. unfold University.halls_to_use.
  destruct (select_codes_prefix (University.required_capacity total_students)
              (halls_by_capacity halls) 0 ∅) as (taken & rest & Hsplit & -> & Hreach).
  set (P := λ h : Hall, hall_code h ∈ (list_to_set (hall_code <$> taken) ∪ ∅ : gset string)).
  assert (halls_by_capacity halls ≡ₚ halls) as Hperm by apply sorted_Permutation.
  assert (total_seats (filter P halls) = total_seats (filter P (taken ++ rest)))
    as ->.
  { apply total_seats_Permutation. by rewrite <- Hsplit, Hperm. }
  rewrite filter_app, total_seats_app.
  assert (filter P taken = taken) as ->.
  { apply filter_all, Forall_forall. intros h Hh. unfold P.
    apply elem_of_union_l, elem_of_list_to_set. by apply list_elem_of_fmap_2. }
  destruct Hreach as [Hreach| ->].
  - pose proof (required_capacity_ge total_students).
    pose proof (total_seats_nonneg (filter P rest)). lia.
  - rewrite app_nil_r in Hsplit.
    rewrite <- (total_seats_Permutation _ _ Hperm), Hsplit in Hfit.
    rewrite filter_nil. simpl. lia.
Qed.

Lemma halls_to_use_all halls total_students :
  threshold_missed halls total_students →
  University.halls_to_use halls total_students = halls.
Proof.
  intros Hmiss. unfold University.halls_to_use.
  destruct (select_codes_prefix (University.required_capacity total_students)
              (halls_by_capacity halls) 0 ∅) as (taken & rest & Hsplit & -> & Hreach).
  assert (halls_by_capacity halls ≡ₚ halls) as Hperm by apply sorted_Permutation.
  assert (rest = []) as ->.
  { destruct Hreach as [Hreach|]; [|done]. exfalso.
    unfold threshold_missed in Hmiss.
    rewrite <- (total_seats_Permutation _ _ Hperm), Hsplit, total_seats_app in Hmiss.
    pose proof (total_seats_nonneg rest). lia. }
  rewrite app_nil_r in Hsplit. subst taken.
  apply filter_all, Forall_forall. intros h Hh.
  apply elem_of_union_l, elem_of_list_to_set, list_elem_of_fmap_2.
  by rewrite Hperm.
Qed.

Lemma seat_raise wd hall r c student st e :
  seat wd hall r c student st = Raise e → lookup_error e.
Proof.
  unfold seat, lookup_error.
  repeat (case_match; try done); intros [= <-]; auto.
Qed.

Lemma run_trace_raise wd trace st e :
  run_trace wd trace st = Raise e → lookup_error e.
Proof.
  revert st. induction trace as [|[[[h r] c] s] trace IH]; intros st; simpl; [done|].
  destruct (seat wd h r c s st) eqn:Hseat; simpl; [by apply IH| |done].
  intros [= <-]. by eapply seat_raise.
Qed.

Lemma while_raise {S} fuel cond body (s : S) e :
  while fuel cond body s ≠ Raise e.
Proof.
  revert s. induction fuel as [|fuel IH]; intros s; simpl;
    destruct (cond s); try done; apply IH.
Qed.

Lemma university_allocate_halls_raise fuel targets halls st first second e :
  University.allocate_halls fuel targets halls st first second = Raise e →
  lookup_error e.
Proof.
  revert st first second.
  induction halls as [|hall halls IH]; intros st first second; simpl; [done|].
  destruct (University.allocate_hall _ _ _ _ _ _) as [[[??]?]|e'|] eqn:Hhall;
    simpl; [by apply IH| |done].
  intros [= <-]. unfold University.allocate_hall in Hhall.
  case_decide; [done|].
  destruct (while _ _ _ _) as [p|e''|] eqn:Hw; simpl in Hhall;
    [|by apply while_raise in Hw|done].
  destruct (nonempty _); [|done].
  rewrite place_serpentine_trace in Hhall.
  destruct (run_trace _ _ _) eqn:Hrun; simpl in Hhall; simplify_eq.
  by eapply run_trace_raise.
Qed.

(** C6, as stated, fails: one hall of two seats cannot reach the threshold
    of 25 seats for two students, and the run returns. *)
Lemma missed_threshold_is_no_error :
  threshold_missed [demo_hall "A" 1 2 2] 2 ∧
  ∃ st, University.allocate_seats 2 [demo_hall "A" 1 2 2] two_students = Done st.
Proof. split; [vm_compute; reflexivity|]. eexists. vm_compute. reflexivity. Qed.

(** C6, amended.  Under the block-quantized policy, when the accumulated
    halls cannot reach the rounded threshold, all halls are selected, in
    their declared order, and the selector fails with
    [InsufficientCapacityError] exactly when their grid seats are fewer than
    the students, and returns them otherwise.  Behind the validator this
    never happens: no run ends with that error. *)
Theorem select_halls_below_threshold halls total_students :
  (threshold_missed halls total_students →
     University.halls_to_use halls total_students = halls ∧
     (University.select_halls halls total_students
        = Raise InsufficientCapacityError ↔ total_seats halls < total_students) ∧
     (total_students ≤ total_seats halls →
        University.select_halls halls total_students = Done halls)) ∧
  (∀ fuel students,
     University.allocate_seats fuel halls students
       ≠ Raise InsufficientCapacityError).
Proof.
  split.
  - intros Hmiss. pose proof (halls_to_use_all _ _ Hmiss) as Hall.
    split; [done|]. unfold University.select_halls. rewrite Hall.
    split; [|intros; by rewrite decide_False by lia].
    case_decide; split; try done; lia.
  - intros fuel students.
    unfold University.allocate_seats, University.placement_passes,
      validate_inputs.
    destruct (check_halls_spec halls) as [[_ ->]|[_ ->]]; simpl; [done|].
    case_decide; simpl; [done|].
    unfold University.select_halls.
    rewrite decide_False.
    + simpl.
      destruct (University.allocate_halls _ _ _ _ _ _) as [[[??]?]|e|] eqn:Hrun;
        simpl; try done.
      * by destruct (nonempty _).
      * apply university_allocate_halls_raise in Hrun as [-> | ->]; done.
    + pose proof (halls_to_use_seats halls (Z.of_nat (length students))). lia.
Qed.

Lemma select_halls_below_threshold_witness :
  University.select_halls [demo_hall "A" 1 2 2] 3 = Raise InsufficientCapacityError ∧
  University.select_halls [demo_hall "A" 1 2 2] 2 = Done [demo_hall "A" 1 2 2].
Proof.
  pose proof (select_halls_below_threshold [demo_hall "A" 1 2 2] 3) as [H3 _].
  pose proof (select_halls_below_threshold [demo_hall "A" 1 2 2] 2) as [H2 _].
  assert (threshold_missed [demo_hall "A" 1 2 2] 3) as M3
    by (vm_compute; reflexivity).
  assert (threshold_missed [demo_hall "A" 1 2 2] 2) as M2
    by (vm_compute; reflexivity).
  destruct (H3 M3) as (_ & [_ Hraise] & _).
  destruct (H2 M2) as (_ & _ & Hdone).
  split.
  - apply Hraise. vm_compute. reflexivity.
  - apply Hdone. vm_compute. discriminate.
Defined.

(** ** The proportional distributor *)

Lemma target_of_insert_eq targets hall hall' v :
  hall_code hall' = hall_code hall →
  target_of (<[hall_code hall := v]> targets) hall' = v.
Proof. intros Hc. unfold target_of. by rewrite Hc, lookup_insert_eq. Qed.

Lemma target_of_insert_ne targets hall hall' v :
  hall_code hall' ≠ hall_code hall →
  target_of (<[hall_code hall := v]> targets) hall' = target_of targets hall'.
Proof. intros Hc. unfold target_of. by rewrite lookup_insert_ne. Qed.

Lemma sum_targets_insert_ne targets hall v halls :
  hall_code hall ∉ hall_code <$> halls →
  sum_targets (<[hall_code hall := v]> targets) halls = sum_targets targets halls.
Proof.
  induction halls as [|h halls IH]; csimpl; [done|].
  intros [? ?]%not_elem_of_cons.
  rewrite target_of_insert_ne by done. by rewrite IH.
Qed.

Lemma proportional_counts_spec total_capacity total_students halls targets acc :
  NoDup (hall_code <$> halls) →
  ∃ targets',
    proportional_counts total_capacity total_students halls targets acc
    = (targets', acc + sum_shares total_capacity total_students halls) ∧
    (∀ hall, hall ∈ halls →
       target_of targets' hall = share total_capacity total_students hall) ∧
    (∀ hall, hall_code hall ∉ hall_code <$> halls →
       target_of targets' hall = target_of targets hall).
Proof.
  revert targets acc.
  induction halls as [|h halls IH]; intros targets acc Hnd; csimpl.
  - exists targets. split; [f_equal; lia|]. split; [|done].
    by intros ? ?%elem_of_nil.
  - apply NoDup_cons in Hnd as [Hh Hnd].
    fold (share total_capacity total_students h).
    destruct (IH (<[hall_code h := share total_capacity total_students h]> targets)
                 (acc + share total_capacity total_students h) Hnd)
      as (targets' & -> & Hin & Hout).
    exists targets'. split; [f_equal; lia|]. split.
    + intros hall [->|Hhall]%elem_of_cons; [|by apply Hin].
      rewrite Hout by done. by apply target_of_insert_eq.
    + intros hall [? ?]%not_elem_of_cons.
      rewrite Hout by done. by apply target_of_insert_ne.
Qed.

Lemma spread_remainder_spec halls targets rem :
  NoDup (hall_code <$> halls) →
  let targets' := spread_remainder halls targets rem in
  sum_targets targets' halls
    = sum_targets targets halls + Z.min (Z.max rem 0) (Z.of_nat (length halls)) ∧
  (∀ hall, hall ∈ halls →
     target_of targets hall ≤ target_of targets' hall ∧
     target_of targets' hall ≤ target_of targets hall + (if decide (rem ≤ 0) then 0 else 1)) ∧
  (∀ hall, hall_code hall ∉ hall_code <$> halls →
     target_of targets' hall = target_of targets hall).
Proof.
  revert targets rem.
  induction halls as [|h halls IH]; intros targets rem Hnd; csimpl.
  - split; [lia|]. split; [|done]. by intros ? ?%elem_of_nil.
  - apply NoDup_cons in Hnd as [Hh Hnd].
    case_decide as Hrem.
    + split; [lia|]. split; [|done]. intros; lia.
    + destruct (IH (<[hall_code h := target_of targets h + 1]> targets) (rem - 1) Hnd)
        as (Hsum & Hin & Hout).
      split; [|split].
      * rewrite Hsum, Hout by done.
        rewrite target_of_insert_eq by done.
        rewrite sum_targets_insert_ne by done. lia.
      * intros hall [->|Hhall]%elem_of_cons.
        { rewrite Hout by done. rewrite target_of_insert_eq by done. lia. }
        destruct (Hin hall Hhall) as [Hlo Hhi].
        assert (hall_code hall ≠ hall_code h) as Hne.
        { intros Heq. apply Hh. rewrite <- Heq. by apply list_elem_of_fmap_2. }
        rewrite target_of_insert_ne in Hlo, Hhi by done.
        case_decide; lia.
      * intros hall [? ?]%not_elem_of_cons.
        rewrite Hout by done. by apply target_of_insert_ne.
Qed.




Lemma exact_share_near total_capacity total_students hall :
  total_capacity > 0 → 0 ≤ total_students →
  exact_share total_capacity total_students hall →
  near_share total_capacity total_students hall.
Proof.
  unfold exact_share, near_share. intros HT HN ->.
  pose proof (grid_capacity_nonneg hall).
  pose proof (Z.div_mod (grid_capacity hall * total_students) total_capacity).
  pose proof (Z.mod_pos_bound (grid_capacity hall * total_students) total_capacity).
  split; [apply Z.div_pos; nia|]. nia.
Qed.


Lemma sum_shares_full total_capacity halls :
  total_capacity > 0 →
  Forall (exact_share total_capacity total_capacity) halls →
  sum_shares total_capacity total_capacity halls = total_seats halls.
Proof.
  intros HT. induction 1 as [|h halls Hh Hhalls IH]; simpl; [done|].
  rewrite IH. unfold share. rewrite decide_True by done. rewrite Hh.
  rewrite Z.div_mul by lia. done.
Qed.

Lemma copy_select_halls_spec required halls selected capacity :
  ∃ taken,
    UniversityCopy.select_halls required halls selected capacity
    = (selected ++ taken, capacity + total_seats taken)
    ∧ taken `prefix_of` halls.
Proof.
  revert selected capacity.
  induction halls as [|h halls IH]; intros selected capacity; simpl.
  - exists []. split; [by rewrite app_nil_r, Z.add_0_r|done].
  - case_decide.
    + exists [h]. split; [simpl; f_equal; lia|]. by apply prefix_cons, prefix_nil.
    + destruct (IH (selected ++ [h]) (capacity + grid_capacity h)) as (taken & -> & Hp).
      exists (h :: taken). split; [|by apply prefix_cons].
      rewrite <- (assoc_L (++)). simpl. f_equal. lia.
Qed.


Lemma zero_targets_target halls hall :
  target_of (UniversityCopy.zero_targets halls) hall = 0.
Proof.
  unfold UniversityCopy.zero_targets.
  assert (∀ d : gmap string Z, target_of d hall = 0 →
    target_of (foldl (λ d h, <[hall_code h := 0]> d) d halls) hall = 0) as Hgen.
  { induction halls as [|h halls IH]; intros d Hd; simpl; [done|].
    apply IH. destruct (decide (hall_code hall = hall_code h)).
    - by apply target_of_insert_eq.
    - by rewrite target_of_insert_ne. }
  by apply Hgen.
Qed.





(** ** Termination of the packing loops *)

Lemma count_remaining_pop (d : Queues) k s rest :
  dict_get d k = s :: rest →
  count_remaining d = S (count_remaining (dict_set d k rest)).
Proof.
  intros Hg. rewrite !count_remaining_length.
  by rewrite (dict_pop_Permutation d k s rest Hg).
Qed.

(** *** Second allocator: each round takes a student *)

Lemma university_take_first_measure usable p :
  (university_measure (University.take_first usable p) ≤ university_measure p)%nat ∧
  (len_lt (University.hall_students p) usable = true →
   University.first_half p ≠ [] →
   (university_measure (University.take_first usable p) < university_measure p)%nat).
Proof.
  unfold University.take_first, university_measure.
  destruct (University.first_half p) as [|s rest] eqn:Hq;
    [rewrite ?Hq; split; [lia|intros; congruence]|].
  destruct (len_lt _ _); simpl; rewrite ?Hq; simpl; split; try done; lia.
Qed.

Lemma university_take_second_measure usable p :
  (university_measure (University.take_second usable p) ≤ university_measure p)%nat ∧
  (len_lt (University.hall_students p) usable = true →
   University.second_half p ≠ [] →
   (university_measure (University.take_second usable p) < university_measure p)%nat).
Proof.
  unfold University.take_second, university_measure.
  destruct (University.second_half p) as [|s rest] eqn:Hq;
    [rewrite ?Hq; split; [lia|intros; congruence]|].
  destruct (len_lt _ _); simpl; rewrite ?Hq; simpl; split; try done; lia.
Qed.

Lemma university_pack_body_measure usable p :
  University.pack_cond usable p = true →
  (university_measure (University.pack_body usable p) < university_measure p)%nat.
Proof.
  unfold University.pack_cond, University.pack_body.
  intros [Hlt Hsome]%andb_true_iff.
  destruct (university_take_first_measure usable p) as [Hle1 Hlt1].
  destruct (university_take_second_measure usable (University.take_first usable p))
    as [Hle2 Hlt2].
  destruct (University.first_half p) as [|s rest] eqn:Hfirst.
  - assert (University.take_first usable p = p) as Hsame
      by (unfold University.take_first; by rewrite Hfirst).
    rewrite Hsame in *. apply Hlt2; [done|].
    simpl in Hsome. by destruct (University.second_half p).
  - assert (s :: rest ≠ []) as Hne by done.
    specialize (Hlt1 Hlt Hne). lia.
Qed.

(** *** First allocator, round robin: each round takes a student *)

Lemma exam1_take_measure course p :
  exam1_measure (Exam1.take course p)
  = (exam1_measure p - (if nonempty (dict_get (Exam1.remaining_courses p) course)
                        then 1 else 0))%nat.
Proof.
  unfold Exam1.take, exam1_measure.
  destruct (dict_get _ _) as [|s rest] eqn:Hg; simpl; [lia|].
  rewrite (count_remaining_pop _ _ _ _ Hg). lia.
Qed.

Lemma exam1_take_nonempty_measure course p :
  nonempty (dict_get (Exam1.remaining_courses p) course) = true →
  (0 < exam1_measure p)%nat.
Proof.
  unfold exam1_measure. destruct (dict_get _ _) as [|s rest] eqn:Hg; [done|].
  rewrite (count_remaining_pop _ _ _ _ Hg). lia.
Qed.

Lemma exam1_round_robin_measure usable current p :
  (exam1_measure (Exam1.round_robin_body usable current p) ≤ exam1_measure p)%nat ∧
  (Exam1.pack_cond usable current p = true →
   (exam1_measure (Exam1.round_robin_body usable current p) < exam1_measure p)%nat).
Proof.
  unfold Exam1.round_robin_body, Exam1.pack_cond. revert p.
  induction current as [|course current IH]; intros p; simpl.
  - split; [done|]. by rewrite andb_false_r.
  - set (step := if nonempty _ && len_lt _ _ then Exam1.take course p else p).
    destruct (IH step) as [IHle IHlt].
    assert (exam1_measure step ≤ exam1_measure p)%nat as Hstep.
    { unfold step. destruct (_ && _); [|done]. rewrite exam1_take_measure. lia. }
    split; [lia|].
    intros [Hlt Hany]%andb_true_iff.
    destruct (nonempty (dict_get (Exam1.remaining_courses p) course)) eqn:Hne.
    + unfold step in *. rewrite Hlt in *. simpl in *.
      pose proof (exam1_take_nonempty_measure _ _ Hne).
      rewrite exam1_take_measure, Hne in IHle. lia.
    + simpl in Hany. unfold step in *. simpl in *.
      apply IHlt. by rewrite Hlt, Hany.
Qed.

(** *** First allocator, 2:1:1: a student is taken within four rounds *)

Lemma turns_to_wait_le e0 e1 e2 phase : (turns_to_wait e0 e1 e2 phase ≤ 4)%nat.
Proof. unfold turns_to_wait. repeat case_match; lia. Qed.

Lemma turns_to_wait_step e0 e1 e2 phase :
  (phase < 4)%nat → turn_has e0 e1 e2 phase = false → e0 || e1 || e2 = true →
  (turns_to_wait e0 e1 e2 ((phase + 1) mod 4) < turns_to_wait e0 e1 e2 phase)%nat.
Proof.
  intros Hph. destruct phase as [|[|[|[|?]]]]; [| | | |lia];
    destruct e0, e1, e2; vm_compute; intros; try done; try lia.
Qed.

Lemma exam1_ratio_body_measure usable c0 c1 c2 p :
  Exam1.pack_cond usable [c0; c1; c2] p = true →
  (exam1_ratio_measure c0 c1 c2 (Exam1.ratio_body [c0; c1; c2] p)
   < exam1_ratio_measure c0 c1 c2 p)%nat.
Proof.
  unfold Exam1.pack_cond. intros [_ Hany]%andb_true_iff.
  simpl in Hany. rewrite orb_false_r, orb_assoc in Hany.
  assert (∀ c, Exam1.idx (Exam1.take c p) = Exam1.idx p) as Hidx.
  { intros c. unfold Exam1.take.
    destruct (dict_get (Exam1.remaining_courses p) c); reflexivity. }
  unfold exam1_ratio_measure, Exam1.ratio_body.
  change (length Exam1.allocation_order) with 4%nat.
  pose proof (Nat.mod_upper_bound (Exam1.idx p) 4) as Hph.
  set (e0 := nonempty (dict_get (Exam1.remaining_courses p) c0)) in *.
  set (e1 := nonempty (dict_get (Exam1.remaining_courses p) c1)) in *.
  set (e2 := nonempty (dict_get (Exam1.remaining_courses p) c2)) in *.
  assert (∀ c,
    [c0; c1; c2] !! default 0%nat (Exam1.allocation_order !! (Exam1.idx p mod 4)%nat)
      = Some c →
    turn_has e0 e1 e2 (Exam1.idx p mod 4)
      = nonempty (dict_get (Exam1.remaining_courses p) c)) as Hturn.
  { intros c. unfold turn_has. rewrite Nat.Div0.mod_mod.
    destruct (Exam1.idx p mod 4)%nat as [|[|[|[|?]]]]; [| | | |lia];
      simpl; by intros [= <-]. }
  destruct ([c0; c1; c2] !! _) as [c|] eqn:Hc.
  - specialize (Hturn c eq_refl).
    unfold exam1_measure. cbn [Exam1.idx Exam1.remaining_courses].
    rewrite Hidx.
    replace (S (Exam1.idx p) mod 4)%nat with ((Exam1.idx p mod 4 + 1) mod 4)%nat
      by (rewrite Nat.Div0.add_mod_idemp_l; f_equal; lia).
    destruct (dict_get (Exam1.remaining_courses p) c) as [|s rest] eqn:Hg.
    + assert (Exam1.take c p = p) as -> by (unfold Exam1.take; by rewrite Hg).
      fold e0 e1 e2.
      pose proof (turns_to_wait_step e0 e1 e2 _ (Hph ltac:(lia)) Hturn Hany). lia.
    + pose proof (exam1_take_measure c p) as Hm. rewrite Hg in Hm.
      pose proof (exam1_take_nonempty_measure c p) as Hpos.
      rewrite Hg in Hpos. specialize (Hpos eq_refl).
      unfold exam1_measure in Hm, Hpos. cbn [nonempty] in Hm.
      pose proof (turns_to_wait_le
        (nonempty (dict_get (Exam1.remaining_courses (Exam1.take c p)) c0))
        (nonempty (dict_get (Exam1.remaining_courses (Exam1.take c p)) c1))
        (nonempty (dict_get (Exam1.remaining_courses (Exam1.take c p)) c2))
        ((Exam1.idx p mod 4 + 1) mod 4)).
      lia.
  - exfalso.
    destruct (Exam1.idx p mod 4)%nat as [|[|[|[|?]]]]; [| | | |lia]; done.
Qed.

(** *** The runs come to an end *)

Lemma finished_bind {A B} (m : outcome A) (k : A → outcome B) :
  finished m → (∀ a, m = Done a → finished (k a)) → finished (m ≫= k).
Proof. unfold finished. destruct m; simpl; auto. Qed.

Lemma seat_finished wd hall r c student st : finished (seat wd hall r c student st).
Proof. unfold finished, seat. repeat case_match; done. Qed.

Lemma run_trace_finished wd trace st : finished (run_trace wd trace st).
Proof.
  revert st. induction trace as [|[[[h r] c] s] trace IH]; intros st; simpl; [done|].
  apply finished_bind; [apply seat_finished|auto].
Qed.

Lemma validate_inputs_finished halls students :
  finished (validate_inputs halls students).
Proof.
  unfold validate_inputs.
  destruct (check_halls_spec halls) as [[_ ->]|[_ ->]]; simpl; [done|].
  by case_decide.
Qed.

Lemma exam1_pack_hall_finished fuel courses hall remaining :
  (5 * count_remaining remaining + 4 ≤ fuel)%nat →
  finished (Exam1.pack_hall fuel courses hall remaining).
Proof.
  intros Hfuel. unfold Exam1.pack_hall.
  destruct (nonempty _); [|done].
  set (usable := Z.min _ _). set (current := pick_courses 4 remaining courses []).
  set (p0 := {| Exam1.hall_students := []; Exam1.remaining_courses := remaining;
                Exam1.idx := 0 |}).
  case_decide as Hlen.
  - destruct current as [|c0 [|c1 [|c2 [|??]]]]; try done.
    destruct (while_terminates (exam1_ratio_measure c0 c1 c2) fuel
                (Exam1.pack_cond usable [c0; c1; c2])
                (Exam1.ratio_body [c0; c1; c2]) p0) as [p ->]; [| |done].
    + intros s Hc. by apply (exam1_ratio_body_measure usable).
    + unfold exam1_ratio_measure, exam1_measure. cbn [Exam1.remaining_courses p0].
      pose proof (turns_to_wait_le (nonempty (dict_get remaining c0))
                    (nonempty (dict_get remaining c1))
                    (nonempty (dict_get remaining c2)) (Exam1.idx p0 mod 4)).
      lia.
  - destruct (while_terminates exam1_measure fuel
                (Exam1.pack_cond usable current)
                (Exam1.round_robin_body usable current) p0) as [p ->]; [| |done].
    + intros s Hc. by apply (exam1_round_robin_measure usable current s).
    + unfold exam1_measure. cbn [Exam1.remaining_courses p0]. lia.
Qed.

Lemma exam1_first_pass_finished fuel courses halls st remaining :
  (5 * count_remaining remaining + 4 ≤ fuel)%nat →
  finished (Exam1.first_pass fuel courses halls st remaining).
Proof.
  revert st remaining.
  induction halls as [|hall halls IH]; intros st remaining Hfuel; simpl; [done|].
  apply finished_bind.
  - unfold Exam1.first_pass_hall. apply finished_bind.
    + by apply exam1_pack_hall_finished.
    + intros [p|] _; [|done]. apply finished_bind; [|done].
      rewrite place_row_major_trace. apply run_trace_finished.
  - intros [st1 remaining1] Hhall. apply IH.
    apply exam1_first_pass_hall_trace in Hhall as (hs & _ & Hp & _).
    apply Permutation_length in Hp. rewrite length_app in Hp.
    rewrite count_remaining_length in Hfuel |- *. lia.
Qed.

Lemma exam1_seat_first_free_finished hall coords student st :
  finished (Exam1.seat_first_free hall coords student st).
Proof.
  induction coords as [|[r c] coords IH]; simpl; [done|].
  apply finished_bind.
  - unfold finished, read_cell. repeat case_match; done.
  - intros [reg|] _; [done|apply seat_finished].
Qed.

Lemma exam1_seat_unallocated_finished hall n unallocated st :
  finished (Exam1.seat_unallocated hall n unallocated st).
Proof.
  revert unallocated st.
  induction n as [|n IH]; intros [|s rest] st; simpl; try done.
  apply finished_bind; [apply exam1_seat_first_free_finished|auto].
Qed.

Lemma exam1_second_pass_halls_finished halls unallocated st :
  finished (Exam1.second_pass_halls halls unallocated st).
Proof.
  revert unallocated st.
  induction halls as [|hall halls IH]; intros unallocated st; simpl; [done|].
  destruct (hall_seats st !! hall_code hall); [|done].
  destruct (_ && _); [|done].
  apply finished_bind; [apply exam1_seat_unallocated_finished|].
  by intros [??] _.
Qed.

Lemma exam1_allocate_seats_finished fuel halls students :
  (5 * length students + 4 ≤ fuel)%nat →
  finished (Exam1.allocate_seats fuel halls students).
Proof.
  intros Hfuel. unfold Exam1.allocate_seats. apply finished_bind.
  - unfold Exam1.placement_passes.
    apply finished_bind; [apply validate_inputs_finished|]. intros _ _.
    apply finished_bind.
    + apply exam1_first_pass_finished.
      rewrite count_remaining_length, initial_queues_Permutation. done.
    + intros [st remaining] _. apply finished_bind; [|done].
      unfold Exam1.second_pass. destruct (nonempty _); [|done].
      apply exam1_second_pass_halls_finished.
  - intros [st remaining] _. by case_decide.
Qed.

Lemma university_allocate_halls_finished fuel targets halls st first second :
  (length first + length second ≤ fuel)%nat →
  finished (University.allocate_halls fuel targets halls st first second).
Proof.
  revert st first second.
  induction halls as [|hall halls IH]; intros st first second Hfuel; simpl; [done|].
  apply finished_bind.
  - unfold University.allocate_hall. case_decide; [done|].
    set (usable := Z.min _ _).
    destruct (while_terminates university_measure fuel
                (University.pack_cond usable) (University.pack_body usable)
                {| University.hall_students := []; University.first_half := first;
                   University.second_half := second |}) as [p ->]; [|done|].
    + intros. by apply university_pack_body_measure.
    + simpl. destruct (nonempty _); [|done].
      apply finished_bind; [|done].
      rewrite place_serpentine_trace. apply run_trace_finished.
  - intros [[st1 first1] second1] Hhall. apply IH.
    apply university_allocate_hall_trace in Hhall as (hs & _ & Hp & _).
    apply Permutation_length in Hp. rewrite !length_app in Hp. lia.
Qed.

Lemma university_allocate_seats_finished fuel halls students :
  (length students ≤ fuel)%nat →
  finished (University.allocate_seats fuel halls students).
Proof.
  intros Hfuel. unfold University.allocate_seats. apply finished_bind.
  - unfold University.placement_passes.
    apply finished_bind; [apply validate_inputs_finished|]. intros _ _.
    apply finished_bind.
    + unfold University.select_halls. by case_decide.
    + intros selected _. apply university_allocate_halls_finished.
      rewrite <- length_app, take_drop. done.
  - intros [[st first] second] _. by destruct (nonempty _).
Qed.

(** *** Third allocator: each visit takes a student or retires a course *)

Lemma remove_first_length course l :
  (length (UniversityCopy.remove_first course l) ≤ length l)%nat ∧
  (course ∈ l → S (length (UniversityCopy.remove_first course l)) = length l).
Proof.
  induction l as [|c l [IH1 IH2]]; simpl.
  - split; [done|]. by intros ?%elem_of_nil.
  - case_decide; simpl; [split; [lia|done]|].
    split; [lia|]. intros [?|?]%elem_of_cons; [done|]. by rewrite IH2.
Qed.

Lemma copy_visit_measure course p :
  (copy_measure (UniversityCopy.visit course p) ≤ copy_measure p)%nat ∧
  (course ∈ UniversityCopy.current_courses p →
   (copy_measure (UniversityCopy.visit course p) < copy_measure p)%nat) ∧
  (count_remaining (UniversityCopy.remaining (UniversityCopy.visit course p))
   ≤ count_remaining (UniversityCopy.remaining p))%nat ∧
  UniversityCopy.stopped (UniversityCopy.visit course p) = UniversityCopy.stopped p.
Proof.
  unfold UniversityCopy.visit, copy_measure.
  destruct (dict_get _ _) as [|s rest] eqn:Hg.
  - destruct (UniversityCopy.future_courses p) as [|next future] eqn:Hf;
      cbn [UniversityCopy.remaining UniversityCopy.current_courses
           UniversityCopy.future_courses UniversityCopy.stopped length].
    + destruct (remove_first_length course (UniversityCopy.current_courses p))
        as [Hle Heq].
      split; [lia|]. split; [|done]. intros Hin. specialize (Heq Hin). lia.
    + destruct (remove_first_length course
                  (UniversityCopy.current_courses p ++ [next])) as [Hle Heq].
      rewrite length_app in Hle, Heq. simpl in Hle, Heq.
      split; [lia|]. split; [|done]. intros Hin.
      assert (course ∈ UniversityCopy.current_courses p ++ [next]) as Hin'
        by (apply elem_of_app; by left).
      specialize (Heq Hin'). lia.
  - cbn [UniversityCopy.remaining UniversityCopy.current_courses
         UniversityCopy.future_courses UniversityCopy.stopped].
    rewrite (count_remaining_pop _ _ _ _ Hg).
    split; [lia|]. split; [intros; lia|]. split; [lia|done].
Qed.

Lemma copy_cycle_measure usable snapshot p :
  (copy_measure (UniversityCopy.cycle usable snapshot p) ≤ copy_measure p)%nat ∧
  (count_remaining (UniversityCopy.remaining (UniversityCopy.cycle usable snapshot p))
   ≤ count_remaining (UniversityCopy.remaining p))%nat ∧
  UniversityCopy.stopped (UniversityCopy.cycle usable snapshot p)
  = UniversityCopy.stopped p.
Proof.
  revert p. induction snapshot as [|course snapshot IH]; intros p; simpl; [done|].
  destruct (len_lt _ _); [|done].
  destruct (IH (UniversityCopy.visit course p)) as (IH1 & IH2 & IH3).
  destruct (copy_visit_measure course p) as (Hv1 & _ & Hv2 & Hv3).
  split; [lia|]. split; [lia|congruence].
Qed.

Lemma copy_pack_body_measure usable p :
  UniversityCopy.pack_cond usable p = true →
  (copy_loop_measure (UniversityCopy.pack_body usable p) < copy_loop_measure p)%nat.
Proof.
  unfold UniversityCopy.pack_cond. intros [Hlt Hgo]%andb_true_iff.
  apply negb_true_iff in Hgo.
  unfold UniversityCopy.pack_body, copy_loop_measure. rewrite Hgo.
  assert (copy_measure (UniversityCopy.cycle usable (UniversityCopy.current_courses p) p)
            + (if nonempty (UniversityCopy.current_courses p) then 1 else 0)
          ≤ copy_measure p)%nat as Hcycle.
  { destruct (UniversityCopy.current_courses p) as [|course rest] eqn:Hcur; simpl.
    - lia.
    - rewrite Hlt.
      destruct (copy_cycle_measure usable rest (UniversityCopy.visit course p))
        as (Hc & _).
      destruct (copy_visit_measure course p) as (_ & Hv & _).
      rewrite Hcur in Hv. specialize (Hv ltac:(left)). clear -Hc Hv. lia. }
  destruct (copy_cycle_measure usable (UniversityCopy.current_courses p) p)
    as (Hle & _ & Hstop).
  set (p' := UniversityCopy.cycle _ _ _) in *.
  destruct (nonempty (UniversityCopy.current_courses p')) eqn:Hne.
  - rewrite Hstop, Hgo.
    destruct (UniversityCopy.current_courses p) as [|??] eqn:Hcur; simpl in *.
    + subst p'. simpl in Hne. by rewrite Hcur in Hne.
    + lia.
  - cbn [UniversityCopy.stopped].
    match goal with
    | |- (copy_measure ?q + 0 < _)%nat => change (copy_measure q) with (copy_measure p')
    end.
    lia.
Qed.

Lemma copy_pack_body_remaining usable p :
  (count_remaining (UniversityCopy.remaining (UniversityCopy.pack_body usable p))
   ≤ count_remaining (UniversityCopy.remaining p))%nat.
Proof.
  unfold UniversityCopy.pack_body.
  destruct (copy_cycle_measure usable (UniversityCopy.current_courses p) p)
    as (_ & Hle & _).
  by destruct (nonempty _).
Qed.

Lemma pick_courses_length limit remaining courses current :
  (length current < limit)%nat →
  (length (pick_courses limit remaining courses current) ≤ limit)%nat.
Proof.
  revert current. induction courses as [|c courses IH]; intros current Hlen;
    simpl; [lia|].
  case_decide as Heq; [lia|]. apply IH.
  destruct (nonempty _); [|done]. rewrite length_app in Heq |- *. simpl in *.
  lia.
Qed.

Lemma group_by_course_keys_length (l : list Student) :
  (length ((group_by_course l).*1) ≤ length l)%nat.
Proof.
  unfold group_by_course.
  assert (∀ d : Queues,
    length ((foldl (λ d s, dict_set d (course_code s)
                              (dict_get d (course_code s) ++ [s])) d l).*1)
    ≤ length (d.*1) + length l)%nat as Hgen.
  { induction l as [|s l IH]; intros d; simpl; [lia|].
    etrans; [apply IH|].
    destruct (decide (course_code s ∈ d.*1)).
    - rewrite dict_set_keys_in by done. lia.
    - rewrite dict_set_keys_new by done. rewrite fmap_app, length_app. simpl. lia. }
  apply (Hgen []).
Qed.

Lemma copy_allocate_hall_finished fuel courses targets hall st queues :
  (count_remaining queues + length courses + 3 ≤ fuel)%nat →
  finished (UniversityCopy.allocate_hall fuel courses targets hall st queues) ∧
  ∀ st' queues',
    UniversityCopy.allocate_hall fuel courses targets hall st queues
      = Done (st', queues') →
    (count_remaining queues' ≤ count_remaining queues)%nat.
Proof.
  intros Hfuel. unfold UniversityCopy.allocate_hall.
  destruct (targets !! hall_code hall) as [target|]; [|done].
  case_decide; [split; [done|]; by intros ?? [= <- <-]|].
  set (usable := Z.min _ _).
  set (p0 := {| UniversityCopy.hall_students := []; UniversityCopy.remaining := queues;
                UniversityCopy.current_courses := pick_courses 2 queues courses [];
                UniversityCopy.future_courses :=
                  filter (λ c, c ∉ pick_courses 2 queues courses []) courses;
                UniversityCopy.stopped := false |}).
  destruct (while_terminates copy_loop_measure fuel
              (UniversityCopy.pack_cond usable) (UniversityCopy.pack_body usable) p0)
    as [p Hp].
  { intros. by apply copy_pack_body_measure. }
  { unfold copy_loop_measure, copy_measure.
    cbn [p0 UniversityCopy.remaining UniversityCopy.current_courses
         UniversityCopy.future_courses UniversityCopy.stopped].
    pose proof (pick_courses_length 2 queues courses []) as Hcur.
    pose proof (length_filter (λ c, c ∉ pick_courses 2 queues courses []) courses).
    simpl in Hcur. lia. }
  rewrite Hp. simpl.
  eapply (while_inv (λ q, count_remaining (UniversityCopy.remaining q)
                          ≤ count_remaining queues)%nat) in Hp as [Hle _];
    [|done|].
  - split.
    + apply finished_bind; [|done].
      rewrite place_serpentine_trace. apply run_trace_finished.
    + intros st' queues' Hrun.
      apply outcome_bind_done in Hrun as (st1 & _ & Hrun). by simplify_eq.
  - intros q Hq _. etrans; [apply copy_pack_body_remaining|done].
Qed.

Lemma copy_allocate_halls_finished fuel courses targets halls st queues :
  (count_remaining queues + length courses + 3 ≤ fuel)%nat →
  finished (UniversityCopy.allocate_halls fuel courses targets halls st queues).
Proof.
  revert st queues.
  induction halls as [|hall halls IH]; intros st queues Hfuel; simpl; [done|].
  destruct (copy_allocate_hall_finished fuel courses targets hall st queues Hfuel)
    as [Hfin Hle].
  apply finished_bind; [done|].
  intros [st1 queues1] Hhall. apply IH. specialize (Hle _ _ Hhall). lia.
Qed.

Lemma copy_allocate_seats_finished fuel halls students :
  (2 * length students + 3 ≤ fuel)%nat →
  finished (UniversityCopy.allocate_seats fuel halls students).
Proof.
  intros Hfuel. unfold UniversityCopy.allocate_seats.
  apply finished_bind; [apply validate_inputs_finished|]. intros _ _.
  apply finished_bind.
  - apply copy_allocate_halls_finished.
    rewrite count_remaining_length, initial_queues_Permutation.
    assert (length (courses_by_size (group_by_course (sorted course_reg_leb students)))
            ≤ length students)%nat; [|lia].
    unfold courses_by_size. rewrite sorted_Permutation.
    etrans; [apply group_by_course_keys_length|].
    by rewrite sorted_Permutation.
  - intros [st queues] _. by case_decide.
Qed.

(** C9. With fuel for [5 * len(students) + 4] rounds of a [while] loop,
    [allocate_seats] comes to an end on every input, returning or raising,
    in each of the three allocators: no packing loop (the 2:1:1 loop, the
    round robin over the picked courses, the alternation between the two
    halves, the round robin that retires a course and takes in the next)
    runs out of fuel. *)
Theorem allocate_seats_terminates fuel halls students :
  (5 * length students + 4 ≤ fuel)%nat →
  finished (Exam1.allocate_seats fuel halls students) ∧
  finished (University.allocate_seats fuel halls students) ∧
  finished (UniversityCopy.allocate_seats fuel halls students).
Proof.
  intros Hfuel. split; [|split].
  - by apply exam1_allocate_seats_finished.
  - apply university_allocate_seats_finished. lia.
  - apply copy_allocate_seats_finished. lia.
Qed.

Lemma allocate_seats_terminates_witness :
  finished (Exam1.allocate_seats 24 demo_halls demo_students) ∧
  finished (University.allocate_seats 24 demo_halls demo_students) ∧
  finished (UniversityCopy.allocate_seats 24 demo_halls demo_students).
Proof.
  apply (allocate_seats_terminates 24 demo_halls demo_students).
  vm_compute. lia.
Defined.

(** ** The closing check of the first allocator *)

(** C2, on the code: the first pass of the first allocator packs four
    courses into the hall, the second pass seats the student of the fifth
    course in the free cell, so that after both passes every student has a
    seat; the closing check still counts the queue the first pass left and
    raises for one student. *)
Theorem closing_check_counts_seated_students :
  ∃ st queues,
    Exam1.placement_passes 29 one_row_hall five_courses = Done (st, queues) ∧
    hall_seats st !! "H1"
      = Some [[Some "S1"; Some "S2"; Some "S3"; Some "S4"; Some "S5"]] ∧
    Forall (λ s, is_Some (allocations st !! reg_no s)
                 ∧ cells_holding (reg_no s) (hall_seats st) = 1%nat) five_courses ∧
    occupied_cells (hall_seats st) = length five_courses ∧
    count_remaining queues = 1%nat ∧
    Exam1.allocate_seats 29 one_row_hall five_courses
      = Raise (UnallocatedStudentsError 1).
Proof.
  eexists _, _. split; [vm_compute; reflexivity|].
  split; [vm_compute; reflexivity|].
  split; [repeat constructor; try (vm_compute; reflexivity); vm_compute; eauto|].
  split; [vm_compute; reflexivity|].
  split; vm_compute; reflexivity.
Qed.

(** ** The registration sort before placement *)


Section SortedBy.
Context {A : Type} (leb : A → A → bool).
Hypothesis leb_total : ∀ x y, leb x y = false → leb y x = true.
Let R (x y : A) : Prop := leb x y = true.

Lemma insert_sorted_HdRel x y l :
  R y x → HdRel R y l → HdRel R y (insert_sorted leb x l).
Proof.
  intros Hyx Hhd. destruct l as [|z l]; simpl; [by constructor|].
  destruct (leb x z); constructor; [done|]. by inversion Hhd.
Qed.

Lemma insert_sorted_Sorted x l : Sorted R l → Sorted R (insert_sorted leb x l).
Proof.
  induction 1 as [|y l Hl IH Hhd]; simpl; [by repeat constructor|].
  destruct (leb x y) eqn:Hxy.
  - constructor; [by constructor|]. by constructor.
  - constructor; [done|]. apply insert_sorted_HdRel; [|done]. by apply leb_total.
Qed.

Lemma sorted_Sorted l : Sorted R (sorted leb l).
Proof.
  induction l as [|x l IH]; simpl; [constructor|]. by apply insert_sorted_Sorted.
Qed.
End SortedBy.

(** What a seat does to the cells. *)
Lemma seat_cells wd hall r c student st st' code' r' c' :
  seat wd hall r c student st = Done st' →
  cell (hall_seats st') code' r' c' =
  if decide ((code', r', c') = (hall_code hall, r, c)) then Some (reg_no student)
  else cell (hall_seats st) code' r' c'.
Proof.
  unfold seat.
  destruct (hall_seats st !! hall_code hall) as [g|] eqn:Hg; [|done].
  destruct (g !! r) as [line|] eqn:Hr; [|done].
  case_decide; [|done]. intros [= <-]. simpl. by apply cell_write.
Qed.

(** The cells of a mapper's trace hold its students, in order; no other
    cell changes. *)
Lemma run_trace_cells wd hall coords hs st st' :
  NoDup coords →
  run_trace wd (trace_of hall coords hs) st = Done st' →
  (∀ i rc s, coords !! i = Some rc → hs !! i = Some s →
     cell (hall_seats st') (hall_code hall) rc.1 rc.2 = Some (reg_no s)) ∧
  (∀ code r c, (code = hall_code hall → (r, c) ∉ coords) →
     cell (hall_seats st') code r c = cell (hall_seats st) code r c).
Proof.
  unfold trace_of. revert hs st.
  induction coords as [|[r0 c0] coords IH]; intros hs st Hnd Hrun.
  - simpl in Hrun. simplify_eq. split; [by intros ???|done].
  - destruct hs as [|s0 hs]; simpl in Hrun.
    { simplify_eq. split; [by intros ????|done]. }
    apply NoDup_cons in Hnd as [Hfresh Hnd].
    apply outcome_bind_done in Hrun as (st1 & Hseat & Hrun).
    destruct (IH hs st1 Hnd Hrun) as [Hin Hout].
    split.
    + intros [|i] rc s Hrc Hs; simpl in *; simplify_eq.
      * simpl. rewrite Hout by (intros _; done).
        rewrite (seat_cells _ _ _ _ _ _ _ _ _ _ Hseat). by rewrite decide_True.
      * by eapply Hin.
    + intros code r c Hnot. rewrite Hout.
      * rewrite (seat_cells _ _ _ _ _ _ _ _ _ _ Hseat).
        rewrite decide_False; [done|]. intros [= -> -> ->].
        apply (Hnot eq_refl). left.
      * intros Hcode Hel. apply (Hnot Hcode). by right.
Qed.





(** ** Exact fit *)

(** Seats on cells of halls whose grids have their dimensions do not
    raise. *)
Lemma run_trace_shaped wd halls trace st :
  shaped halls st → Forall (in_hall halls) trace →
  ∃ st', run_trace wd trace st = Done st' ∧ shaped halls st'.
Proof.
  revert st. induction trace as [|[[[hall r] c] s] trace IH]; intros st Hsh Hin.
  - by exists st.
  - apply Forall_cons in Hin as [(Hh & Hr & Hc) Hin]. simpl in Hh, Hr, Hc.
    destruct (Hsh hall Hh) as (g & Hg & Hlen & Hlines).
    destruct (lookup_lt_is_Some_2 g r) as [line Hline]; [lia|].
    pose proof (Hlines r line Hline) as Hll.
    assert (∃ st1, seat wd hall r c s st = Done st1) as [st1 Hseat].
    { unfold seat. rewrite Hg, Hline. rewrite decide_True by lia. eauto. }
    simpl. rewrite Hseat. simpl. apply IH; [|done]. by eapply seat_shaped.
Qed.

(** The range of a target, whatever the shares are. *)
Lemma distribute_range d0 halls total_students hall :
  NoDup (hall_code <$> halls) → hall ∈ halls →
  let shares := sum_shares (total_seats halls) total_students halls in
  let targets := distribute d0 halls total_students in
  share (total_seats halls) total_students hall ≤ target_of targets hall ∧
  target_of targets hall
    ≤ share (total_seats halls) total_students hall
      + (if decide (total_students - shares ≤ 0) then 0 else 1).
Proof.
  intros Hnd Hhall. simpl. unfold distribute.
  destruct (proportional_counts_spec (total_seats halls) total_students halls d0 0 Hnd)
    as (targets1 & -> & Hin1 & _).
  destruct (spread_remainder_spec halls targets1
              (total_students - (0 + sum_shares (total_seats halls) total_students halls))
              Hnd) as (_ & Hin & _).
  destruct (Hin hall Hhall) as [Hlo Hhi]. rewrite (Hin1 hall Hhall) in Hlo, Hhi.
  split; [done|]. repeat case_decide; lia.
Qed.

Lemma total_seats_elem hall halls :
  hall ∈ halls → grid_capacity hall ≤ total_seats halls.
Proof.
  induction halls as [|h halls IH]; [by intros ?%elem_of_nil|].
  intros [->|Hin]%elem_of_cons; simpl.
  - pose proof (total_seats_nonneg halls). lia.
  - pose proof (grid_capacity_nonneg h). specialize (IH Hin). lia.
Qed.

(** With as many students as seats and exact shares, the target of a hall
    is its grid capacity. *)
Lemma full_targets d0 halls hall :
  NoDup (hall_code <$> halls) → hall ∈ halls →
  Forall (exact_share (total_seats halls) (total_seats halls)) halls →
  target_of (distribute d0 halls (total_seats halls)) hall = grid_capacity hall.
Proof.
  intros Hnd Hhall Hexact.
  destruct (distribute_range d0 halls (total_seats halls) hall Hnd Hhall)
    as [Hlo Hhi].
  pose proof (total_seats_nonneg halls) as HT.
  destruct (decide (total_seats halls > 0)) as [Hpos|Hzero].
  - rewrite sum_shares_full in Hhi by done.
    rewrite decide_True in Hhi by lia.
    assert (share (total_seats halls) (total_seats halls) hall = grid_capacity hall)
      as Hshare.
    { unfold share. rewrite decide_True by done.
      rewrite Forall_forall in Hexact. rewrite (Hexact hall Hhall).
      apply Z.div_mul. lia. }
    lia.
  - assert (∀ l, sum_shares (total_seats halls) (total_seats halls) l = 0) as Hs.
    { induction l as [|h l IH]; simpl; [done|]. rewrite IH.
      unfold share. by rewrite decide_False. }
    rewrite Hs in Hhi. rewrite decide_True in Hhi by lia.
    assert (share (total_seats halls) (total_seats halls) hall = 0) as Hshare
      by (unfold share; by rewrite decide_False).
    pose proof (total_seats_elem hall halls Hhall).
    pose proof (grid_capacity_nonneg hall). lia.
Qed.

(** A hall whose target and declared capacity are its grid capacity takes
    students until it is full or none is left. *)
Lemma university_allocate_hall_fills fuel targets halls hall st first second :
  shaped halls st → hall ∈ halls →
  (length first + length second ≤ fuel)%nat →
  target_of targets hall = grid_capacity hall →
  total_capacity hall = grid_capacity hall →
  ∃ st' first' second',
    University.allocate_hall fuel targets hall st first second
      = Done (st', first', second') ∧
    shaped halls st' ∧
    Z.of_nat (length first' + length second')
      = Z.max 0 (Z.of_nat (length first + length second) - grid_capacity hall).
Proof.
  intros Hsh Hhall Hfuel Htarget Hcap. unfold University.allocate_hall.
  rewrite Htarget, Hcap. pose proof (grid_capacity_nonneg hall) as Hg.
  case_decide as Hempty.
  { exists st, first, second. split; [done|]. split; [done|]. lia. }
  replace (Z.min (Z.min (grid_capacity hall) (grid_capacity hall))
             (grid_capacity hall)) with (grid_capacity hall) by lia.
  set (p0 := {| University.hall_students := []; University.first_half := first;
                University.second_half := second |}).
  destruct (while_terminates university_measure fuel
              (University.pack_cond (grid_capacity hall))
              (University.pack_body (grid_capacity hall)) p0) as [p Hp]; [|done|].
  { intros. by apply university_pack_body_measure. }
  rewrite Hp. simpl.
  eapply (while_inv (university_pack_inv (first ++ second) (grid_capacity hall)))
    in Hp as [[Hperm Hlen] Hexit].
  2: { split; simpl; [done|lia]. }
  2: { intros q Hq _. unfold University.pack_body.
       by apply university_take_second_inv, university_take_first_inv. }
  apply Permutation_length in Hperm. rewrite !length_app in Hperm.
  assert (Z.of_nat (length (University.first_half p) + length (University.second_half p))
          = Z.max 0 (Z.of_nat (length first + length second) - grid_capacity hall))
    as Hcount.
  { unfold University.pack_cond in Hexit.
    apply andb_false_iff in Hexit as [Hfull|Hnone].
    - unfold len_lt in Hfull. apply bool_decide_eq_false in Hfull. lia.
    - apply orb_false_iff in Hnone as [H1%nonempty_false H2%nonempty_false].
      rewrite H1, H2 in Hperm |- *. simpl in *. lia. }
  destruct (nonempty (University.hall_students p)).
  - rewrite place_serpentine_trace.
    destruct (run_trace_shaped false halls
                (hall_trace hall (serpentine_cols hall) (University.hall_students p)) st)
      as (st' & -> & Hsh'); [done| |].
    + eapply Forall_impl;
        [apply hall_trace_in_hall, serpentine_cols_perm|].
      intros q (Hq & ? & ?). unfold in_hall. by rewrite Hq.
    + simpl. by eexists _, _, _.
  - by eexists _, _, _.
Qed.

Lemma university_allocate_halls_fills fuel targets halls selected st first second :
  shaped halls st →
  (∀ hall, hall ∈ selected →
     hall ∈ halls ∧ target_of targets hall = grid_capacity hall
     ∧ total_capacity hall = grid_capacity hall) →
  (length first + length second ≤ fuel)%nat →
  ∃ st' first' second',
    University.allocate_halls fuel targets selected st first second
      = Done (st', first', second') ∧
    Z.of_nat (length first' + length second')
      = Z.max 0 (Z.of_nat (length first + length second) - total_seats selected).
Proof.
  revert st first second.
  induction selected as [|hall selected IH]; intros st first second Hsh Hsel Hfuel.
  - exists st, first, second. split; [done|]. simpl. lia.
  - destruct (Hsel hall) as (Hhall & Htarget & Hcap); [left|].
    destruct (university_allocate_hall_fills fuel targets halls hall st first second)
      as (st1 & first1 & second1 & Hrun & Hsh1 & Hcount1); try done.
    destruct (IH st1 first1 second1) as (st' & first' & second' & Hrest & Hcount);
      [done| |..].
    + intros h Hh. apply Hsel. by right.
    + pose proof (grid_capacity_nonneg hall). lia.
    + exists st', first', second'. simpl. rewrite Hrun. simpl.
      split; [done|].
      pose proof (grid_capacity_nonneg hall).
      pose proof (total_seats_nonneg selected). lia.
Qed.

(** The second allocator on an exact fit. *)
Lemma university_exact_fit fuel halls students :
  NoDup (hall_code <$> halls) →
  Forall (λ hall, total_capacity hall = grid_capacity hall) halls →
  Z.of_nat (length students) = total_seats halls →
  Forall (exact_share (total_seats halls) (total_seats halls)) halls →
  (length students ≤ fuel)%nat →
  ∃ st, University.allocate_seats fuel halls students = Done st.
Proof.
  intros Hnd Hdecl Hfit Hexact Hfuel.
  rewrite Forall_forall in Hdecl, Hexact.
  unfold University.allocate_seats, University.placement_passes, validate_inputs.
  destruct (check_halls_spec halls) as [[Hover _]|[_ ->]].
  { apply Exists_exists in Hover as (h & Hh & Hgt). specialize (Hdecl h Hh). lia. }
  simpl. rewrite decide_False by lia. simpl.
  unfold University.select_halls.
  set (N := Z.of_nat (length students)) in *.
  set (selected := University.halls_to_use halls N).
  assert (selected `sublist_of` halls) as Hsub by apply sublist_filter.
  assert (total_seats selected = total_seats halls) as Hseats.
  { pose proof (halls_to_use_seats halls N ltac:(lia)).
    pose proof (total_seats_filter
      (λ h, hall_code h ∈ University.select_codes (University.required_capacity N)
                           (halls_by_capacity halls) 0 ∅) halls).
    unfold selected, University.halls_to_use in *. lia. }
  rewrite decide_False by lia. simpl.
  assert (NoDup (hall_code <$> selected)) as Hnd'.
  { eapply sublist_NoDup; [exact Hnd|]. by apply fmap_sublist. }
  destruct (university_allocate_halls_fills fuel (distribute ∅ selected N) halls selected
              (init_state halls)
              (take (Z.to_nat ((N + 1) `div` 2)) students)
              (drop (Z.to_nat ((N + 1) `div` 2)) students))
    as (st & first & second & -> & Hcount).
  - by apply init_shaped.
  - intros h Hh. assert (h ∈ halls) as Hh' by by eapply elem_of_sublist.
    split; [done|]. split; [|by apply Hdecl].
    rewrite Hfit, <- Hseats. apply full_targets; [done..|].
    apply Forall_forall. intros h' Hh''. rewrite Hseats. apply Hexact.
    by eapply elem_of_sublist.
  - rewrite <- length_app, take_drop. done.
  - simpl.
    assert (length (take (Z.to_nat ((N + 1) `div` 2)) students)
            + length (drop (Z.to_nat ((N + 1) `div` 2)) students)
            = length students)%nat as Hall
      by (by rewrite <- length_app, take_drop).
    rewrite Hall in Hcount.
    assert (first ++ second = []) as ->
      by (apply length_zero_iff_nil; rewrite length_app; lia).
    simpl. by eexists.
Qed.

(** *** The first allocator with at most four courses *)

Lemma dict_get_set (d : Queues) k l k' :
  dict_get (dict_set d k l) k' = if decide (k' = k) then l else dict_get d k'.
Proof.
  induction d as [|[k0 l0] d IH]; simpl.
  - repeat case_decide; congruence.
  - destruct (decide (k = k0)) as [->|Hne]; simpl.
    + repeat case_decide; congruence.
    + rewrite IH. repeat case_decide; congruence.
Qed.

Lemma dict_get_present (d : Queues) k : dict_get d k ≠ [] → k ∈ d.*1.
Proof.
  intros Hg. destruct (decide (k ∈ d.*1)); [done|].
  by rewrite dict_get_absent in Hg.
Qed.

Lemma count_remaining_zero (d : Queues) :
  NoDup (d.*1) → (∀ k, k ∈ d.*1 → dict_get d k = []) → count_remaining d = 0%nat.
Proof.
  intros Hnd Hempty. rewrite count_remaining_length.
  rewrite <- dict_get_values by done.
  assert (dict_get d <$> d.*1 = (λ _, []) <$> d.*1) as ->.
  { apply list_fmap_ext. intros i k Hk. apply Hempty.
    by eapply list_elem_of_lookup_2. }
  generalize (d.*1). intros l. by induction l.
Qed.

Lemma queues_shrunk_refl d : queues_shrunk d d.
Proof. by split. Qed.

Lemma exam1_take_shrunk before course p :
  queues_shrunk before (Exam1.remaining_courses p) →
  queues_shrunk before (Exam1.remaining_courses (Exam1.take course p)).
Proof.
  intros [Hkeys Hlen]. unfold Exam1.take.
  destruct (dict_get _ _) as [|s rest] eqn:Hg; [done|]. simpl. split.
  - rewrite <- Hkeys. apply dict_set_keys_in, dict_get_present. by rewrite Hg.
  - intros c. rewrite dict_get_set. case_decide as Hc; [|done].
    subst c. specialize (Hlen course). rewrite Hg in Hlen. simpl in Hlen. lia.
Qed.

Lemma exam1_ratio_body_shrunk before current p :
  queues_shrunk before (Exam1.remaining_courses p) →
  queues_shrunk before (Exam1.remaining_courses (Exam1.ratio_body current p)).
Proof.
  intros Hs. unfold Exam1.ratio_body. destruct (current !! _); simpl; [|done].
  by apply exam1_take_shrunk.
Qed.

Lemma exam1_round_robin_body_shrunk before usable current p :
  queues_shrunk before (Exam1.remaining_courses p) →
  queues_shrunk before
    (Exam1.remaining_courses (Exam1.round_robin_body usable current p)).
Proof.
  unfold Exam1.round_robin_body. revert p.
  induction current as [|course current IH]; intros p Hs; simpl; [done|].
  apply IH. destruct (_ && _); [|done]. by apply exam1_take_shrunk.
Qed.

(** What holds when the packing of a hall is over. *)
Lemma exam1_pack_hall_exit fuel courses hall remaining p :
  Exam1.pack_hall fuel courses hall remaining = Done (Some p) →
  let usable := Z.min (total_capacity hall) (grid_capacity hall) in
  exam1_pack_inv (concat (remaining.*2)) usable p ∧
  queues_shrunk remaining (Exam1.remaining_courses p) ∧
  Exam1.pack_cond usable (pick_courses 4 remaining courses []) p = false.
Proof.
  intros Hrun. pose proof (exam1_pack_hall_inv _ _ _ _ _ Hrun) as Hinv.
  simpl. split; [done|]. unfold Exam1.pack_hall in Hrun.
  destruct (nonempty (pick_courses 4 remaining courses [])); [|done].
  apply outcome_bind_done in Hrun as (p' & Hw & Hrun). simplify_eq.
  case_decide.
  - split.
    + eapply (while_inv (λ q, queues_shrunk remaining (Exam1.remaining_courses q)))
        in Hw as [? _]; [done|apply queues_shrunk_refl|].
      intros. by apply exam1_ratio_body_shrunk.
    + by eapply (while_inv (λ _, True)) in Hw as [_ ?].
  - split.
    + eapply (while_inv (λ q, queues_shrunk remaining (Exam1.remaining_courses q)))
        in Hw as [? _]; [done|apply queues_shrunk_refl|].
      intros. by apply exam1_round_robin_body_shrunk.
    + by eapply (while_inv (λ _, True)) in Hw as [_ ?].
Qed.

(** With no more courses than the limit, every course that has students is
    picked. *)
Lemma pick_courses_all limit remaining courses current :
  (length current + length courses ≤ limit)%nat →
  pick_courses limit remaining courses current
  = current ++ filter (λ c, nonempty (dict_get remaining c) = true) courses.
Proof.
  revert current. induction courses as [|c courses IH]; intros current Hlen; simpl.
  - by rewrite app_nil_r.
  - rewrite filter_cons.
    destruct (nonempty (dict_get remaining c)) eqn:Hc.
    + destruct (decide (true = true)); [|done].
      case_decide as Hfull.
      * rewrite length_app in Hfull. simpl in *.
        assert (courses = []) as -> by (apply length_zero_iff_nil; lia).
        by rewrite filter_nil.
      * rewrite IH; [by rewrite <- (assoc_L (++))|].
        rewrite length_app. simpl in *. lia.
    + destruct (decide (false = true)); [done|].
      case_decide as Hfull.
      * simpl in *. assert (courses = []) as -> by (apply length_zero_iff_nil; lia).
        by rewrite filter_nil, app_nil_r.
      * apply IH. simpl in *. lia.
Qed.

Lemma exam1_pack_hall_done fuel courses hall remaining :
  (5 * count_remaining remaining + 4 ≤ fuel)%nat →
  ∃ o, Exam1.pack_hall fuel courses hall remaining = Done o.
Proof.
  intros Hfuel.
  pose proof (exam1_pack_hall_finished fuel courses hall remaining Hfuel) as Hfin.
  destruct (Exam1.pack_hall fuel courses hall remaining) as [o|e|] eqn:Hrun;
    [by exists o| |done].
  exfalso. unfold Exam1.pack_hall in Hrun.
  destruct (nonempty _); [|done]. case_decide.
  - destruct (while _ _ _ _) eqn:Hw; simpl in Hrun; try done.
    by apply while_raise in Hw.
  - destruct (while _ _ _ _) eqn:Hw; simpl in Hrun; try done.
    by apply while_raise in Hw.
Qed.

Lemma any_remaining_false remaining courses c :
  any_remaining remaining courses = false → c ∈ courses → dict_get remaining c = [].
Proof.
  unfold any_remaining. induction courses as [|c' courses IH]; simpl.
  - by intros _ ?%elem_of_nil.
  - intros [H1 H2]%orb_false_iff [->|Hin]%elem_of_cons; [|by apply IH].
    by apply nonempty_false.
Qed.

(** A hall that declares its grid capacity takes students until it is full
    or none is left, when at most four courses are queued. *)
Lemma exam1_first_pass_hall_fills fuel courses halls hall st remaining :
  shaped halls st → hall ∈ halls →
  remaining.*1 = courses → NoDup courses → (length courses ≤ 4)%nat →
  total_capacity hall = grid_capacity hall →
  (5 * count_remaining remaining + 4 ≤ fuel)%nat →
  ∃ st' remaining',
    Exam1.first_pass_hall fuel courses hall st remaining = Done (st', remaining') ∧
    shaped halls st' ∧ remaining'.*1 = courses ∧
    Z.of_nat (count_remaining remaining')
      = Z.max 0 (Z.of_nat (count_remaining remaining) - grid_capacity hall).
Proof.
  intros Hsh Hhall Hkeys Hnd Hfew Hcap Hfuel.
  pose proof (grid_capacity_nonneg hall) as Hg.
  assert (pick_courses 4 remaining courses []
          = filter (λ c, nonempty (dict_get remaining c) = true) courses) as Hpick
    by (rewrite pick_courses_all; [done|simpl; lia]).
  destruct (exam1_pack_hall_done fuel courses hall remaining Hfuel) as [o Hpack].
  unfold Exam1.first_pass_hall. rewrite Hpack. simpl.
  destruct o as [p|].
  - destruct (exam1_pack_hall_exit _ _ _ _ _ Hpack)
      as ([Hperm Hlen] & [Hkeys' Hshrunk] & Hexit).
    rewrite Hcap in Hlen, Hexit.
    replace (Z.min (grid_capacity hall) (grid_capacity hall))
      with (grid_capacity hall) in Hlen, Hexit by lia.
    apply Permutation_length in Hperm. rewrite length_app in Hperm.
    rewrite <- !count_remaining_length in Hperm.
    rewrite place_row_major_trace.
    destruct (run_trace_shaped true halls
                (hall_trace hall (row_major_cols hall)
                   (sorted reg_leb (Exam1.hall_students p))) st)
      as (st' & -> & Hsh'); [done| |].
    { eapply Forall_impl; [apply hall_trace_in_hall, row_major_cols_perm|].
      intros q (Hq & ? & ?). unfold in_hall. by rewrite Hq. }
    simpl. eexists _, _. split; [done|]. split; [done|].
    split; [congruence|].
    unfold Exam1.pack_cond in Hexit. apply andb_false_iff in Hexit as [Hfull|Hnone].
    + unfold len_lt in Hfull. apply bool_decide_eq_false in Hfull. lia.
    + assert (count_remaining (Exam1.remaining_courses p) = 0%nat) as Hzero.
      { apply count_remaining_zero; [congruence|].
        intros c Hc. rewrite Hkeys', Hkeys in Hc.
        destruct (nonempty (dict_get remaining c)) eqn:Hne.
        - apply (any_remaining_false _ _ _ Hnone). rewrite Hpick.
          by apply list_elem_of_filter.
        - apply nonempty_false in Hne. specialize (Hshrunk c).
          rewrite Hne in Hshrunk. apply length_zero_iff_nil. simpl in *. lia. }
      lia.
  - exists st, remaining. split; [done|]. split; [done|]. split; [done|].
    assert (count_remaining remaining = 0%nat) as ->; [|lia].
    unfold Exam1.pack_hall in Hpack. rewrite Hpick in Hpack.
    destruct (filter _ courses) as [|c' l] eqn:Hfilter; simpl in Hpack.
    + apply count_remaining_zero; [congruence|].
      intros c Hc. rewrite Hkeys in Hc. apply nonempty_false.
      destruct (nonempty (dict_get remaining c)) eqn:Hne; [|done].
      assert (c ∈ filter (λ c, nonempty (dict_get remaining c) = true) courses)
        as Hin by by apply list_elem_of_filter.
      rewrite Hfilter in Hin. by apply elem_of_nil in Hin.
    + by destruct (decide _), (while _ _ _ _).
Qed.

Lemma exam1_first_pass_fills fuel courses halls selected st remaining :
  shaped halls st →
  (∀ hall, hall ∈ selected →
     hall ∈ halls ∧ total_capacity hall = grid_capacity hall) →
  remaining.*1 = courses → NoDup courses → (length courses ≤ 4)%nat →
  (5 * count_remaining remaining + 4 ≤ fuel)%nat →
  ∃ st' remaining',
    Exam1.first_pass fuel courses selected st remaining = Done (st', remaining') ∧
    Z.of_nat (count_remaining remaining')
      = Z.max 0 (Z.of_nat (count_remaining remaining) - total_seats selected).
Proof.
  revert st remaining.
  induction selected as [|hall selected IH];
    intros st remaining Hsh Hsel Hkeys Hnd Hfew Hfuel.
  - exists st, remaining. split; [done|]. simpl. lia.
  - destruct (Hsel hall) as (Hhall & Hcap); [left|].
    destruct (exam1_first_pass_hall_fills fuel courses halls hall st remaining)
      as (st1 & remaining1 & Hrun & Hsh1 & Hkeys1 & Hcount1); try done.
    pose proof (grid_capacity_nonneg hall).
    pose proof (total_seats_nonneg selected).
    destruct (IH st1 remaining1) as (st' & remaining' & Hrest & Hcount);
      try done.
    + intros h Hh. apply Hsel. by right.
    + lia.
    + exists st', remaining'. simpl. rewrite Hrun. simpl. split; [done|]. lia.
Qed.

Lemma group_by_course_keys_subset (l : list Student) k :
  k ∈ (group_by_course l).*1 → k ∈ course_code <$> l.
Proof.
  unfold group_by_course.
  assert (∀ d : Queues,
    k ∈ (foldl (λ d s, dict_set d (course_code s)
                         (dict_get d (course_code s) ++ [s])) d l).*1 →
    k ∈ d.*1 ∨ k ∈ course_code <$> l) as Hgen.
  { induction l as [|s l IH]; intros d; simpl; [auto|].
    intros [Hk|Hk]%IH.
    - destruct (decide (course_code s ∈ d.*1)).
      + rewrite dict_set_keys_in in Hk by done. auto.
      + rewrite dict_set_keys_new in Hk by done.
        rewrite fmap_app in Hk. apply elem_of_app in Hk as [?|Hk]; [auto|].
        apply list_elem_of_singleton in Hk. simpl in Hk. subst k.
        right. apply elem_of_cons. by left.
    - right. apply elem_of_cons. by right. }
  intros Hk. apply Hgen in Hk as [Hk|Hk]; [by apply elem_of_nil in Hk|done].
Qed.

Lemma courses_by_size_few (students : list Student) :
  (length (courses_by_size (group_by_course (sorted course_reg_leb students)))
   ≤ size (distinct_courses students))%nat.
Proof.
  destruct (group_by_course_facts (sorted course_reg_leb students)) as [_ Hnd].
  unfold courses_by_size. rewrite sorted_Permutation.
  rewrite <- (size_list_to_set (C := gset string)) by done.
  apply subseteq_size. intros k Hk. apply elem_of_list_to_set in Hk.
  apply group_by_course_keys_subset in Hk. rewrite sorted_Permutation in Hk.
  by apply elem_of_list_to_set.
Qed.

(** The first allocator on an exact fit, with at most four courses. *)
Lemma exam1_exact_fit fuel halls students :
  NoDup (hall_code <$> halls) →
  Forall (λ hall, total_capacity hall = grid_capacity hall) halls →
  Z.of_nat (length students) = total_seats halls →
  (size (distinct_courses students) ≤ 4)%nat →
  (5 * length students + 4 ≤ fuel)%nat →
  ∃ st, Exam1.allocate_seats fuel halls students = Done st.
Proof.
  intros Hnd Hdecl Hfit Hfew Hfuel. rewrite Forall_forall in Hdecl.
  unfold Exam1.allocate_seats, Exam1.placement_passes, validate_inputs.
  destruct (check_halls_spec halls) as [[Hover _]|[_ ->]].
  { apply Exists_exists in Hover as (h & Hh & Hgt). specialize (Hdecl h Hh). lia. }
  simpl. rewrite decide_False by lia. simpl.
  set (d := group_by_course (sorted course_reg_leb students)).
  set (courses := courses_by_size d).
  destruct (group_by_course_facts (sorted course_reg_leb students)) as [_ Hkeys].
  fold d in Hkeys.
  assert (NoDup courses) as Hcourses.
  { unfold courses, courses_by_size. by rewrite sorted_Permutation. }
  destruct (exam1_first_pass_fills fuel courses halls halls (init_state halls)
              (queues_of d courses)) as (st & remaining & -> & Hcount); try done.
  - by apply init_shaped.
  - intros h Hh. split; [done|by apply Hdecl].
  - rewrite queues_of_facts by done. rewrite <- list_fmap_compose.
    by rewrite list_fmap_id.
  - etrans; [apply courses_by_size_few|done].
  - rewrite count_remaining_length.
    unfold courses, d. rewrite initial_queues_Permutation. done.
  - simpl.
    assert (count_remaining (queues_of d courses) = length students) as Hinit.
    { rewrite count_remaining_length.
      unfold courses, d. by rewrite initial_queues_Permutation. }
    rewrite Hinit in Hcount.
    assert (count_remaining remaining = 0%nat) as Hzero by lia.
    unfold Exam1.second_pass.
    assert (concat (remaining.*2) = []) as ->.
    { apply length_zero_iff_nil. by rewrite <- count_remaining_length. }
    simpl. rewrite decide_False by lia. by eexists.
Qed.

(** C5, as stated, fails: two students for a hall of two grid seats that
    declares one (the data-model invariant holds); both allocators seat one
    student and raise for the other. *)
Lemma exact_fit_with_unused_seat_raises :
  Z.of_nat (length two_students) = total_seats narrow_hall ∧
  Forall (λ hall, total_capacity hall ≤ grid_capacity hall) narrow_hall ∧
  Exam1.allocate_seats 14 narrow_hall two_students
    = Raise (UnallocatedStudentsError 1) ∧
  University.allocate_seats 14 narrow_hall two_students
    = Raise (UnallocatedStudentsError 1).
Proof.
  split; [reflexivity|]. split; [repeat constructor; vm_compute; discriminate|].
  split; vm_compute; reflexivity.
Qed.

(** C5, amended.  For every input of distinct hall codes whose student
    count equals the sum of rows * cols over all halls and in which every
    hall declares exactly its grid size, [allocate_seats] returns without
    error: in the second allocator when the float share of every hall is the
    exact quotient, in the first allocator when the students have at most
    four course codes. *)
Theorem exact_fit_succeeds fuel halls students :
  NoDup (hall_code <$> halls) →
  Forall (λ hall, total_capacity hall = grid_capacity hall) halls →
  Z.of_nat (length students) = total_seats halls →
  (5 * length students + 4 ≤ fuel)%nat →
  (Forall (exact_share (total_seats halls) (total_seats halls)) halls →
   ∃ st, University.allocate_seats fuel halls students = Done st) ∧
  ((size (distinct_courses students) ≤ 4)%nat →
   ∃ st, Exam1.allocate_seats fuel halls students = Done st).
Proof.
  intros Hnd Hdecl Hfit Hfuel. split.
  - intros Hexact. apply university_exact_fit; try done. lia.
  - intros Hfew. by apply exam1_exact_fit.
Qed.

Lemma exact_fit_succeeds_witness :
  (∃ st, University.allocate_seats 24 two_full_halls four_students = Done st) ∧
  (∃ st, Exam1.allocate_seats 24 two_full_halls four_students = Done st).
Proof.
  destruct (exact_fit_succeeds 24 two_full_halls four_students) as [H2 H1].
  - apply (bool_decide_unpack _). vm_compute. exact I.
  - repeat constructor.
  - vm_compute. reflexivity.
  - vm_compute. lia.
  - split.
    + apply H2. repeat constructor; vm_compute; reflexivity.
    + apply H1. vm_compute. lia.
Defined.

(** Not covered by the amended C5: with a hall of 48 seats and a hall of
    one seat, the float share of the small hall for 49 students,
    [int((1 / 49) * 49)], is 0; the large hall is handed the student left
    over, its target exceeds its grid, and the second and third allocator
    raise on this exact fit. *)
Lemma rounded_share_fails_exact_fit :
  proportional_count 1 49 49 = 0 ∧
  target_of (distribute ∅ two_uneven_halls 49) (demo_hall "A" 6 8 48) = 49 ∧
  University.allocate_seats 49 two_uneven_halls (numbered_students 49)
    = Raise (UnallocatedStudentsError 1) ∧
  UniversityCopy.allocate_seats 101 two_uneven_halls (numbered_students 49)
    = Raise (UnallocatedStudentsError 1).
Proof. repeat split; vm_compute; reflexivity. Qed.

(** * The third allocator, the reports and the course sets *)

(** ** Third allocator: the seats of the loop over the halls *)

Lemma copy_visit_inv queued usable course p :
  copy_pack_inv queued usable p →
  len_lt (UniversityCopy.hall_students p) usable = true →
  copy_pack_inv queued usable (UniversityCopy.visit course p).
Proof.
  intros [Hp Hl] Hlt%len_lt_true. unfold UniversityCopy.visit.
  destruct (dict_get (UniversityCopy.remaining p) course) as [|s rest] eqn:Hg.
  - by destruct (UniversityCopy.future_courses p).
  - split; simpl.
    + rewrite <- Hp, (dict_pop_Permutation _ _ _ _ Hg).
      rewrite <- (assoc_L (++)). done.
    + rewrite length_app. simpl. lia.
Qed.

Lemma copy_cycle_inv queued usable snapshot p :
  copy_pack_inv queued usable p →
  copy_pack_inv queued usable (UniversityCopy.cycle usable snapshot p).
Proof.
  revert p. induction snapshot as [|course snapshot IH]; intros p Hinv; simpl;
    [done|].
  destruct (len_lt _ _) eqn:Hlt; [|done]. by apply IH, copy_visit_inv.
Qed.

Lemma copy_pack_body_inv queued usable p :
  copy_pack_inv queued usable p →
  copy_pack_inv queued usable (UniversityCopy.pack_body usable p).
Proof.
  intros Hinv. unfold UniversityCopy.pack_body.
  pose proof (copy_cycle_inv queued usable (UniversityCopy.current_courses p) p Hinv)
    as Hc.
  by destruct (nonempty _).
Qed.

Lemma copy_allocate_hall_trace fuel courses targets hall st queues st' queues' :
  UniversityCopy.allocate_hall fuel courses targets hall st queues
    = Done (st', queues') →
  ∃ hs, run_trace false (hall_trace hall (serpentine_cols hall) hs) st = Done st'
        ∧ hs ++ concat (queues'.*2) ≡ₚ concat (queues.*2)
        ∧ (length hs ≤ rows hall * cols hall)%nat
        ∧ Z.of_nat (length hs)
            ≤ Z.max 0 (Z.min (usable_seats hall) (target_of targets hall)).
Proof.
  unfold UniversityCopy.allocate_hall, target_of, usable_seats. intros Hrun.
  destruct (targets !! hall_code hall) as [target|]; [|done]. simpl.
  case_decide.
  - simplify_eq. exists []. unfold hall_trace. rewrite trace_of_nil_r.
    repeat split; simpl; try done; lia.
  - done_inv Hrun. rename x into p. done_inv Hrun. simplify_eq.
    set (usable := Z.min _ _) in *.
    eapply (while_inv (copy_pack_inv (concat (queues.*2)) usable))
      in Hrun0 as [[Hp Hl] _].
    + exists (UniversityCopy.hall_students p).
      rewrite <- place_serpentine_trace with (rb := false).
      split; [done|]. split; [done|].
      pose proof (grid_capacity_nonneg hall) as Hg.
      unfold usable in Hl. split; [unfold grid_capacity in *|]; lia.
    + split; simpl; [done|lia].
    + intros p' Hinv _. by apply copy_pack_body_inv.
Qed.

Lemma copy_allocate_halls_trace fuel courses targets halls st queues st' queues' :
  NoDup (hall_code <$> halls) →
  UniversityCopy.allocate_halls fuel courses targets halls st queues
    = Done (st', queues') →
  ∃ trace, run_trace false trace st = Done st' ∧ good_trace halls trace
           ∧ (snd <$> trace) ++ concat (queues'.*2) ≡ₚ concat (queues.*2).
Proof.
  revert st queues.
  induction halls as [|hall halls IH]; intros st queues Hnd Hrun; simpl in Hrun.
  - simplify_eq. exists []. split; [done|]. split; [apply good_trace_nil|done].
  - rewrite fmap_cons in Hnd. apply NoDup_cons in Hnd as [Hcode Hnd].
    done_inv Hrun. destruct x as [st1 queues1].
    apply copy_allocate_hall_trace in Hrun0 as (hs & Hrun1 & Hp1 & Hfit & _).
    apply IH in Hrun as (trace & Hrun2 & Hgood & Hp2); [|done].
    exists (hall_trace hall (serpentine_cols hall) hs ++ trace).
    split; [by rewrite run_trace_app, Hrun1|].
    split; [apply good_trace_cons; [apply serpentine_cols_perm|done..]|].
    rewrite fmap_app, hall_trace_students;
      [|apply serpentine_cols_perm|done].
    by rewrite <- (assoc_L (++)), Hp2.
Qed.

Lemma copy_allocate_seats_passes fuel halls students :
  UniversityCopy.allocate_seats fuel halls students
  = '(st, queues') ← copy_placement_passes fuel halls students;
    let unallocated := count_remaining queues' in
    if decide (0 < unallocated)%nat
    then Raise (UnallocatedStudentsError unallocated)
    else Done st.
Proof.
  unfold UniversityCopy.allocate_seats, copy_placement_passes.
  by destruct (validate_inputs halls students).
Qed.

Lemma copy_success_seated fuel halls students st :
  NoDup (hall_code <$> halls) → NoDup (reg_no <$> students) →
  UniversityCopy.allocate_seats fuel halls students = Done st →
  seated students st.
Proof.
  intros Hcodes Hregs Hrun. unfold UniversityCopy.allocate_seats in Hrun.
  apply outcome_bind_done in Hrun as (_ & _ & Hrun).
  apply outcome_bind_done in Hrun as ([st1 queues] & Hhalls & Hrun).
  case_decide as Hleft; [done|]. simplify_eq.
  assert (concat (queues.*2) = []) as Hnil.
  { apply length_zero_iff_nil. rewrite <- count_remaining_length. lia. }
  apply copy_allocate_halls_trace in Hhalls as (trace & Hrun & [Hin Hcells] & Hp);
    [|done].
  rewrite Hnil, app_nil_r, initial_queues_Permutation in Hp.
  by eapply run_trace_seated.
Qed.

(** ** The students of one hall *)

Lemma seat_taken wd hall r c student st st' code :
  seat wd hall r c student st = Done st' →
  (seats_taken st code ≤ seats_taken st' code)%nat ∧
  (seats_taken st' code
   ≤ seats_taken st code + (if decide (hall_code hall = code) then 1 else 0))%nat.
Proof.
  unfold seat, seats_taken. intros Hseat.
  destruct (hall_seats st !! hall_code hall) as [g|] eqn:Hg; [|done].
  destruct (g !! r) as [line|] eqn:Hr; [|done].
  case_decide as Hc; [|done]. simplify_eq/=.
  case_decide as Hcode.
  - subst code. rewrite lookup_insert_eq, Hg.
    destruct (lookup_lt_is_Some_2 line c Hc) as [o Ho].
    pose proof (count_cells_write is_Some g r c line o (Some (reg_no student)) Hr Ho)
      as Hw.
    rewrite (indicator_True (is_Some (Some (reg_no student)))) in Hw by done.
    change (count_cells is_Some) with occupied in Hw.
    unfold indicator in Hw. case_decide; lia.
  - rewrite lookup_insert_ne by done. lia.
Qed.

Lemma run_trace_taken wd trace st st' code :
  run_trace wd trace st = Done st' →
  (seats_taken st code ≤ seats_taken st' code)%nat ∧
  (seats_taken st' code ≤ seats_taken st code + placed_in code trace)%nat.
Proof.
  unfold placed_in. revert st.
  induction trace as [|[[[hall r] c] s] trace IH]; intros st Hrun; simpl in Hrun.
  - simplify_eq. simpl. lia.
  - done_inv Hrun. rename x into st1.
    destruct (seat_taken _ _ _ _ _ _ _ code Hrun0) as [Hlo Hhi].
    destruct (IH _ Hrun) as [IHlo IHhi].
    rewrite filter_cons. simpl. case_decide; simpl; lia.
Qed.

Lemma placed_in_trace_of hall coords hs code :
  (placed_in code (trace_of hall coords hs)
   ≤ if decide (hall_code hall = code) then length hs else 0)%nat.
Proof.
  unfold placed_in, trace_of. revert hs.
  induction coords as [|rc coords IH]; intros [|s hs]; simpl;
    try (case_decide; lia).
  rewrite filter_cons. simpl. specialize (IH hs).
  repeat case_decide; simpl; try done; lia.
Qed.

Lemma hall_trace_taken wd hall col_range hs st st' code :
  run_trace wd (hall_trace hall col_range hs) st = Done st' →
  (seats_taken st code ≤ seats_taken st' code)%nat ∧
  (seats_taken st' code
   ≤ seats_taken st code + (if decide (hall_code hall = code) then length hs else 0))%nat.
Proof.
  intros Hrun. destruct (run_trace_taken _ _ _ _ code Hrun) as [Hlo Hhi].
  pose proof (placed_in_trace_of hall (coords_of col_range (seq 0 (rows hall))) hs code)
    as Hp.
  unfold hall_trace in Hhi. split; [done|]. lia.
Qed.

Lemma init_taken halls code : seats_taken (init_state halls) code = 0%nat.
Proof.
  unfold seats_taken, init_state. simpl.
  destruct (init_hall_seats halls !! code) as [g|] eqn:Hg; [|done].
  apply init_hall_seats_from in Hg as [Hg|(hall & _ & ->)]; [done|].
  rewrite occupied_count_cells. apply count_cells_replicate. by intros ? [??] ->.
Qed.

Lemma NoDup_fmap_eq {A B} (f : A → B) (l : list A) x y :
  NoDup (f <$> l) → x ∈ l → y ∈ l → f x = f y → x = y.
Proof.
  induction l as [|a l IH]; [by intros _ ?%elem_of_nil|].
  rewrite fmap_cons. intros [Ha Hnd]%NoDup_cons.
  intros [->|Hx]%elem_of_cons [->|Hy]%elem_of_cons Heq; try done.
  - destruct Ha. rewrite Heq. by apply list_elem_of_fmap_2.
  - destruct Ha. rewrite <- Heq. by apply list_elem_of_fmap_2.
  - by apply IH.
Qed.

(** *** Second allocator *)

Lemma university_allocate_hall_taken fuel targets hall st first second
    st' first' second' code :
  University.allocate_hall fuel targets hall st first second
    = Done (st', first', second') →
  (seats_taken st code ≤ seats_taken st' code)%nat ∧
  Z.of_nat (seats_taken st' code)
  ≤ Z.of_nat (seats_taken st code)
    + (if decide (hall_code hall = code)
       then Z.max 0 (Z.min (usable_seats hall) (target_of targets hall)) else 0).
Proof.
  unfold University.allocate_hall, usable_seats. intros Hrun.
  case_decide.
  - simplify_eq. case_decide; lia.
  - done_inv Hrun. rename x into p.
    set (usable := Z.min _ _) in *.
    eapply (while_inv (university_pack_inv (first ++ second) usable))
      in Hrun0 as [[Hp Hl] _].
    + destruct (nonempty (University.hall_students p)).
      * done_inv Hrun. simplify_eq. rewrite place_serpentine_trace in Hrun0.
        destruct (hall_trace_taken _ _ _ _ _ _ code Hrun0) as [Hlo Hhi].
        split; [done|]. unfold usable in Hl. case_decide; lia.
      * simplify_eq. case_decide; lia.
    + split; simpl; [done|lia].
    + intros p' Hinv _. unfold University.pack_body.
      by apply university_take_second_inv, university_take_first_inv.
Qed.

Lemma university_allocate_halls_taken fuel targets halls st first second
    st' first' second' :
  NoDup (hall_code <$> halls) →
  University.allocate_halls fuel targets halls st first second
    = Done (st', first', second') →
  (∀ code, seats_taken st code ≤ seats_taken st' code)%nat ∧
  (∀ hall, hall ∈ halls →
     Z.of_nat (seats_taken st' (hall_code hall))
     ≤ Z.of_nat (seats_taken st (hall_code hall))
       + Z.max 0 (Z.min (usable_seats hall) (target_of targets hall))) ∧
  (∀ code, code ∉ hall_code <$> halls → seats_taken st' code = seats_taken st code).
Proof.
  revert st first second.
  induction halls as [|hall halls IH]; intros st first second Hnd Hrun;
    simpl in Hrun.
  - simplify_eq. split; [done|]. split; [by intros ? ?%elem_of_nil|done].
  - rewrite fmap_cons in Hnd. apply NoDup_cons in Hnd as [Hcode Hnd].
    done_inv Hrun. destruct x as [[st1 first1] second1].
    pose proof (λ code, university_allocate_hall_taken _ _ _ _ _ _ _ _ _ code Hrun0)
      as Hstep.
    destruct (IH _ _ _ Hnd Hrun) as (Hmono & Hin & Hout).
    split; [|split].
    + intros code. destruct (Hstep code) as [? _]. specialize (Hmono code). lia.
    + intros h [->|Hh]%elem_of_cons.
      * rewrite Hout by done. destruct (Hstep (hall_code hall)) as [_ Hhi].
        by rewrite decide_True in Hhi.
      * specialize (Hin h Hh). destruct (Hstep (hall_code h)) as [_ Hhi].
        rewrite decide_False in Hhi; [lia|].
        intros Heq. apply Hcode. rewrite Heq. by apply list_elem_of_fmap_2.
    + intros code [Hne Hn]%not_elem_of_cons. rewrite (Hout code Hn).
      destruct (Hstep code) as [Hlo Hhi]. rewrite decide_False in Hhi by done. lia.
Qed.

(** *** Third allocator *)

Lemma copy_allocate_halls_taken fuel courses targets halls st queues st' queues' :
  NoDup (hall_code <$> halls) →
  UniversityCopy.allocate_halls fuel courses targets halls st queues
    = Done (st', queues') →
  (∀ code, seats_taken st code ≤ seats_taken st' code)%nat ∧
  (∀ hall, hall ∈ halls →
     Z.of_nat (seats_taken st' (hall_code hall))
     ≤ Z.of_nat (seats_taken st (hall_code hall))
       + Z.max 0 (Z.min (usable_seats hall) (target_of targets hall))) ∧
  (∀ code, code ∉ hall_code <$> halls → seats_taken st' code = seats_taken st code).
Proof.
  revert st queues.
  induction halls as [|hall halls IH]; intros st queues Hnd Hrun; simpl in Hrun.
  - simplify_eq. split; [done|]. split; [by intros ? ?%elem_of_nil|done].
  - rewrite fmap_cons in Hnd. apply NoDup_cons in Hnd as [Hcode Hnd].
    done_inv Hrun. destruct x as [st1 queues1].
    apply copy_allocate_hall_trace in Hrun0 as (hs & Hrun1 & _ & _ & Hlen).
    pose proof (λ code, hall_trace_taken _ _ _ _ _ _ code Hrun1) as Hstep.
    destruct (IH _ _ Hnd Hrun) as (Hmono & Hin & Hout).
    split; [|split].
    + intros code. destruct (Hstep code) as [? _]. specialize (Hmono code). lia.
    + intros h [->|Hh]%elem_of_cons.
      * rewrite Hout by done. destruct (Hstep (hall_code hall)) as [_ Hhi].
        rewrite decide_True in Hhi by done. lia.
      * specialize (Hin h Hh). destruct (Hstep (hall_code h)) as [_ Hhi].
        rewrite decide_False in Hhi; [lia|].
        intros Heq. apply Hcode. rewrite Heq. by apply list_elem_of_fmap_2.
    + intros code [Hne Hn]%not_elem_of_cons. rewrite (Hout code Hn).
      destruct (Hstep code) as [Hlo Hhi]. rewrite decide_False in Hhi by done. lia.
Qed.

(** *** First allocator *)

Lemma exam1_first_pass_hall_taken fuel courses hall st remaining st' remaining' code :
  Exam1.first_pass_hall fuel courses hall st remaining = Done (st', remaining') →
  (seats_taken st code ≤ seats_taken st' code)%nat ∧
  Z.of_nat (seats_taken st' code)
  ≤ Z.of_nat (seats_taken st code)
    + (if decide (hall_code hall = code) then Z.max 0 (usable_seats hall) else 0).
Proof.
  unfold Exam1.first_pass_hall. intros Hrun. done_inv Hrun.
  destruct x as [p|].
  - done_inv Hrun. simplify_eq.
    apply exam1_pack_hall_inv in Hrun0 as [Hp Hl].
    rewrite place_row_major_trace in Hrun1.
    destruct (hall_trace_taken _ _ _ _ _ _ code Hrun1) as [Hlo Hhi].
    split; [done|].
    assert (length (sorted reg_leb (Exam1.hall_students p))
            = length (Exam1.hall_students p)) as Hlen
      by (by rewrite sorted_Permutation).
    rewrite Hlen in Hhi. unfold usable_seats. case_decide; lia.
  - simplify_eq. case_decide; lia.
Qed.

Lemma exam1_first_pass_taken fuel courses halls st remaining st' remaining' :
  NoDup (hall_code <$> halls) →
  Exam1.first_pass fuel courses halls st remaining = Done (st', remaining') →
  (∀ code, seats_taken st code ≤ seats_taken st' code)%nat ∧
  (∀ hall, hall ∈ halls →
     Z.of_nat (seats_taken st' (hall_code hall))
     ≤ Z.of_nat (seats_taken st (hall_code hall)) + Z.max 0 (usable_seats hall)) ∧
  (∀ code, code ∉ hall_code <$> halls → seats_taken st' code = seats_taken st code).
Proof.
  revert st remaining.
  induction halls as [|hall halls IH]; intros st remaining Hnd Hrun; simpl in Hrun.
  - simplify_eq. split; [done|]. split; [by intros ? ?%elem_of_nil|done].
  - rewrite fmap_cons in Hnd. apply NoDup_cons in Hnd as [Hcode Hnd].
    done_inv Hrun. destruct x as [st1 remaining1].
    pose proof (λ code, exam1_first_pass_hall_taken _ _ _ _ _ _ _ code Hrun0)
      as Hstep.
    destruct (IH _ _ Hnd Hrun) as (Hmono & Hin & Hout).
    split; [|split].
    + intros code. destruct (Hstep code) as [? _]. specialize (Hmono code). lia.
    + intros h [->|Hh]%elem_of_cons.
      * rewrite Hout by done. destruct (Hstep (hall_code hall)) as [_ Hhi].
        by rewrite decide_True in Hhi.
      * specialize (Hin h Hh). destruct (Hstep (hall_code h)) as [_ Hhi].
        rewrite decide_False in Hhi; [lia|].
        intros Heq. apply Hcode. rewrite Heq. by apply list_elem_of_fmap_2.
    + intros code [Hne Hn]%not_elem_of_cons. rewrite (Hout code Hn).
      destruct (Hstep code) as [Hlo Hhi]. rewrite decide_False in Hhi by done. lia.
Qed.

Lemma exam1_seat_first_free_taken hall coords student st st' code :
  Exam1.seat_first_free hall coords student st = Done st' →
  (seats_taken st code ≤ seats_taken st' code)%nat ∧
  (seats_taken st' code
   ≤ seats_taken st code + (if decide (hall_code hall = code) then 1 else 0))%nat.
Proof.
  induction coords as [|[r c] coords IH]; simpl; intros Hrun.
  - simplify_eq. case_decide; lia.
  - done_inv Hrun. destruct x as [reg|]; [by apply IH|].
    by eapply seat_taken.
Qed.

Lemma exam1_seat_unallocated_taken hall n unallocated st unallocated' st' code :
  Exam1.seat_unallocated hall n unallocated st = Done (unallocated', st') →
  (seats_taken st code ≤ seats_taken st' code)%nat ∧
  (seats_taken st' code
   ≤ seats_taken st code + (if decide (hall_code hall = code) then n else 0))%nat.
Proof.
  revert unallocated st.
  induction n as [|n IH]; intros [|s unallocated] st Hrun; simpl in Hrun;
    try (simplify_eq; case_decide; lia).
  done_inv Hrun. rename x into st1.
  destruct (exam1_seat_first_free_taken _ _ _ _ _ code Hrun0) as [Hlo Hhi].
  destruct (IH _ _ Hrun) as [IHlo IHhi].
  case_decide; lia.
Qed.

Lemma exam1_second_pass_halls_capacity all halls unallocated st st' :
  NoDup (hall_code <$> all) → halls ⊆ all →
  within_capacity all st →
  Exam1.second_pass_halls halls unallocated st = Done st' →
  within_capacity all st'.
Proof.
  intros Hnd. revert unallocated st.
  induction halls as [|hall halls IH]; intros unallocated st Hsub Hcap Hrun;
    simpl in Hrun; [by simplify_eq|].
  assert (hall ∈ all) as Hhall by (apply Hsub; left).
  assert (halls ⊆ all) as Hsub' by (intros h Hh; apply Hsub; by right).
  destruct (hall_seats st !! hall_code hall) as [g|] eqn:Hg; [|done].
  destruct (bool_decide _ && nonempty unallocated) eqn:Hcond;
    [|by eapply IH].
  apply andb_true_iff in Hcond as [Hfree%bool_decide_eq_true _].
  done_inv Hrun. destruct x as [unallocated1 st1].
  eapply IH; [done| |done].
  intros h Hh.
  destruct (exam1_seat_unallocated_taken _ _ _ _ _ _ (hall_code h) Hrun0)
    as [_ Hhi].
  case_decide as Hcode.
  - assert (h = hall) as -> by (by eapply (NoDup_fmap_eq hall_code all)).
    unfold seats_taken in Hhi at 2. rewrite Hg in Hhi.
    fold (usable_seats hall) in *. lia.
  - specialize (Hcap h Hh). lia.
Qed.

Lemma exam1_placement_capacity fuel halls students st remaining :
  NoDup (hall_code <$> halls) →
  Exam1.placement_passes fuel halls students = Done (st, remaining) →
  within_capacity halls st.
Proof.
  intros Hnd Hrun. unfold Exam1.placement_passes in Hrun.
  apply outcome_bind_done in Hrun as (_ & _ & Hrun).
  apply outcome_bind_done in Hrun as ([st0 remaining0] & Hfirst & Hrun).
  apply outcome_bind_done in Hrun as (st2 & Hsecond & Hrun). simplify_eq.
  apply exam1_first_pass_taken in Hfirst as (_ & Hin & _); [|done].
  assert (within_capacity halls st0) as Hcap.
  { intros h Hh. specialize (Hin h Hh). rewrite init_taken in Hin. lia. }
  unfold Exam1.second_pass in Hsecond.
  destruct (nonempty _); [|by simplify_eq].
  by eapply exam1_second_pass_halls_capacity.
Qed.

Lemma university_placement_targets fuel halls students st first second :
  NoDup (hall_code <$> halls) →
  University.placement_passes fuel halls students = Done (st, first, second) →
  within_targets
    (distribute ∅ (University.halls_to_use halls (Z.of_nat (length students)))
       (Z.of_nat (length students)))
    (University.halls_to_use halls (Z.of_nat (length students))) st
  ∧ ∀ hall, hall ∈ halls →
      hall ∉ University.halls_to_use halls (Z.of_nat (length students)) →
      seats_taken st (hall_code hall) = 0%nat.
Proof.
  intros Hnd Hrun. unfold University.placement_passes in Hrun.
  apply outcome_bind_done in Hrun as (_ & _ & Hrun).
  apply outcome_bind_done in Hrun as (selected & Hsel & Hrun).
  unfold University.select_halls in Hsel. case_decide; [done|]. simplify_eq.
  set (N := Z.of_nat (length students)) in *.
  set (selected := University.halls_to_use halls N) in *.
  assert (selected `sublist_of` halls) as Hsub by apply sublist_filter.
  apply university_allocate_halls_taken in Hrun as (_ & Hin & Hout).
  2: { eapply sublist_NoDup; [exact Hnd|]. by apply fmap_sublist. }
  split.
  - intros h Hh. specialize (Hin h Hh). rewrite init_taken in Hin. lia.
  - intros h Hh Hnot. rewrite Hout; [apply init_taken|].
    intros (h' & Hcode & Hh')%list_elem_of_fmap. apply Hnot.
    assert (h = h') as ->; [|done].
    eapply (NoDup_fmap_eq hall_code halls); try done.
    by eapply elem_of_sublist.
Qed.

Lemma distribute_outside d0 halls total_students hall :
  NoDup (hall_code <$> halls) →
  hall_code hall ∉ hall_code <$> halls →
  target_of (distribute d0 halls total_students) hall = target_of d0 hall.
Proof.
  intros Hnd Hout. unfold distribute.
  destruct (proportional_counts_spec (total_seats halls) total_students halls d0 0 Hnd)
    as (targets1 & -> & _ & Hout1).
  destruct (spread_remainder_spec halls targets1
              (total_students - (0 + sum_shares (total_seats halls) total_students halls))
              Hnd) as (_ & _ & Hout2).
  by rewrite Hout2, Hout1.
Qed.

Lemma copy_selected_prefix halls total_students :
  copy_selected_halls halls total_students `prefix_of` halls.
Proof.
  unfold copy_selected_halls.
  destruct (copy_select_halls_spec (UniversityCopy.required_seats total_students)
              halls [] 0) as (taken & -> & Hp).
  done.
Qed.

Lemma copy_unselected_target halls total_students hall :
  NoDup (hall_code <$> halls) → hall ∈ halls →
  hall ∉ copy_selected_halls halls total_students →
  target_of (UniversityCopy.students_per_hall halls total_students) hall = 0.
Proof.
  intros Hnd Hhall Hnot. unfold UniversityCopy.students_per_hall.
  pose proof (copy_selected_prefix halls total_students) as Hp.
  unfold copy_selected_halls in *.
  destruct (UniversityCopy.select_halls _ _ _ _) as [selected capacity].
  simpl in *. case_decide; [|apply zero_targets_target].
  assert (selected `sublist_of` halls) as Hsub.
  { destruct Hp as [k ->]. by apply sublist_inserts_r. }
  rewrite distribute_outside; [apply zero_targets_target| |].
  - eapply sublist_NoDup; [exact Hnd|]. by apply fmap_sublist.
  - intros (h' & Hcode & Hh')%list_elem_of_fmap. apply Hnot.
    assert (hall = h') as ->; [|done].
    eapply (NoDup_fmap_eq hall_code halls); try done.
    by eapply elem_of_sublist.
Qed.

Lemma copy_placement_targets fuel halls students st queues :
  NoDup (hall_code <$> halls) →
  copy_placement_passes fuel halls students = Done (st, queues) →
  within_targets
    (UniversityCopy.students_per_hall halls (Z.of_nat (length students))) halls st.
Proof.
  intros Hnd Hrun. unfold copy_placement_passes in Hrun.
  apply outcome_bind_done in Hrun as (_ & _ & Hrun).
  apply copy_allocate_halls_taken in Hrun as (_ & Hin & _); [|done].
  intros h Hh. specialize (Hin h Hh). rewrite init_taken in Hin. lia.
Qed.

Lemma copy_allocate_halls_raise fuel courses targets halls st queues e :
  UniversityCopy.allocate_halls fuel courses targets halls st queues = Raise e →
  lookup_error e.
Proof.
  revert st queues.
  induction halls as [|hall halls IH]; intros st queues; simpl; [done|].
  destruct (UniversityCopy.allocate_hall _ _ _ _ _ _) as [[??]|e'|] eqn:Hhall;
    simpl; [by apply IH| |done].
  intros [= <-]. unfold UniversityCopy.allocate_hall in Hhall.
  destruct (targets !! hall_code hall); [|simplify_eq; by left].
  case_decide; [done|].
  destruct (while _ _ _ _) as [p|e''|] eqn:Hw; simpl in Hhall;
    [|by apply while_raise in Hw|done].
  rewrite place_serpentine_trace in Hhall.
  destruct (run_trace _ _ _) eqn:Hrun; simpl in Hhall; simplify_eq.
  by eapply run_trace_raise.
Qed.

Lemma validate_inputs_raise halls students e :
  validate_inputs halls students = Raise e → e = CapacityError.
Proof.
  unfold validate_inputs.
  destruct (check_halls_spec halls) as [[_ ->]|[_ ->]]; simpl.
  - congruence.
  - case_decide; congruence.
Qed.

Lemma university_placement_raise fuel halls students e :
  University.placement_passes fuel halls students = Raise e →
  ∀ n, e ≠ UnallocatedStudentsError n.
Proof.
  unfold University.placement_passes. intros Hrun n ->.
  destruct (validate_inputs halls students) eqn:Hv; simpl in Hrun;
    [|by apply validate_inputs_raise in Hv; simplify_eq|done].
  unfold University.select_halls in Hrun. case_decide; [done|]. simpl in Hrun.
  by apply university_allocate_halls_raise in Hrun as [?|?].
Qed.

Lemma copy_placement_raise fuel halls students e :
  copy_placement_passes fuel halls students = Raise e →
  ∀ n, e ≠ UnallocatedStudentsError n.
Proof.
  unfold copy_placement_passes. intros Hrun n ->.
  destruct (validate_inputs halls students) eqn:Hv; simpl in Hrun;
    [|by apply validate_inputs_raise in Hv; simplify_eq|done].
  by apply copy_allocate_halls_raise in Hrun as [?|?].
Qed.

Lemma university_placement_count fuel halls students st first second :
  NoDup (hall_code <$> halls) → NoDup (reg_no <$> students) →
  University.placement_passes fuel halls students = Done (st, first, second) →
  (occupied_cells (hall_seats st) + length (first ++ second) = length students)%nat.
Proof.
  intros Hcodes Hregs Hrun. unfold University.placement_passes in Hrun.
  apply outcome_bind_done in Hrun as (_ & _ & Hrun).
  apply outcome_bind_done in Hrun as (selected & Hsel & Hrun).
  unfold University.select_halls in Hsel. case_decide; [done|]. simplify_eq.
  set (selected := University.halls_to_use _ _) in *.
  assert (selected `sublist_of` halls) as Hsub by apply sublist_filter.
  apply university_allocate_halls_trace in Hrun
    as (trace & Hrun & [Hin Hcells] & Hp).
  2: { eapply sublist_NoDup; [exact Hcodes|]. by apply fmap_sublist. }
  rewrite take_drop in Hp.
  destruct (run_trace_traced false halls trace [] (init_state halls))
    as (st' & Hrun' & Htr & _); try done.
  - apply init_traced.
  - by apply init_shaped.
  - eapply Forall_impl; [exact Hin|]. intros p (Hp1 & ? & ?).
    split; [|done]. by eapply elem_of_sublist.
  - simpl. rewrite placed_reg_students.
    assert (NoDup (reg_no <$> ((snd <$> trace) ++ first ++ second))) as Hnd'
      by (by rewrite Hp).
    rewrite fmap_app in Hnd'. by apply NoDup_app in Hnd' as [? _].
  - rewrite Hrun in Hrun'. simplify_eq. simpl in Htr.
    rewrite (tr_occupied _ _ Htr).
    apply Permutation_length in Hp. rewrite length_app, length_fmap in Hp. done.
Qed.

Lemma copy_placement_count fuel halls students st queues :
  NoDup (hall_code <$> halls) → NoDup (reg_no <$> students) →
  copy_placement_passes fuel halls students = Done (st, queues) →
  (occupied_cells (hall_seats st) + count_remaining queues = length students)%nat.
Proof.
  intros Hcodes Hregs Hrun. unfold copy_placement_passes in Hrun.
  apply outcome_bind_done in Hrun as (_ & _ & Hrun).
  apply copy_allocate_halls_trace in Hrun as (trace & Hrun & [Hin Hcells] & Hp);
    [|done].
  rewrite initial_queues_Permutation in Hp.
  destruct (run_trace_traced false halls trace [] (init_state halls))
    as (st' & Hrun' & Htr & _); try done.
  - apply init_traced.
  - by apply init_shaped.
  - simpl. rewrite placed_reg_students.
    assert (NoDup (reg_no <$> ((snd <$> trace) ++ concat (queues.*2)))) as Hnd'
      by (by rewrite Hp).
    rewrite fmap_app in Hnd'. by apply NoDup_app in Hnd' as [? _].
  - rewrite Hrun in Hrun'. simplify_eq. simpl in Htr.
    rewrite (tr_occupied _ _ Htr), count_remaining_length.
    apply Permutation_length in Hp. rewrite length_app, length_fmap in Hp. done.
Qed.

(** ** The third allocator seats each student once *)

(** X1. On every input with distinct registration numbers and distinct hall
    codes on which [allocate_seats] of the third allocator returns, the
    grids hold as many students as there are, and every student is in
    exactly one cell. *)
Theorem third_allocator_seats_each_student_once fuel halls students st :
  NoDup (hall_code <$> halls) →
  NoDup (reg_no <$> students) →
  UniversityCopy.allocate_seats fuel halls students = Done st →
  all_seated_once students st.
Proof.
  intros Hcodes Hregs Hrun. apply seated_all_seated_once.
  by eapply copy_success_seated.
Qed.

Lemma third_allocator_seats_each_student_once_witness :
  all_seated_once demo_students
    (state_of (UniversityCopy.allocate_seats 11 demo_halls demo_students) demo_halls).
Proof.
  apply (third_allocator_seats_each_student_once 11 demo_halls demo_students).
  - apply (bool_decide_unpack _). vm_compute. exact I.
  - apply (bool_decide_unpack _). vm_compute. exact I.
  - vm_compute. reflexivity.
Defined.

(** X2. On every such input on which [allocate_seats] of the third
    allocator returns, the entry of a student in [allocations] gives the
    1-based row and column of the cell that holds the student, and every
    occupied cell has such an entry. *)
Theorem third_allocator_ledger_matches_grid fuel halls students st :
  NoDup (hall_code <$> halls) →
  NoDup (reg_no <$> students) →
  UniversityCopy.allocate_seats fuel halls students = Done st →
  ledger_in_grid st ∧ grid_in_ledger st.
Proof.
  intros Hcodes Hregs Hrun.
  destruct (copy_success_seated fuel halls students st) as (t & Htr & _);
    try done.
  split; [apply (tr_ledger _ _ Htr)|apply (tr_grid _ _ Htr)].
Qed.

Lemma third_allocator_ledger_matches_grid_witness :
  let st := state_of (UniversityCopy.allocate_seats 11 demo_halls demo_students)
              demo_halls in
  ledger_in_grid st ∧ grid_in_ledger st.
Proof.
  apply (third_allocator_ledger_matches_grid 11 demo_halls demo_students).
  - apply (bool_decide_unpack _). vm_compute. exact I.
  - apply (bool_decide_unpack _). vm_compute. exact I.
  - vm_compute. reflexivity.
Defined.

(** ** The closing checks of the second and third allocator *)

(** X3. In the second and in the third allocator (distinct hall codes and
    registration numbers), [allocate_seats] raises "could not allocate"
    with the count [n] exactly when the placement came to its end leaving
    [n > 0] students without a cell: the cells occupied and [n] add up to
    the number of students. *)
Theorem unallocated_error_counts_unseated_students fuel halls students n :
  NoDup (hall_code <$> halls) →
  NoDup (reg_no <$> students) →
  (University.allocate_seats fuel halls students
     = Raise (UnallocatedStudentsError n)
   ↔ ∃ st first second,
       University.placement_passes fuel halls students = Done (st, first, second)
       ∧ (0 < n)%nat
       ∧ (occupied_cells (hall_seats st) + n = length students)%nat) ∧
  (UniversityCopy.allocate_seats fuel halls students
     = Raise (UnallocatedStudentsError n)
   ↔ ∃ st queues,
       copy_placement_passes fuel halls students = Done (st, queues)
       ∧ (0 < n)%nat
       ∧ (occupied_cells (hall_seats st) + n = length students)%nat).
Proof.
  intros Hcodes Hregs. split.
  - unfold University.allocate_seats.
    destruct (University.placement_passes fuel halls students)
      as [[[st first] second]|e|] eqn:Hpass; simpl.
    + pose proof (university_placement_count _ _ _ _ _ _ Hcodes Hregs Hpass)
        as Hcount.
      destruct (first ++ second) as [|s rest] eqn:Hrem; simpl.
      * split; [done|]. intros (? & ? & ? & ? & ? & ?). simplify_eq.
        simpl in *. lia.
      * split.
        -- intros [= <-]. exists st, first, second. split; [done|].
           simpl in *. split; lia.
        -- intros (? & ? & ? & ? & ? & ?). simplify_eq. simpl in *.
           do 2 f_equal. lia.
    + split; [|by intros (? & ? & ? & ? & _)].
      intros [= ->]. by eapply university_placement_raise in Hpass.
    + split; [done|by intros (? & ? & ? & ? & _)].
  - rewrite copy_allocate_seats_passes.
    destruct (copy_placement_passes fuel halls students)
      as [[st queues]|e|] eqn:Hpass; simpl.
    + pose proof (copy_placement_count _ _ _ _ _ Hcodes Hregs Hpass) as Hcount.
      case_decide.
      * split.
        -- intros [= <-]. exists st, queues. split; [done|]. split; lia.
        -- intros (? & ? & ? & ? & ?). simplify_eq. do 2 f_equal. lia.
      * split; [done|]. intros (? & ? & ? & ? & ?). simplify_eq. lia.
    + split; [|by intros (? & ? & ? & _)].
      intros [= ->]. by eapply copy_placement_raise in Hpass.
    + split; [done|by intros (? & ? & ? & _)].
Qed.

Lemma unallocated_error_counts_unseated_students_witness :
  University.allocate_seats 8 narrow_hall two_students
    = Raise (UnallocatedStudentsError 1) ∧
  UniversityCopy.allocate_seats 8 narrow_hall two_students
    = Raise (UnallocatedStudentsError 1).
Proof.
  pose proof (unallocated_error_counts_unseated_students 8 narrow_hall
                two_students 1) as Hthm.
  destruct Hthm as [H1 H2].
  - apply (bool_decide_unpack _). vm_compute. exact I.
  - apply (bool_decide_unpack _). vm_compute. exact I.
  - split.
    + apply H1. eexists _, _, _. split; [vm_compute; reflexivity|].
      split; [lia|]. vm_compute. reflexivity.
    + apply H2. eexists _, _. split; [vm_compute; reflexivity|].
      split; [lia|]. vm_compute. reflexivity.
Defined.

(** ** No hall is overfilled *)

(** X4. In the first allocator (distinct hall codes), after the two
    placement passes, and so after every run that returns, no hall holds
    more students than the smaller of its declared capacity and its
    grid. *)
Theorem first_allocator_keeps_declared_capacity fuel halls students :
  NoDup (hall_code <$> halls) →
  (∀ st remaining,
     Exam1.placement_passes fuel halls students = Done (st, remaining) →
     within_capacity halls st) ∧
  (∀ st, Exam1.allocate_seats fuel halls students = Done st →
     within_capacity halls st).
Proof.
  intros Hcodes. split.
  - intros st remaining Hrun. by eapply exam1_placement_capacity.
  - intros st Hrun. unfold Exam1.allocate_seats in Hrun.
    apply outcome_bind_done in Hrun as ([st1 remaining] & Hpass & Hrun).
    case_decide; [done|]. simplify_eq. by eapply exam1_placement_capacity.
Qed.

Lemma first_allocator_keeps_declared_capacity_witness :
  within_capacity demo_halls
    (state_of (Exam1.allocate_seats 8 demo_halls demo_students) demo_halls).
Proof.
  pose proof (first_allocator_keeps_declared_capacity 8 demo_halls demo_students)
    as Hthm.
  destruct Hthm as [_ H2].
  - apply (bool_decide_unpack _). vm_compute. exact I.
  - apply H2. vm_compute. reflexivity.
Defined.

(** X5. In the second and in the third allocator (distinct hall codes),
    when the placement comes to its end, no hall holds more students than
    its proportional target, its declared capacity or its grid. *)
Theorem halls_hold_at_most_their_target fuel halls students :
  NoDup (hall_code <$> halls) →
  let total_students := Z.of_nat (length students) in
  (∀ st first second,
     University.placement_passes fuel halls students = Done (st, first, second) →
     within_targets
       (distribute ∅ (University.halls_to_use halls total_students) total_students)
       (University.halls_to_use halls total_students) st) ∧
  (∀ st queues,
     copy_placement_passes fuel halls students = Done (st, queues) →
     within_targets (UniversityCopy.students_per_hall halls total_students) halls st).
Proof.
  intros Hcodes N. split.
  - intros st first second Hrun.
    by apply university_placement_targets in Hrun as [? _].
  - intros st queues Hrun. by eapply copy_placement_targets.
Qed.

Lemma halls_hold_at_most_their_target_witness :
  within_targets
    (distribute ∅ (University.halls_to_use demo_halls 4) 4)
    (University.halls_to_use demo_halls 4)
    (result_of (University.placement_passes 8 demo_halls demo_students)
       (init_state demo_halls, [], [])).1.1 ∧
  within_targets (UniversityCopy.students_per_hall demo_halls 4) demo_halls
    (result_of (copy_placement_passes 11 demo_halls demo_students)
       (init_state demo_halls, [])).1.
Proof.
  pose proof (halls_hold_at_most_their_target 11 demo_halls demo_students) as Hthm.
  destruct Hthm as [H1 H2].
  - apply (bool_decide_unpack _). vm_compute. exact I.
  - split.
    + eapply H1. vm_compute. reflexivity.
    + eapply H2. vm_compute. reflexivity.
Defined.

(** X6. In the second and in the third allocator (distinct hall codes),
    a hall that the selection leaves out keeps an empty grid. *)
Theorem unselected_halls_stay_empty fuel halls students hall :
  NoDup (hall_code <$> halls) →
  hall ∈ halls →
  let total_students := Z.of_nat (length students) in
  (∀ st first second,
     University.placement_passes fuel halls students = Done (st, first, second) →
     hall ∉ University.halls_to_use halls total_students →
     seats_taken st (hall_code hall) = 0%nat) ∧
  (∀ st queues,
     copy_placement_passes fuel halls students = Done (st, queues) →
     hall ∉ copy_selected_halls halls total_students →
     seats_taken st (hall_code hall) = 0%nat).
Proof.
  intros Hcodes Hhall N. split.
  - intros st first second Hrun Hnot.
    apply university_placement_targets in Hrun as [_ Hout]; [|done].
    by apply Hout.
  - intros st queues Hrun Hnot.
    pose proof (copy_placement_targets _ _ _ _ _ Hcodes Hrun hall Hhall) as Hle.
    rewrite copy_unselected_target in Hle by done. lia.
Qed.

Lemma unselected_halls_stay_empty_witness :
  seats_taken
    (result_of (University.placement_passes 8 large_and_small_hall two_students)
       (init_state [], [], [])).1.1 "B" = 0%nat ∧
  seats_taken
    (result_of (copy_placement_passes 8 large_and_small_hall two_students)
       (init_state [], [])).1 "B" = 0%nat.
Proof.
  pose proof (unselected_halls_stay_empty 8 large_and_small_hall two_students
                (demo_hall "B" 1 2 2)) as Hthm.
  destruct Hthm as [H1 H2].
  - apply (bool_decide_unpack _). vm_compute. exact I.
  - apply (bool_decide_unpack _). vm_compute. exact I.
  - split.
    + eapply H1; [vm_compute; reflexivity|].
      apply (bool_decide_unpack _). vm_compute. exact I.
    + eapply H2; [vm_compute; reflexivity|].
      apply (bool_decide_unpack _). vm_compute. exact I.
Defined.

(** ** The course grouper *)

Lemma string_compare_refl (s : string) : String.compare s s = Eq.
Proof.
  pose proof (String.compare_antisym s s) as H.
  by destruct (String.compare s s).
Qed.

Lemma ascii_compare_lt_trans (a b c : ascii) :
  Ascii.compare a b = Lt → Ascii.compare b c = Lt → Ascii.compare a c = Lt.
Proof.
  unfold Ascii.compare. rewrite !N.compare_lt_iff. lia.
Qed.

Lemma string_compare_lt_trans (s1 s2 s3 : string) :
  String.compare s1 s2 = Lt → String.compare s2 s3 = Lt →
  String.compare s1 s3 = Lt.
Proof.
  revert s2 s3. induction s1 as [|a s1 IH]; intros [|b s2] [|c s3]; simpl;
    try done.
  destruct (Ascii.compare a b) eqn:Hab; try done;
    destruct (Ascii.compare b c) eqn:Hbc; try done.
  - apply Ascii.compare_eq_iff in Hab as ->, Hbc as ->.
    assert (Ascii.compare c c = Eq) as ->.
    { unfold Ascii.compare. apply N.compare_refl. }
    apply IH.
  - apply Ascii.compare_eq_iff in Hab as ->. by rewrite Hbc.
  - apply Ascii.compare_eq_iff in Hbc as <-. by rewrite Hab.
  - by rewrite (ascii_compare_lt_trans a b c).
Qed.

Lemma string_leb_compare (s1 s2 : string) :
  String.leb s1 s2 = true ↔ String.compare s1 s2 ≠ Gt.
Proof. unfold String.leb. by destruct (String.compare s1 s2). Qed.

Lemma string_leb_trans (s1 s2 s3 : string) :
  String.leb s1 s2 = true → String.leb s2 s3 = true → String.leb s1 s3 = true.
Proof.
  rewrite !string_leb_compare.
  destruct (String.compare s1 s2) eqn:H12; [|
    destruct (String.compare s2 s3) eqn:H23|done]; intros _ H; try done.
  - apply String.compare_eq_iff in H12 as ->. done.
  - apply String.compare_eq_iff in H23 as <-. by rewrite H12.
  - by rewrite (string_compare_lt_trans s1 s2 s3).
Qed.

Lemma course_reg_leb_total s1 s2 :
  course_reg_leb s1 s2 = false → course_reg_leb s2 s1 = true.
Proof.
  unfold course_reg_leb.
  rewrite (String.compare_antisym (course_code s2) (course_code s1)).
  destruct (String.compare (course_code s1) (course_code s2)); simpl; try done.
  intros H. destruct (String.leb_total (reg_no s1) (reg_no s2)); congruence.
Qed.

Lemma course_reg_le_trans : Relations_1.Transitive course_reg_le.
Proof.
  intros s1 s2 s3. unfold course_reg_le, course_reg_leb.
  destruct (String.compare (course_code s1) (course_code s2)) eqn:H12; [| |done];
    (destruct (String.compare (course_code s2) (course_code s3)) eqn:H23;
       [| |done]); intros Hr1 Hr2.
  - apply String.compare_eq_iff in H12, H23. rewrite H12, H23.
    rewrite string_compare_refl. by eapply string_leb_trans.
  - apply String.compare_eq_iff in H12. by rewrite H12, H23.
  - apply String.compare_eq_iff in H23. by rewrite <- H23, H12.
  - by rewrite (string_compare_lt_trans _ _ _ H12 H23).
Qed.

Lemma group_by_course_get (l : list Student) c :
  dict_get (group_by_course l) c = filter (λ s, course_code s = c) l.
Proof.
  unfold group_by_course.
  assert (∀ d : Queues,
    dict_get (foldl (λ d s, dict_set d (course_code s)
                               (dict_get d (course_code s) ++ [s])) d l) c
    = dict_get d c ++ filter (λ s, course_code s = c) l) as Hgen.
  { induction l as [|s l IH]; intros d; simpl; [by rewrite app_nil_r|].
    rewrite IH, dict_get_set, filter_cons.
    destruct (decide (c = course_code s)) as [->|Hne].
    - rewrite decide_True by done. by rewrite <- (assoc_L (++)).
    - rewrite decide_False by done. done. }
  apply (Hgen []).
Qed.

Lemma group_by_course_keys (l : list Student) k :
  k ∈ (group_by_course l).*1 ↔ k ∈ course_code <$> l.
Proof.
  split; [apply group_by_course_keys_subset|].
  intros (s & -> & Hs)%list_elem_of_fmap.
  apply dict_get_present. rewrite group_by_course_get.
  intros Hnil. assert (s ∈ filter (λ s', course_code s' = course_code s) l) as Hin
    by (by apply list_elem_of_filter).
  rewrite Hnil in Hin. by apply elem_of_nil in Hin.
Qed.

Lemma dict_get_fmap (f : string → list Student) (courses : list string) c :
  dict_get ((λ c, (c, f c)) <$> courses) c = if decide (c ∈ courses) then f c else [].
Proof.
  induction courses as [|c' courses IH]; csimpl.
  - done.
  - destruct (decide (c = c')) as [->|Hne].
    + clear IH. case_decide as Hin; [done|]. destruct Hin. by left.
    + rewrite IH. clear IH. do 2 case_decide; try done.
      * exfalso. set_solver.
      * exfalso. set_solver.
Qed.

Lemma StronglySorted_filter {A} (R : A → A → Prop) (P : A → Prop)
    `{!∀ x, Decision (P x)} (l : list A) :
  StronglySorted R l → StronglySorted R (filter P l).
Proof.
  induction 1 as [|x l Hl IH Hall]; [constructor|].
  rewrite filter_cons. case_decide; [|done].
  constructor; [done|]. rewrite Forall_forall in Hall |- *.
  intros y [_ Hy]%list_elem_of_filter. by apply Hall.
Qed.

Lemma StronglySorted_impl {A} (R R' : A → A → Prop) (P : A → Prop) (l : list A) :
  (∀ x y, P x → P y → R x y → R' x y) → Forall P l →
  StronglySorted R l → StronglySorted R' l.
Proof.
  intros Himpl HP. induction 1 as [|x l Hl IH Hall]; [constructor|].
  apply Forall_cons in HP as [Hx HP].
  constructor; [by apply IH|].
  rewrite Forall_forall in Hall, HP |- *. intros y Hy.
  apply Himpl; [done|by apply HP|by apply Hall].
Qed.

Lemma Sorted_weaken {A} (R R' : A → A → Prop) (l : list A) :
  (∀ x y, R x y → R' x y) → Sorted R l → Sorted R' l.
Proof.
  intros Himpl. induction 1 as [|x l Hl IH Hhd]; constructor; [done|].
  destruct Hhd; constructor. by apply Himpl.
Qed.

Lemma initial_queues_get (students : list Student) c :
  let students_by_course := group_by_course (sorted course_reg_leb students) in
  dict_get (queues_of students_by_course (courses_by_size students_by_course)) c
  = filter (λ s, course_code s = c) (sorted course_reg_leb students).
Proof.
  intros d.
  destruct (group_by_course_facts (sorted course_reg_leb students)) as [_ Hnd].
  fold d in Hnd.
  assert (courses_by_size d ≡ₚ d.*1) as Hc by apply sorted_Permutation.
  rewrite queues_of_facts by (by rewrite Hc).
  rewrite dict_get_fmap. case_decide as Hin; [apply group_by_course_get|].
  rewrite Hc in Hin. rewrite <- (group_by_course_get _ c).
  fold d. by rewrite dict_get_absent.
Qed.

(** X7. The course grouper of the first and third allocator: the courses
    of the queues are the course codes of the students, each once and
    ranked by queue size, largest first; the queue of a course holds
    exactly the students of that course, as the sort by
    [(course_code, reg_no)] orders them, so in ascending order of their
    registration numbers as strings. *)
Theorem course_queues_partition_students (students : list Student) :
  let students_sorted := sorted course_reg_leb students in
  let students_by_course := group_by_course students_sorted in
  let courses := courses_by_size students_by_course in
  let queues := queues_of students_by_course courses in
  NoDup courses ∧
  (∀ c, c ∈ courses ↔ c ∈ course_code <$> students) ∧
  Sorted (larger_first queues) courses ∧
  (∀ c, dict_get queues c = filter (λ s, course_code s = c) students_sorted) ∧
  (∀ c, StronglySorted reg_string_le (dict_get queues c)).
Proof.
  intros students_sorted d courses queues.
  destruct (group_by_course_facts students_sorted) as [_ Hnd]. fold d in Hnd.
  assert (courses ≡ₚ d.*1) as Hc by apply sorted_Permutation.
  assert (NoDup courses) as Hndc by (by rewrite Hc).
  assert (∀ c, dict_get queues c = dict_get d c) as Hget.
  { intros c. unfold queues. rewrite queues_of_facts by done.
    rewrite dict_get_fmap. case_decide as Hin; [done|].
    rewrite Hc in Hin. by rewrite dict_get_absent. }
  split; [done|]. split; [|split; [|split]].
  - intros c. rewrite Hc. unfold d. rewrite group_by_course_keys.
    unfold students_sorted. by rewrite sorted_Permutation.
  - assert (Sorted (λ c1 c2,
              bool_decide (length (dict_get d c2) ≤ length (dict_get d c1))%nat = true)
              courses) as Hs.
    { apply (sorted_Sorted (λ c1 c2,
               bool_decide (length (dict_get d c2) ≤ length (dict_get d c1))%nat)).
      intros x y Hxy. apply bool_decide_eq_false in Hxy.
      apply bool_decide_eq_true. lia. }
    eapply Sorted_weaken; [|exact Hs].
    intros c1 c2 H12%bool_decide_eq_true. unfold larger_first. by rewrite !Hget.
  - intros c. rewrite Hget. apply group_by_course_get.
  - intros c. rewrite Hget. unfold d. rewrite group_by_course_get.
    assert (StronglySorted course_reg_le students_sorted) as Hs.
    { apply Sorted_StronglySorted; [apply course_reg_le_trans|].
      apply (sorted_Sorted course_reg_leb), course_reg_leb_total. }
    eapply (StronglySorted_impl course_reg_le reg_string_le
              (λ s, course_code s = c)).
    + intros s1 s2 H1 H2. unfold course_reg_le, reg_string_le, course_reg_leb.
      by rewrite H1, H2, string_compare_refl.
    + apply Forall_forall. by intros s [? _]%list_elem_of_filter.
    + by apply StronglySorted_filter.
Qed.

(** ** The seat numbers of the hall pages *)

Lemma number_row_flat r col_range acc :
  SeatingPlanPdf.number_row r col_range acc
  = foldl write_number acc (pair r <$> col_range).
Proof.
  unfold SeatingPlanPdf.number_row. revert acc.
  induction col_range as [|c col_range IH]; intros [grid n]; simpl; [done|].
  by rewrite IH.
Qed.

Lemma seat_no_grid_flat hall reverse seat_number :
  SeatingPlanPdf.seat_no_grid hall reverse seat_number
  = foldl write_number
      (replicate (rows hall) (replicate (cols hall) None), seat_number)
      (coords_of (SeatingPlanPdf.numbering_cols hall reverse) (seq 0 (rows hall))).
Proof.
  unfold SeatingPlanPdf.seat_no_grid, coords_of.
  generalize (replicate (rows hall) (replicate (cols hall) (@None Z)), seat_number).
  generalize (seq 0 (rows hall)).
  intros rs. induction rs as [|r rs IH]; intros acc; simpl; [done|].
  rewrite foldl_app, <- number_row_flat. apply IH.
Qed.

Lemma seat_no_write grid n r0 c0 r c :
  numbered_cells grid [(r0, c0)] →
  SeatingPlanPdf.seat_no (write_number (grid, n) (r0, c0)).1 r c
  = if decide ((r, c) = (r0, c0)) then Some n else SeatingPlanPdf.seat_no grid r c.
Proof.
  intros Hin. destruct (Hin r0 c0) as (line & Hline & Hc); [left|].
  unfold SeatingPlanPdf.seat_no, write_number. simpl.
  destruct (decide (r = r0)) as [->|Hr].
  - rewrite list_lookup_alter_eq, Hline. simpl.
    destruct (decide (c = c0)) as [->|Hcne].
    + rewrite list_lookup_insert_eq by done. simpl. by rewrite decide_True.
    + rewrite list_lookup_insert_ne by done.
      rewrite decide_False; [done|]. congruence.
  - rewrite list_lookup_alter_ne by done.
    rewrite decide_False; [done|]. congruence.
Qed.

Lemma numbered_cells_write grid n rc coords :
  numbered_cells grid coords → numbered_cells (write_number (grid, n) rc).1 coords.
Proof.
  intros Hin r c Hrc. destruct (Hin r c Hrc) as (line & Hline & Hc).
  unfold write_number. simpl.
  destruct (decide (r = rc.1)) as [->|Hr].
  - rewrite list_lookup_alter_eq, Hline. simpl. eexists. split; [done|].
    by rewrite length_insert.
  - rewrite list_lookup_alter_ne by done. eauto.
Qed.

Lemma write_numbers grid n coords :
  NoDup coords → numbered_cells grid coords →
  let result := foldl write_number (grid, n) coords in
  result.2 = n + Z.of_nat (length coords) ∧
  (∀ i r c, coords !! i = Some (r, c) →
     SeatingPlanPdf.seat_no result.1 r c = Some (n + Z.of_nat i)) ∧
  (∀ r c, (r, c) ∉ coords →
     SeatingPlanPdf.seat_no result.1 r c = SeatingPlanPdf.seat_no grid r c).
Proof.
  revert grid n.
  induction coords as [|[r0 c0] coords IH]; intros grid n Hnd Hin; simpl.
  - split; [lia|]. split; [by intros ???|done].
  - apply NoDup_cons in Hnd as [Hfresh Hnd].
    assert (numbered_cells grid [(r0, c0)]) as Hin0.
    { intros r c [= -> ->]%list_elem_of_singleton. apply Hin. left. }
    assert (numbered_cells grid coords) as Hin'.
    { intros r c Hrc. apply Hin. by right. }
    destruct (IH (write_number (grid, n) (r0, c0)).1 (n + 1) Hnd) as (Hn & Hat & Hout).
    { by apply numbered_cells_write. }
    change (write_number (grid, n) (r0, c0))
      with ((write_number (grid, n) (r0, c0)).1, n + 1).
    split; [lia|]. split.
    + intros [|i] r c Hrc; simpl in Hrc.
      * simplify_eq. rewrite Hout by done. rewrite seat_no_write by done.
        rewrite decide_True by done. f_equal. lia.
      * rewrite (Hat i r c Hrc). f_equal. lia.
    + intros r c [Hne Hnot]%not_elem_of_cons. rewrite Hout by done.
      rewrite seat_no_write by done. by rewrite decide_False.
Qed.

Lemma numbering_cols_perm hall reverse r :
  SeatingPlanPdf.numbering_cols hall reverse r ≡ₚ seq 0 (cols hall).
Proof.
  unfold SeatingPlanPdf.numbering_cols.
  destruct (SeatingPlanPdf.left_to_right _ _); [done|]. apply reverse_Permutation.
Qed.

Lemma empty_numbers_cells hall col_range :
  (∀ r, col_range r ≡ₚ seq 0 (cols hall)) →
  numbered_cells (replicate (rows hall) (replicate (cols hall) None))
    (coords_of col_range (seq 0 (rows hall))).
Proof.
  intros Hperm r c Hrc. apply (coords_of_elem hall) in Hrc as [Hr Hc]; [|done].
  apply elem_of_seq in Hr. exists (replicate (cols hall) None).
  split; [apply lookup_replicate_2; lia|]. by rewrite length_replicate.
Qed.

(** The cell a traversal visits in position [i]. *)
Lemma coords_of_lookup hall col_range i :
  (∀ r, col_range r ≡ₚ seq 0 (cols hall)) →
  (i < rows hall * cols hall)%nat →
  coords_of col_range (seq 0 (rows hall)) !! i
  = pair (i / cols hall)%nat <$> col_range (i / cols hall)%nat !! (i mod cols hall)%nat.
Proof.
  intros Hperm. unfold coords_of.
  generalize (rows hall) as n. intros n. induction n as [|n IH]; [lia|].
  intros Hi. rewrite seq_S, bind_app. simpl. rewrite app_nil_r.
  assert (length (seq 0 n ≫= λ r, pair r <$> col_range r)
          = (n * cols hall)%nat) as Hlen.
  { pose proof (coords_of_length hall col_range Hperm (seq 0 n)) as Hl.
    by rewrite length_seq in Hl. }
  assert (cols hall ≠ 0)%nat by lia.
  destruct (decide (i < n * cols hall)%nat) as [Hlt|Hge].
  - rewrite lookup_app_l by lia. by apply IH.
  - rewrite lookup_app_r by lia. rewrite Hlen.
    assert (i / cols hall = n)%nat as Hdiv.
    { symmetry. apply Nat.div_unique with (r := (i - n * cols hall)%nat); lia. }
    assert (i mod cols hall = i - n * cols hall)%nat as Hmod.
    { symmetry. apply Nat.mod_unique with (q := n); lia. }
    by rewrite Hdiv, Hmod, list_lookup_fmap.
Qed.

Lemma reverse_seq_lookup n j :
  (j < n)%nat → reverse (seq 0 n) !! j = Some (n - 1 - j)%nat.
Proof.
  intros Hj. rewrite reverse_lookup by (rewrite length_seq; lia).
  rewrite length_seq. rewrite lookup_seq_lt by lia. f_equal. lia.
Qed.

Lemma seat_no_grid_spec hall reverse first :
  let result := SeatingPlanPdf.seat_no_grid hall reverse first in
  result.2 = first + grid_capacity hall ∧
  ∀ i, (i < rows hall * cols hall)%nat →
    ∃ c, SeatingPlanPdf.numbering_cols hall reverse (i / cols hall)%nat
           !! (i mod cols hall)%nat = Some c ∧
         SeatingPlanPdf.seat_no result.1 (i / cols hall)%nat c
         = Some (first + Z.of_nat i).
Proof.
  simpl. rewrite seat_no_grid_flat.
  pose proof (numbering_cols_perm hall reverse) as Hperm.
  destruct (write_numbers (replicate (rows hall) (replicate (cols hall) None)) first
              (coords_of (SeatingPlanPdf.numbering_cols hall reverse)
                 (seq 0 (rows hall)))) as (Hn & Hat & _).
  { apply (coords_of_NoDup hall); [done|apply NoDup_seq]. }
  { by apply empty_numbers_cells. }
  split.
  - rewrite Hn, (coords_of_length hall) by done. rewrite length_seq.
    unfold grid_capacity. done.
  - intros i Hi.
    pose proof (coords_of_lookup hall _ i Hperm Hi) as Hlook.
    assert (cols hall ≠ 0)%nat by lia.
    destruct (lookup_lt_is_Some_2
                (SeatingPlanPdf.numbering_cols hall reverse (i / cols hall)%nat)
                (i mod cols hall)%nat) as [c Hc].
    { rewrite Hperm, length_seq. by apply Nat.mod_upper_bound. }
    exists c. split; [done|]. apply Hat. by rewrite Hlook, Hc.
Qed.

(** X8. The seat numbers of a hall page against the placement of the second
    allocator: the student packed in position [i] of a hall sits in the cell
    numbered [first + i] when the hall starts a base code; when the hall
    continues a base code the numbering of every row runs against the
    placement, and the student sits in the cell whose number counts the
    row from its other end. *)
Theorem seat_numbers_against_placement
    row_break hall hall_students st st' reverse first i student :
  place_serpentine row_break hall hall_students st = Done st' →
  hall_students !! i = Some student →
  (i < rows hall * cols hall)%nat →
  ∃ r c,
    cell (hall_seats st') (hall_code hall) r c = Some (reg_no student) ∧
    SeatingPlanPdf.seat_no (SeatingPlanPdf.seat_no_grid hall reverse first).1 r c
    = Some (seat_number_of hall reverse first i).
Proof.
  intros Hplace Hs Hi. rewrite place_serpentine_trace in Hplace.
  unfold hall_trace in Hplace.
  apply run_trace_cells in Hplace as [Hin _].
  2: { apply (coords_of_NoDup hall); [apply serpentine_cols_perm|apply NoDup_seq]. }
  assert (cols hall ≠ 0)%nat as Hcols by lia.
  pose proof (Nat.mod_upper_bound i (cols hall) Hcols) as Hj.
  pose proof (Nat.div_mod_eq i (cols hall)) as Hdm.
  set (q := (i / cols hall)%nat) in *. set (j := (i mod cols hall)%nat) in *.
  pose proof (coords_of_lookup hall (serpentine_cols hall) i
                (serpentine_cols_perm hall) Hi) as Hlook.
  fold q j in Hlook.
  assert (q < rows hall)%nat as Hq by (unfold q; apply Nat.Div0.div_lt_upper_bound; lia).
  destruct (seat_no_grid_spec hall reverse first) as [_ Hnum].
  destruct reverse; unfold seat_number_of.
  - (* the hall continues a base code *)
    set (k := (q * cols hall + (cols hall - 1 - j))%nat).
    assert (k / cols hall = q)%nat as Hkq.
    { symmetry. apply Nat.div_unique with (r := (cols hall - 1 - j)%nat); lia. }
    assert (k mod cols hall = cols hall - 1 - j)%nat as Hkj.
    { symmetry. apply Nat.mod_unique with (q := q); lia. }
    destruct (Hnum k) as (c & Hc & Hno); [nia|].
    rewrite Hkq, Hkj in Hc. rewrite Hkq in Hno.
    exists q, c. split; [|done].
    apply (Hin i (q, c) student); [|done].
    rewrite Hlook. unfold serpentine_cols, SeatingPlanPdf.numbering_cols,
      SeatingPlanPdf.left_to_right in *.
    rewrite <- Nat.negb_even in Hc.
    destruct (Nat.even q); simpl in Hc |- *.
    + rewrite reverse_seq_lookup in Hc by lia. simplify_eq.
      rewrite lookup_seq_lt by lia. simpl. do 2 f_equal. lia.
    + rewrite lookup_seq_lt in Hc by lia. simplify_eq.
      rewrite reverse_seq_lookup by lia. done.
  - (* the hall starts a base code *)
    destruct (Hnum i Hi) as (c & Hc & Hno). fold q j in Hc, Hno.
    exists q, c. split; [|done].
    apply (Hin i (q, c) student); [|done].
    rewrite Hlook. unfold serpentine_cols, SeatingPlanPdf.numbering_cols,
      SeatingPlanPdf.left_to_right in *.
    rewrite <- Nat.negb_even in Hc.
    destruct (Nat.even q); simpl in Hc |- *; by rewrite Hc.
Qed.

Lemma seat_numbers_against_placement_witness :
  let hall := demo_hall "A-2" 2 2 4 in
  let st := state_of (place_serpentine true hall four_students (init_state [hall]))
              [hall] in
  ∃ r c,
    cell (hall_seats st) "A-2" r c = Some "R4" ∧
    SeatingPlanPdf.seat_no (SeatingPlanPdf.seat_no_grid hall true 5).1 r c
    = Some 7.
Proof.
  intros hall st.
  apply (seat_numbers_against_placement true hall four_students
           (init_state [hall]) st true 5 3 (demo_student "R4" "C2")).
  - vm_compute. reflexivity.
  - reflexivity.
  - vm_compute. lia.
Defined.

Lemma read_cell_cell seats code r c o :
  read_cell seats code r c = Done o → cell seats code r c = o.
Proof.
  unfold read_cell, cell. intros Hread.
  destruct (seats !! code) as [g|]; [|done]. simpl.
  destruct (g !! r) as [line|]; [|done]. simpl.
  destruct (line !! c) as [o'|]; [|done]. simpl. congruence.
Qed.

Lemma truthy_spec o :
  SeatingPlanPdf.truthy o = true ↔ ∃ reg, o = Some reg ∧ reg ≠ EmptyString.
Proof.
  destruct o as [[|a reg]|]; simpl; split; try done.
  - by intros (reg & [= <-] & ?).
  - intros _. by eexists.
  - by intros (? & ? & _).
Qed.

Lemma allocated_reg_nos_spec seats code coords regs :
  SeatingPlanPdf.allocated_reg_nos seats code coords = Done regs →
  (regs ≠ [] ↔
   ∃ r c reg, (r, c) ∈ coords ∧ cell seats code r c = Some reg ∧ reg ≠ EmptyString).
Proof.
  revert regs. induction coords as [|[r c] coords IH]; intros regs Hrun;
    simpl in Hrun.
  - simplify_eq. split; [done|]. by intros (? & ? & ? & ?%elem_of_nil & _).
  - done_inv Hrun. rename x into o. done_inv Hrun. rename x into regs'.
    simplify_eq. apply read_cell_cell in Hrun0. specialize (IH regs' Hrun1).
    destruct (SeatingPlanPdf.truthy o) eqn:Ht.
    + apply truthy_spec in Ht as (reg & -> & Hreg). split; [|done].
      intros _. exists r, c, reg. split; [left|done].
    + assert ((match o with Some reg => regs' | None => regs' end) = regs') as ->
        by (by destruct o).
      rewrite IH. split.
      * intros (r' & c' & reg & Hin & Hcell & Hreg). exists r', c', reg.
        split; [by right|done].
      * intros (r' & c' & reg & [[= -> ->]|Hin]%elem_of_cons & Hcell & Hreg).
        -- rewrite Hrun0 in Hcell. subst o.
           assert (SeatingPlanPdf.truthy (Some reg) = true) as Ht'
             by (apply truthy_spec; eauto).
           congruence.
        -- eauto 10.
Qed.

Lemma row_major_coords_elem hall r c :
  (r, c) ∈ row_major_coords hall ↔ (r < rows hall)%nat ∧ (c < cols hall)%nat.
Proof.
  change (row_major_coords hall)
    with (coords_of (row_major_cols hall) (seq 0 (rows hall))).
  rewrite (coords_of_elem hall) by apply row_major_cols_perm.
  rewrite elem_of_seq. lia.
Qed.

Lemma page_of_hall seats hall regs :
  SeatingPlanPdf.allocated_reg_nos seats (hall_code hall) (row_major_coords hall)
    = Done regs →
  nonempty regs = true ↔ has_student seats hall.
Proof.
  intros Hregs%allocated_reg_nos_spec. unfold has_student.
  assert (nonempty regs = true ↔ regs ≠ []) as -> by (by destruct regs).
  rewrite Hregs. split.
  - intros (r & c & reg & [??]%row_major_coords_elem & ? & ?). eauto 10.
  - intros (r & c & reg & ? & ? & ? & ?). exists r, c, reg.
    split; [by apply row_major_coords_elem|done].
Qed.

Lemma total_seats_cons hall halls :
  total_seats (hall :: halls) = grid_capacity hall + total_seats halls.
Proof. done. Qed.

Lemma number_halls_spec seats halls last pages :
  SeatingPlanPdf.number_halls seats halls last = Done pages →
  SeatingPlanPdf.page_hall <$> pages `sublist_of` halls ∧
  (∀ hall, hall ∈ SeatingPlanPdf.page_hall <$> pages
           ↔ hall ∈ halls ∧ has_student seats hall) ∧
  ∀ j p, pages !! j = Some p →
    let base := SeatingPlanPdf.base_code (hall_code (SeatingPlanPdf.page_hall p)) in
    SeatingPlanPdf.first_seat p
    = default 0 (last !! base) + 1 + seats_before base (take j pages) ∧
    (SeatingPlanPdf.continue_in_reverse p = true
     ↔ is_Some (last !! base) ∨ pages_of_base base (take j pages) ≠ []) ∧
    SeatingPlanPdf.seat_numbers p
    = (SeatingPlanPdf.seat_no_grid (SeatingPlanPdf.page_hall p)
         (SeatingPlanPdf.continue_in_reverse p) (SeatingPlanPdf.first_seat p)).1.
Proof.
  revert last pages.
  induction halls as [|hall halls IH]; intros last pages Hrun; simpl in Hrun.
  - simplify_eq. split; [done|]. split; [|by intros ???].
    intros hall. csimpl. split; [by intros ?%elem_of_nil|].
    by intros [?%elem_of_nil _].
  - done_inv Hrun. rename x into regs.
    pose proof (page_of_hall _ _ _ Hrun0) as Hpage.
    destruct (nonempty regs) eqn:Hne.
    + destruct (SeatingPlanPdf.seat_no_grid hall _ _) as [grid next] eqn:Hgrid.
      done_inv Hrun. rename x into pages'. simplify_eq.
      destruct (IH _ _ Hrun1) as (Hsub & Hmem & Hpages).
      pose proof (seat_no_grid_spec hall
                    (bool_decide (is_Some (last !! SeatingPlanPdf.base_code (hall_code hall))))
                    (default 0 (last !! SeatingPlanPdf.base_code (hall_code hall)) + 1))
        as [Hnext _].
      rewrite Hgrid in Hnext. simpl in Hnext.
      split; [by apply sublist_skip|]. split.
      * intros h. rewrite fmap_cons, !elem_of_cons, Hmem. split.
        -- intros [->|[? ?]]; [split; [by left|by apply Hpage]|]. split; [by right|done].
        -- intros [[->|?] ?]; [by left|by right].
      * intros [|j] p Hp; simpl in Hp.
        -- simplify_eq. simpl. unfold seats_before, pages_of_base. simpl.
           split; [lia|]. split; [|by rewrite Hgrid].
           rewrite bool_decide_eq_true. split; [by left|]. by intros [?|?].
        -- destruct (Hpages j p Hp) as (Hfirst & Hrev & Hnum). simpl.
           split; [|split; [|done]].
           ++ rewrite Hfirst. unfold seats_before, pages_of_base.
              rewrite filter_cons. cbn [SeatingPlanPdf.page_hall].
              destruct (decide (SeatingPlanPdf.base_code (hall_code hall)
                                = SeatingPlanPdf.base_code
                                    (hall_code (SeatingPlanPdf.page_hall p))))
                as [Heq|Hneq].
              ** cbv beta iota. rewrite <- Heq, lookup_insert_eq.
                 rewrite fmap_cons, total_seats_cons.
                 cbn [SeatingPlanPdf.page_hall default]. unfold id in *. lia.
              ** cbv beta iota. rewrite lookup_insert_ne by done. lia.
           ++ rewrite Hrev. unfold pages_of_base. rewrite filter_cons.
              cbn [SeatingPlanPdf.page_hall].
              destruct (decide (SeatingPlanPdf.base_code (hall_code hall)
                                = SeatingPlanPdf.base_code
                                    (hall_code (SeatingPlanPdf.page_hall p))))
                as [Heq|Hneq].
              ** cbv beta iota. rewrite <- Heq, lookup_insert_eq.
                 split; [|by intros _; left]. intros _. by right.
              ** cbv beta iota. rewrite lookup_insert_ne by done. done.
    + destruct (IH _ _ Hrun) as (Hsub & Hmem & Hpages).
      split; [by apply sublist_cons|]. split; [|done].
      intros h. rewrite Hmem, elem_of_cons. split; [intros [? ?]; auto|].
      intros [[->|?] Hs]; [|done]. apply Hpage in Hs. congruence.
Qed.

(** X9. The numbering of the seats from one hall page to the next: a page
    is made for the halls that hold a student (a registration number that
    is not empty), in the order of the halls; the seat numbers of a page
    start behind all grid seats of the earlier pages with the same base
    code, at 1 when there is none; and the rows are numbered in reverse
    from the second page of a base code on. *)
Theorem seat_numbers_continue_over_base seats halls pages :
  SeatingPlanPdf.number_halls seats halls ∅ = Done pages →
  SeatingPlanPdf.page_hall <$> pages `sublist_of` halls ∧
  (∀ hall, hall ∈ SeatingPlanPdf.page_hall <$> pages
           ↔ hall ∈ halls ∧ has_student seats hall) ∧
  ∀ j p, pages !! j = Some p →
    let base := SeatingPlanPdf.base_code (hall_code (SeatingPlanPdf.page_hall p)) in
    SeatingPlanPdf.first_seat p = 1 + seats_before base (take j pages) ∧
    (SeatingPlanPdf.continue_in_reverse p = true
     ↔ pages_of_base base (take j pages) ≠ []) ∧
    SeatingPlanPdf.seat_numbers p
    = (SeatingPlanPdf.seat_no_grid (SeatingPlanPdf.page_hall p)
         (SeatingPlanPdf.continue_in_reverse p) (SeatingPlanPdf.first_seat p)).1.
Proof.
  intros Hrun. destruct (number_halls_spec _ _ _ _ Hrun) as (Hsub & Hmem & Hpages).
  split; [done|]. split; [done|].
  intros j p Hp. destruct (Hpages j p Hp) as (Hfirst & Hrev & Hnum).
  rewrite lookup_empty in Hfirst, Hrev. simpl in *.
  split; [lia|]. split; [|done].
  rewrite Hrev. split; [by intros [[? ?]|?]|by right].
Qed.

Lemma seat_numbers_continue_over_base_witness :
  let halls := two_halls_one_base in
  let seats :=
    hall_seats (state_of (University.allocate_seats 8 halls four_students) halls) in
  let pages := result_of (SeatingPlanPdf.number_halls seats halls ∅) [] in
  SeatingPlanPdf.page_hall <$> pages `sublist_of` halls ∧
  (∀ hall, hall ∈ SeatingPlanPdf.page_hall <$> pages
           ↔ hall ∈ halls ∧ has_student seats hall) ∧
  ∀ j p, pages !! j = Some p →
    let base := SeatingPlanPdf.base_code (hall_code (SeatingPlanPdf.page_hall p)) in
    SeatingPlanPdf.first_seat p = 1 + seats_before base (take j pages) ∧
    (SeatingPlanPdf.continue_in_reverse p = true
     ↔ pages_of_base base (take j pages) ≠ []) ∧
    SeatingPlanPdf.seat_numbers p
    = (SeatingPlanPdf.seat_no_grid (SeatingPlanPdf.page_hall p)
         (SeatingPlanPdf.continue_in_reverse p) (SeatingPlanPdf.first_seat p)).1.
Proof.
  intros halls seats pages.
  apply (seat_numbers_continue_over_base seats halls pages).
  vm_compute. reflexivity.
Defined.

Lemma rsplit_head_no_dash s : no_dash s = true → SeatingPlanPdf.rsplit_head s = None.
Proof.
  induction s as [|a s IH]; simpl; [done|].
  intros [Ha Hs]%andb_true_iff. rewrite (IH Hs).
  by apply negb_true_iff in Ha as ->.
Qed.

Lemma rsplit_head_append base suffix :
  no_dash suffix = true →
  SeatingPlanPdf.rsplit_head (base +:+ String "-" suffix) = Some base.
Proof.
  intros Hs. induction base as [|a base IH]; simpl.
  - by rewrite (rsplit_head_no_dash suffix Hs).
  - by rewrite IH.
Qed.

(** X10. The base code of a hall code: a code without ['-'] is its own
    base, and a code [base-suffix] whose suffix has no ['-'] has the base
    [base], whatever [base] holds; so ["HALL-1"] and ["HALL-2"] share a
    numbering, and so do ["A-B-1"] and ["A-B-2"]. *)
Theorem base_code_drops_last_suffix (base suffix : string) :
  no_dash suffix = true →
  SeatingPlanPdf.base_code suffix = suffix ∧
  SeatingPlanPdf.base_code (base +:+ String "-" suffix) = base.
Proof.
  intros Hs. unfold SeatingPlanPdf.base_code.
  by rewrite (rsplit_head_no_dash suffix Hs), (rsplit_head_append base suffix Hs).
Qed.

Lemma base_code_drops_last_suffix_witness :
  SeatingPlanPdf.base_code "2" = "2" ∧ SeatingPlanPdf.base_code "A-B-2" = "A-B".
Proof.
  apply (base_code_drops_last_suffix "A-B" "2"). reflexivity.
Defined.

(** ** Ranges of registration numbers *)

Lemma adjacent_nil {A} (R : A → A → Prop) : adjacent R [].
Proof. by intros ???. Qed.

Lemma adjacent_singleton {A} (R : A → A → Prop) x : adjacent R [x].
Proof. by intros [|?] ???. Qed.

Lemma adjacent_snoc {A} (R : A → A → Prop) (l : list A) y :
  adjacent R l → (∀ x, last l = Some x → R x y) → adjacent R (l ++ [y]).
Proof.
  intros Hl Hlast i x z Hx Hz.
  destruct (decide (S i < length l)%nat) as [Hlt|Hge].
  - rewrite lookup_app_l in Hx by lia. rewrite lookup_app_l in Hz by lia. eauto.
  - pose proof (lookup_lt_Some _ _ _ Hz) as Hb. rewrite length_app in Hb.
    simpl in Hb. assert (S i = length l) as Hi by lia.
    rewrite lookup_app_l in Hx by lia.
    rewrite lookup_app_r in Hz by lia.
    replace (S i - length l)%nat with 0%nat in Hz by lia. simpl in Hz.
    simplify_eq. apply Hlast. rewrite last_lookup.
    by replace (pred (length l)) with i by lia.
Qed.

Lemma run_text_snoc run x :
  run ≠ [] → run_text (run ++ [x]) = range_text (default x (head run)) x.
Proof.
  destruct run as [|first run]; [done|]. intros _. simpl.
  f_equal. change (List.last ((first :: run) ++ [x]) first = x).
  apply last_last.
Qed.

Lemma List_last_default {A} (l : list A) d x :
  last l = Some x → List.last l d = x.
Proof.
  revert d. induction l as [|a l IH]; intros d; [done|].
  destruct l as [|b l]; simpl in *; [congruence|]. intros Hl. by apply IH.
Qed.

Lemma run_text_range run start prev :
  head run = Some start → last run = Some prev →
  run_text run = range_text start prev.
Proof.
  destruct run as [|first run]; [done|]. intros [= ->] Hlast.
  unfold run_text. f_equal. by apply List_last_default.
Qed.

Lemma ranges_fold int rest first :
  ∃ runs run start prev,
    foldl (ranges_step int) ([], first, first) rest
      = (run_text <$> runs, start, prev) ∧
    concat runs ++ run = first :: rest ∧
    head run = Some start ∧ last run = Some prev ∧
    Forall (is_run int) (runs ++ [run]) ∧
    adjacent (run_ends int) (runs ++ [run]).
Proof.
  induction rest as [|r rest IH] using rev_ind.
  - exists [], [first], first, first. simpl.
    split; [done|]. split; [done|]. split; [done|]. split; [done|].
    split; [|apply adjacent_singleton].
    apply Forall_singleton. split; [done|apply adjacent_singleton].
  - destruct IH as (runs & run & start & prev & Hfold & Hcat & Hhead & Hlast
                      & Hruns & Hends).
    rewrite foldl_app, Hfold. simpl.
    apply Forall_app in Hruns as [Hruns Hrun].
    apply Forall_singleton in Hrun as [Hne Hadj].
    destruct (continuous int prev r) eqn:Hc.
    + exists runs, (run ++ [r]), start, r.
      split; [done|]. split.
      { rewrite (assoc_L (++)), Hcat. done. }
      split; [by destruct run|]. split; [by rewrite last_snoc|].
      split.
      * apply Forall_app. split; [done|]. apply Forall_singleton.
        split; [by destruct run|].
        apply adjacent_snoc; [done|]. intros x Hx. congruence.
      * intros i s1 s2 H1 H2.
        destruct (decide (S i < length runs)%nat) as [Hlt|Hge].
        -- rewrite lookup_app_l in H1 by lia. rewrite lookup_app_l in H2 by lia.
           apply (Hends i); by rewrite lookup_app_l by lia.
        -- pose proof (lookup_lt_Some _ _ _ H2) as Hb.
           rewrite length_app in Hb. simpl in Hb.
           assert (S i = length runs) as Hi by lia.
           rewrite lookup_app_l in H1 by lia.
           rewrite lookup_app_r in H2 by lia.
           replace (S i - length runs)%nat with 0%nat in H2 by lia.
           simpl in H2. simplify_eq.
           intros x y Hx Hy. apply (Hends i s1 run).
           ++ by rewrite lookup_app_l by lia.
           ++ rewrite lookup_app_r by lia.
              by replace (S i - length runs)%nat with 0%nat by lia.
           ++ done.
           ++ destruct run; [done|]. done.
    + exists (runs ++ [run]), [r], r, r.
      split.
      { rewrite fmap_app. simpl.
        by rewrite (run_text_range run start prev) by done. }
      split.
      { rewrite concat_app. simpl. rewrite app_nil_r.
        rewrite <- (assoc_L (++)), (assoc_L (++) (concat runs)), Hcat. done. }
      split; [done|]. split; [done|]. split.
      * apply Forall_app. split.
        -- apply Forall_app. split; [done|]. by apply Forall_singleton.
        -- apply Forall_singleton. split; [done|apply adjacent_singleton].
      * apply adjacent_snoc; [done|].
        intros s Hs. rewrite last_snoc in Hs. simplify_eq.
        intros x y Hx [= <-]. congruence.
Qed.

(** X11. The ranges of registration numbers: the sorted numbers of a group
    are cut into runs, each number of a run being the number after the one
    before ([int(r) == int(prev) + 1]; a string that is no number ends the
    run), no run continuing the run before it; the ranges are the texts
    ["first-last"] of the runs in order, or the number itself for a run of
    one.  So every number is covered by exactly one range. *)
Theorem reg_ranges_are_maximal_runs int regnos_sorted :
  regnos_sorted ≠ [] →
  ∃ runs,
    reg_ranges int regnos_sorted = Done (run_text <$> runs) ∧
    concat runs = regnos_sorted ∧
    Forall (is_run int) runs ∧
    adjacent (run_ends int) runs.
Proof.
  destruct regnos_sorted as [|first rest]; [done|]. intros _.
  destruct (ranges_fold int rest first)
    as (runs & run & start & prev & Hfold & Hcat & Hhead & Hlast & Hruns & Hends).
  exists (runs ++ [run]). unfold reg_ranges. rewrite Hfold.
  split.
  - rewrite fmap_app. simpl.
    by rewrite (run_text_range run start prev) by done.
  - split; [|done]. rewrite concat_app. simpl. by rewrite app_nil_r.
Qed.

Lemma reg_ranges_are_maximal_runs_witness :
  ∃ runs,
    reg_ranges decimal ["101"; "102"; "103"; "105"; "A7"; "A8"]
      = Done (run_text <$> runs) ∧
    concat runs = ["101"; "102"; "103"; "105"; "A7"; "A8"] ∧
    Forall (is_run decimal) runs ∧
    adjacent (run_ends decimal) runs.
Proof.
  apply (reg_ranges_are_maximal_runs decimal
           ["101"; "102"; "103"; "105"; "A7"; "A8"]).
  discriminate.
Defined.

(** ** The master seating plan *)

Lemma odict_get_set {V} (d : list (string * V)) k v k' :
  MasterPlan.odict_get (MasterPlan.odict_set d k v) k'
  = if decide (k' = k) then Some v else MasterPlan.odict_get d k'.
Proof.
  induction d as [|[k0 v0] d IH]; simpl.
  - repeat case_decide; congruence.
  - destruct (decide (k = k0)) as [->|Hne]; simpl.
    + repeat case_decide; congruence.
    + rewrite IH. repeat case_decide; congruence.
Qed.

Lemma odict_get_elem {V} (d : list (string * V)) k v :
  MasterPlan.odict_get d k = Some v → (k, v) ∈ d.
Proof.
  induction d as [|[k0 v0] d IH]; simpl; [done|].
  case_decide; [intros [= ->]; subst; left|]. intros ?. right. auto.
Qed.

Lemma elem_of_odict_set {V} (d : list (string * V)) k v x :
  x ∈ MasterPlan.odict_set d k v → x ∈ d ∨ x = (k, v).
Proof.
  induction d as [|[k0 v0] d IH]; simpl.
  - intros ->%list_elem_of_singleton. by right.
  - case_decide.
    + subst. intros [->|?]%elem_of_cons; [by right|]. left. by right.
    + intros [->|Hx]%elem_of_cons; [left; left|].
      destruct (IH Hx); [left; by right|by right].
Qed.

Lemma odict_sum_set {V} (f : V → Z) (d : list (string * V)) k v :
  odict_sum f (MasterPlan.odict_set d k v)
  = odict_sum f d - from_option f 0 (MasterPlan.odict_get d k) + f v.
Proof.
  unfold odict_sum. induction d as [|[k0 v0] d IH]; simpl; [lia|].
  case_decide; simpl; [lia|]. rewrite IH. lia.
Qed.

Lemma odict_sum_default {V} (f : V → Z) (o : option (list (string * V))) :
  from_option (odict_sum f) 0 o = odict_sum f (default [] o).
Proof. by destruct o. Qed.

Lemma group_item_size grouped item code :
  group_size (default [] (MasterPlan.odict_get (MasterPlan.group_item grouped item) code))
  = group_size (default [] (MasterPlan.odict_get grouped code))
    + (if decide (a_hall_code item.2 = code) then 1 else 0).
Proof.
  unfold MasterPlan.group_item. rewrite odict_get_set.
  destruct (decide (code = a_hall_code item.2)) as [->|Hne].
  - rewrite decide_True by done. simpl. unfold group_size.
    rewrite odict_sum_set, odict_sum_set.
    rewrite odict_sum_default.
    assert (from_option (λ regnos : list string, Z.of_nat (length regnos)) 0
              (MasterPlan.odict_get
                 (default [] (MasterPlan.odict_get
                                (default [] (MasterPlan.odict_get grouped (a_hall_code item.2)))
                                (a_department item.2)))
                 (a_course_code item.2))
            = Z.of_nat (length (default []
                (MasterPlan.odict_get
                   (default [] (MasterPlan.odict_get
                                  (default [] (MasterPlan.odict_get grouped (a_hall_code item.2)))
                                  (a_department item.2)))
                   (a_course_code item.2))))) as ->
      by (by destruct (MasterPlan.odict_get _ (a_course_code item.2))).
    rewrite length_app. simpl. lia.
  - rewrite decide_False by done. lia.
Qed.

Lemma group_items_size_from grouped items code :
  group_size (default [] (MasterPlan.odict_get (foldl MasterPlan.group_item grouped items) code))
  = group_size (default [] (MasterPlan.odict_get grouped code))
    + ledger_count code items.
Proof.
  unfold ledger_count. revert grouped.
  induction items as [|item items IH]; intros grouped; simpl; [lia|].
  rewrite IH, group_item_size, filter_cons. case_decide; simpl; lia.
Qed.

Lemma group_items_size items code :
  group_size (default [] (MasterPlan.odict_get (MasterPlan.group_items items) code))
  = ledger_count code items.
Proof. unfold MasterPlan.group_items. by rewrite group_items_size_from. Qed.

Lemma group_item_well grouped item :
  well_grouped grouped → well_grouped (MasterPlan.group_item grouped item).
Proof.
  intros Hwell code departments dept courses course regnos Hget Hd Hc.
  unfold MasterPlan.group_item in Hget. rewrite odict_get_set in Hget.
  case_decide as Hcode; [|by eapply Hwell]. simplify_eq.
  destruct (MasterPlan.odict_get grouped (a_hall_code item.2)) as [departments0|]
    eqn:Hg0; simpl in Hd.
  - apply elem_of_odict_set in Hd as [Hd|[= -> ->]]; [by eapply Hwell|].
    destruct (MasterPlan.odict_get departments0 (a_department item.2))
      as [courses0|] eqn:Hd0; simpl in Hc.
    + apply elem_of_odict_set in Hc as [Hc|[= -> ->]].
      * apply odict_get_elem in Hd0. by eapply Hwell.
      * by destruct (default [] _).
    + apply list_elem_of_singleton in Hc as [= -> ->]. done.
  - apply list_elem_of_singleton in Hd as [= -> ->]. simpl in Hc.
    apply list_elem_of_singleton in Hc as [= -> ->]. done.
Qed.

Lemma group_items_well items : well_grouped (MasterPlan.group_items items).
Proof.
  unfold MasterPlan.group_items.
  assert (well_grouped []) as H0 by (by intros ???????).
  revert H0. generalize (@nil (string * MasterPlan.Departments)).
  induction items as [|item items IH]; intros grouped Hwell; simpl; [done|].
  by apply IH, group_item_well.
Qed.

Lemma length_sorted {A} (leb : A → A → bool) (l : list A) :
  length (sorted leb l) = length l.
Proof. by rewrite sorted_Permutation. Qed.

Lemma reg_ranges_done int regnos :
  regnos ≠ [] → ∃ ranges, reg_ranges int regnos = Done ranges.
Proof.
  destruct regnos as [|first rest]; [done|]. intros _. unfold reg_ranges.
  destruct (foldl _ _ _) as [[ranges start] prev]. eauto.
Qed.

Lemma course_rows_spec int hall dept courses m :
  Forall (λ cr : string * list string, cr.2 ≠ []) courses →
  ∃ m', MasterPlan.course_rows int hall dept courses m = Done m' ∧
    MasterPlan.grand_total m'
    = MasterPlan.grand_total m
      + odict_sum (λ regnos : list string, Z.of_nat (length regnos)) courses ∧
    default 0 (MasterPlan.hall_summary m' !! hall_code hall)
    = default 0 (MasterPlan.hall_summary m !! hall_code hall)
      + odict_sum (λ regnos : list string, Z.of_nat (length regnos)) courses ∧
    ∀ code, code ≠ hall_code hall →
      MasterPlan.hall_summary m' !! code = MasterPlan.hall_summary m !! code.
Proof.
  revert m. induction courses as [|[course regnos] courses IH]; intros m Hne.
  - exists m. simpl. unfold odict_sum. simpl. repeat split; try done; lia.
  - apply Forall_cons in Hne as [Hregs Hne]. simpl in Hregs.
    destruct (reg_ranges_done int (sorted String.leb regnos)) as [ranges Hr].
    { intros Hnil. apply (f_equal length) in Hnil.
      rewrite length_sorted in Hnil. by destruct regnos. }
    simpl. rewrite Hr. simpl.
    destruct (IH {| MasterPlan.master_data :=
                      MasterPlan.master_data m ++
                        [[block hall; hall_name hall; dept; course;
                          String.concat ("," +:+ MasterPlan.newline) ranges;
                          pretty (Z.of_nat (length (sorted String.leb regnos)))]];
                    MasterPlan.grand_total :=
                      MasterPlan.grand_total m
                      + Z.of_nat (length (sorted String.leb regnos));
                    MasterPlan.hall_summary :=
                      <[hall_code hall :=
                          default 0 (MasterPlan.hall_summary m !! hall_code hall)
                          + Z.of_nat (length (sorted String.leb regnos))]>
                        (MasterPlan.hall_summary m) |} Hne)
      as (m' & -> & Htotal & Hhall & Hother).
    exists m'. split; [done|]. simpl in *.
    rewrite lookup_insert_eq in Hhall. simpl in Hhall.
    rewrite length_sorted in Htotal, Hhall.
    unfold odict_sum in *. simpl. split; [lia|]. split; [lia|].
    intros code Hcode. rewrite Hother by done. by rewrite lookup_insert_ne.
Qed.

Lemma dept_rows_spec int hall departments m :
  (∀ dept courses course regnos,
     (dept, courses) ∈ departments → (course, regnos) ∈ courses → regnos ≠ []) →
  ∃ m', MasterPlan.dept_rows int hall departments m = Done m' ∧
    MasterPlan.grand_total m' = MasterPlan.grand_total m + group_size departments ∧
    default 0 (MasterPlan.hall_summary m' !! hall_code hall)
    = default 0 (MasterPlan.hall_summary m !! hall_code hall)
      + group_size departments ∧
    ∀ code, code ≠ hall_code hall →
      MasterPlan.hall_summary m' !! code = MasterPlan.hall_summary m !! code.
Proof.
  revert m. induction departments as [|[dept courses] departments IH];
    intros m Hne.
  - exists m. unfold group_size, odict_sum. simpl. repeat split; try done; lia.
  - destruct (course_rows_spec int hall dept courses m)
      as (m1 & Hrun & Htotal1 & Hhall1 & Hother1).
    { apply Forall_forall. intros [course regnos] Hin. simpl.
      eapply Hne; [left|done]. }
    destruct (IH m1) as (m' & Hrun' & Htotal & Hhall & Hother).
    { intros dept' courses' course regnos Hd Hc. eapply Hne; [by right|done]. }
    exists m'. simpl. rewrite Hrun. simpl. split; [done|].
    unfold group_size, odict_sum in *. simpl. split; [lia|]. split; [lia|].
    intros code Hcode. by rewrite Hother, Hother1.
Qed.

Lemma hall_rows_spec int grouped halls m :
  well_grouped grouped → NoDup (hall_code <$> halls) →
  ∃ m', MasterPlan.hall_rows int grouped halls m = Done m' ∧
    MasterPlan.grand_total m'
    = MasterPlan.grand_total m
      + foldr (λ hall acc,
                 group_size (default [] (MasterPlan.odict_get grouped (hall_code hall)))
                 + acc) 0 halls ∧
    (∀ hall, hall ∈ halls →
       default 0 (MasterPlan.hall_summary m' !! hall_code hall)
       = default 0 (MasterPlan.hall_summary m !! hall_code hall)
         + group_size (default [] (MasterPlan.odict_get grouped (hall_code hall)))) ∧
    ∀ code, code ∉ hall_code <$> halls →
      MasterPlan.hall_summary m' !! code = MasterPlan.hall_summary m !! code.
Proof.
  intros Hwell. revert m. induction halls as [|hall halls IH]; intros m Hnd.
  - exists m. simpl. split; [done|]. split; [lia|].
    split; [by intros ? ?%elem_of_nil|done].
  - rewrite fmap_cons in Hnd. apply NoDup_cons in Hnd as [Hcode Hnd]. simpl.
    destruct (MasterPlan.odict_get grouped (hall_code hall)) as [departments|]
      eqn:Hg.
    + destruct (dept_rows_spec int hall departments m)
        as (m1 & Hrun & Htotal1 & Hhall1 & Hother1).
      { intros dept courses course regnos Hd Hc. by eapply Hwell. }
      destruct (IH m1 Hnd) as (m' & Hrun' & Htotal & Hin & Hout).
      exists m'. rewrite Hrun. simpl. split; [done|]. split; [lia|]. split.
      * intros h [->|Hh]%elem_of_cons.
        -- rewrite Hout by done. rewrite Hg. simpl. lia.
        -- rewrite (Hin h Hh). rewrite Hother1; [done|].
           intros Heq. apply Hcode. rewrite <- Heq. by apply list_elem_of_fmap_2.
      * intros code [? ?]%not_elem_of_cons. by rewrite Hout, Hother1.
    + destruct (IH m Hnd) as (m' & Hrun' & Htotal & Hin & Hout).
      exists m'. split; [done|]. unfold group_size, odict_sum in *. simpl in *.
      split; [lia|]. split.
      * intros h [->|Hh]%elem_of_cons.
        -- rewrite Hout by done. rewrite Hg. simpl. lia.
        -- by apply Hin.
      * intros code [? ?]%not_elem_of_cons. by apply Hout.
Qed.

Lemma ledger_count_halls halls items :
  NoDup (hall_code <$> halls) →
  Forall (λ item : string * Allocation, a_hall_code item.2 ∈ hall_code <$> halls) items →
  foldr (λ hall acc, ledger_count (hall_code hall) items + acc) 0 halls
  = Z.of_nat (length items).
Proof.
  intros Hnd. unfold ledger_count.
  induction items as [|item items IH]; intros Hin.
  - simpl. induction halls as [|h halls IHh]; simpl; [done|].
    rewrite fmap_cons in Hnd. apply NoDup_cons in Hnd as [_ Hnd].
    rewrite IHh by done. done.
  - apply Forall_cons in Hin as [Hitem Hin]. specialize (IH Hin).
    assert (∀ hs : list Hall,
      foldr (λ hall acc,
               Z.of_nat (length (filter (λ it : string * Allocation,
                                           a_hall_code it.2 = hall_code hall)
                                   (item :: items))) + acc) 0 hs
      = foldr (λ hall acc,
                 Z.of_nat (length (filter (λ it : string * Allocation,
                                             a_hall_code it.2 = hall_code hall)
                                     items)) + acc) 0 hs
        + Z.of_nat (length (filter (λ h, hall_code h = a_hall_code item.2) hs)))
      as Hsplit.
    { induction hs as [|h hs IHh]; simpl; [done|].
      rewrite IHh, !filter_cons. simpl.
      repeat case_decide; simpl; try congruence; lia. }
    rewrite Hsplit, IH.
    assert (length (filter (λ h, hall_code h = a_hall_code item.2) halls) = 1%nat)
      as ->; [|simpl; lia].
    clear -Hnd Hitem. induction halls as [|h halls IHh].
    { by apply elem_of_nil in Hitem. }
    rewrite fmap_cons in Hnd, Hitem. apply NoDup_cons in Hnd as [Hh Hnd].
    rewrite filter_cons. case_decide as Heq.
    + simpl. f_equal. apply length_zero_iff_nil.
      destruct (filter _ halls) as [|h' rest] eqn:Hf; [done|].
      assert (h' ∈ filter (λ h0, hall_code h0 = a_hall_code item.2) halls) as Hin
        by (rewrite Hf; left).
      apply list_elem_of_filter in Hin as [Heq' Hh'].
      destruct Hh. rewrite Heq, <- Heq'. by apply list_elem_of_fmap_2.
    + apply IHh; [done|]. apply elem_of_cons in Hitem as [?|?]; [congruence|done].
Qed.

Lemma master_rows_totals int halls items :
  NoDup (hall_code <$> halls) →
  Forall (λ item : string * Allocation, a_hall_code item.2 ∈ hall_code <$> halls)
         items →
  ∃ m, MasterPlan.master_rows int halls items = Done m ∧ master_totals halls items m.
Proof.
  intros Hnd Hin. unfold MasterPlan.master_rows.
  destruct (hall_rows_spec int (MasterPlan.group_items items) halls
              {| MasterPlan.master_data := []; MasterPlan.grand_total := 0;
                 MasterPlan.hall_summary := ∅ |} (group_items_well items) Hnd)
    as (m & Hrun & Htotal & Hhalls & _).
  exists m. split; [done|]. split.
  - rewrite Htotal. simpl.
    rewrite <- (ledger_count_halls halls items Hnd Hin).
    assert (∀ hs : list Hall,
      foldr (λ hall acc,
               group_size (default [] (MasterPlan.odict_get
                                         (MasterPlan.group_items items) (hall_code hall)))
               + acc) 0 hs
      = foldr (λ hall acc, ledger_count (hall_code hall) items + acc) 0 hs) as ->.
    { induction hs as [|h hs IH]; simpl; [done|].
      by rewrite IH, group_items_size. }
    lia.
  - intros hall Hhall. rewrite (Hhalls hall Hhall). simpl.
    rewrite lookup_empty, group_items_size. simpl. lia.
Qed.

(** X12. The master seating plan over any ledger whose entries name halls
    of the allocator (distinct hall codes): the rows are built without an
    error, the grand total is the number of entries, and the total of a
    hall is the number of entries that name it, whatever [int] makes of
    the registration numbers. *)
Theorem master_plan_totals_count_ledger int halls items :
  NoDup (hall_code <$> halls) →
  Forall (λ item : string * Allocation, a_hall_code item.2 ∈ hall_code <$> halls)
         items →
  ∃ m, MasterPlan.master_rows int halls items = Done m ∧ master_totals halls items m.
Proof. apply master_rows_totals. Qed.

Lemma master_plan_totals_count_ledger_witness :
  ∃ m, MasterPlan.master_rows decimal demo_halls demo_items = Done m
       ∧ master_totals demo_halls demo_items m.
Proof.
  apply (master_plan_totals_count_ledger decimal demo_halls demo_items).
  - apply (bool_decide_unpack _). vm_compute. exact I.
  - apply (bool_decide_unpack _). vm_compute. exact I.
Defined.

(** X17. The department and course totals of the summary of the master
    plan: over any ledger, in any order of its entries, the totals of all
    courses of all departments add up to the number of entries. *)
Theorem department_totals_sum_to_ledger items :
  odict_sum (odict_sum id) (MasterPlan.dept_course_totals items)
  = Z.of_nat (length items).
Proof.
  unfold MasterPlan.dept_course_totals.
  assert (∀ totals : list (string * list (string * Z)),
    odict_sum (odict_sum id) (foldl MasterPlan.count_item totals items)
    = odict_sum (odict_sum id) totals + Z.of_nat (length items)) as Hgen.
  { induction items as [|item items IH]; intros totals; simpl; [lia|].
    rewrite IH. unfold MasterPlan.count_item.
    rewrite odict_sum_set, odict_sum_set, odict_sum_default.
    destruct (MasterPlan.odict_get (default [] _) (a_course_code item.2));
      simpl; unfold id; lia. }
  rewrite Hgen. unfold odict_sum. simpl. lia.
Qed.

(** *** The ledger and the grid of one hall *)

Lemma ledger_count_Permutation code items1 items2 :
  items1 ≡ₚ items2 → ledger_count code items1 = ledger_count code items2.
Proof. intros Hp. unfold ledger_count. by rewrite Hp. Qed.

Lemma seat_ledger_count wd hall r c student st st' code :
  seat wd hall r c student st = Done st' →
  allocations st !! reg_no student = None →
  ledger_count code (map_to_list (allocations st'))
  = ledger_count code (map_to_list (allocations st))
    + (if decide (hall_code hall = code) then 1 else 0).
Proof.
  unfold seat. intros Hseat Hfresh.
  destruct (hall_seats st !! hall_code hall) as [g|]; [|done].
  destruct (g !! r) as [line|]; [|done].
  case_decide; [|done]. simplify_eq/=.
  rewrite (ledger_count_Permutation _ _ _ (map_to_list_insert _ _ _ Hfresh)).
  unfold ledger_count. rewrite filter_cons. simpl.
  repeat case_decide; simpl; try done; lia.
Qed.

Lemma seat_taken_exact wd hall r c student st st' code :
  seat wd hall r c student st = Done st' →
  cell (hall_seats st) (hall_code hall) r c = None →
  seats_taken st' code
  = (seats_taken st code + (if decide (hall_code hall = code) then 1 else 0))%nat.
Proof.
  unfold seat, seats_taken, cell. intros Hseat Hfree.
  destruct (hall_seats st !! hall_code hall) as [g|] eqn:Hg; [|done].
  destruct (g !! r) as [line|] eqn:Hr; [|done].
  case_decide as Hc; [|done]. simplify_eq/=.
  destruct (lookup_lt_is_Some_2 line c Hc) as [o Ho].
  rewrite Hr in Hfree. simpl in Hfree. rewrite Ho in Hfree. simpl in Hfree.
  subst o.
  case_decide as Hcode.
  - subst code. rewrite lookup_insert_eq, Hg.
    pose proof (count_cells_write is_Some g r c line None (Some (reg_no student)) Hr Ho)
      as Hw.
    rewrite (indicator_True (is_Some (Some (reg_no student)))) in Hw by done.
    rewrite (indicator_False (is_Some None)) in Hw by (by intros [??]).
    change (count_cells is_Some) with occupied in Hw. lia.
  - rewrite lookup_insert_ne by done. lia.
Qed.

Lemma run_trace_counts wd halls trace done st st' code :
  traced done st → shaped halls st → Forall (in_hall halls) trace →
  NoDup (placed_cell <$> done ++ trace) →
  NoDup (placed_reg <$> done ++ trace) →
  run_trace wd trace st = Done st' →
  seats_taken st' code = (seats_taken st code + placed_in code trace)%nat ∧
  ledger_count code (map_to_list (allocations st'))
  = ledger_count code (map_to_list (allocations st))
    + Z.of_nat (placed_in code trace).
Proof.
  unfold placed_in. revert done st.
  induction trace as [|[[[hall r] c] student] trace IH];
    intros done st Htr Hsh Hin Hcells Hregs Hrun.
  - simpl in Hrun. simplify_eq. simpl. split; lia.
  - apply Forall_cons in Hin as [(Hh & Hr & Hc) Hin]. simpl in Hh, Hr, Hc.
    pose proof Hcells as Hcells'. pose proof Hregs as Hregs'.
    rewrite fmap_app in Hcells'. rewrite fmap_app in Hregs'.
    apply NoDup_app in Hcells' as (_ & Hc1 & _).
    apply NoDup_app in Hregs' as (_ & Hr1 & _).
    assert ((hall_code hall, r, c) ∉ placed_cell <$> done) as Hcell.
    { intros Hel. apply (Hc1 _ Hel). simpl. left. }
    assert (reg_no student ∉ placed_reg <$> done) as Hreg.
    { intros Hel. apply (Hr1 _ Hel). simpl. left. }
    destruct (seat_traced wd halls done hall r c student st) as (st1 & Hseat & Htr1);
      try done.
    simpl in Hrun. rewrite Hseat in Hrun. simpl in Hrun.
    assert (cell (hall_seats st) (hall_code hall) r c = None) as Hfree.
    { destruct (cell _ _ _ _) eqn:Hcl; [|done].
      destruct Hcell. apply (tr_cells _ _ Htr). by rewrite Hcl. }
    assert (allocations st !! reg_no student = None) as Hfresh.
    { destruct (allocations st !! reg_no student) eqn:Hal; [|done].
      destruct Hreg. apply (tr_regs _ _ Htr). by rewrite Hal. }
    destruct (IH (done ++ [(hall, r, c, student)]) st1) as [IH1 IH2]; try done.
    + by eapply seat_shaped.
    + by rewrite <- (assoc_L (++)).
    + by rewrite <- (assoc_L (++)).
    + rewrite IH1, IH2.
      rewrite (seat_taken_exact _ _ _ _ _ _ _ code Hseat Hfree).
      rewrite (seat_ledger_count _ _ _ _ _ _ _ code Hseat Hfresh).
      rewrite filter_cons. simpl. case_decide; simpl; split; lia.
Qed.

Lemma init_ledger_count halls code :
  ledger_count code (map_to_list (allocations (init_state halls))) = 0.
Proof. simpl. by rewrite map_to_list_empty. Qed.

Lemma exam1_success_trace fuel halls students st :
  NoDup (hall_code <$> halls) →
  Exam1.allocate_seats fuel halls students = Done st →
  ∃ trace, run_trace true trace (init_state halls) = Done st
           ∧ good_trace halls trace ∧ snd <$> trace ≡ₚ students.
Proof.
  intros Hcodes Hrun. unfold Exam1.allocate_seats in Hrun.
  apply outcome_bind_done in Hrun as ([st1 remaining] & Hpasses & Hrun).
  case_decide as Hleft; [done|]. simplify_eq.
  unfold Exam1.placement_passes in Hpasses.
  apply outcome_bind_done in Hpasses as (_ & _ & Hpasses).
  apply outcome_bind_done in Hpasses as ([st0 remaining0] & Hfirst & Hpasses).
  apply outcome_bind_done in Hpasses as (st2 & Hsecond & Hpasses).
  simplify_eq.
  assert (concat (remaining.*2) = []) as Hnil.
  { apply length_zero_iff_nil. rewrite <- count_remaining_length. lia. }
  unfold Exam1.second_pass in Hsecond. rewrite Hnil in Hsecond.
  simpl in Hsecond. simplify_eq.
  apply exam1_first_pass_trace in Hfirst as (trace & Hrun & Hgood & Hp); [|done].
  rewrite Hnil, app_nil_r, initial_queues_Permutation in Hp.
  by exists trace.
Qed.

(** What a run from a fresh allocator leaves, for the reports: the ledger
    names halls of the allocator, it has an entry per student, and for
    every hall code as many entries as the grid of the hall has occupied
    cells. *)
Lemma run_trace_reports wd halls trace students st items :
  NoDup (hall_code <$> halls) → NoDup (reg_no <$> students) →
  run_trace wd trace (init_state halls) = Done st →
  good_trace halls trace → snd <$> trace ≡ₚ students →
  items_of st items →
  Forall (λ item : string * Allocation, a_hall_code item.2 ∈ hall_code <$> halls)
         items ∧
  length items = length students ∧
  ∀ code, ledger_count code items = Z.of_nat (seats_taken st code).
Proof.
  intros Hcodes Hregs Hrun [Hin Hcells] Hp Hitems. unfold items_of in Hitems.
  assert (NoDup (placed_reg <$> trace)) as Hregs'.
  { by rewrite placed_reg_students, Hp. }
  destruct (run_trace_traced wd halls trace [] (init_state halls))
    as (st' & Hrun' & Htr & _); try done.
  { apply init_traced. } { by apply init_shaped. }
  rewrite Hrun in Hrun'. simplify_eq. simpl in Htr.
  split; [|split].
  - apply Forall_forall. intros [reg a] Hitem. simpl.
    rewrite Hitems in Hitem. apply elem_of_map_to_list in Hitem.
    destruct (tr_ledger _ _ Htr reg a Hitem) as (_ & _ & Hcell).
    assert ((a_hall_code a, a_row a - 1, a_col a - 1)%nat ∈ placed_cell <$> trace)
      as Hplaced.
    { apply (tr_cells _ _ Htr). by rewrite Hcell. }
    apply list_elem_of_fmap in Hplaced as (p & Hpc & Hpin).
    rewrite Forall_forall in Hin. destruct (Hin p Hpin) as (Hhall & _).
    unfold placed_cell in Hpc. simplify_eq.
    match goal with H : a_hall_code a = _ |- _ => rewrite H end.
    by apply list_elem_of_fmap_2.
  - rewrite Hitems, length_map_to_list.
    rewrite <- Hp, length_fmap.
    rewrite <- (length_fmap placed_reg trace).
    rewrite <- size_dom.
    assert (dom (allocations st') = list_to_set (C := gset string) (placed_reg <$> trace))
      as ->.
    { apply set_eq. intros reg. rewrite elem_of_dom, elem_of_list_to_set.
      apply (tr_regs _ _ Htr). }
    by rewrite size_list_to_set.
  - intros code.
    destruct (run_trace_counts wd halls trace [] (init_state halls) st' code)
      as [Htaken Hledger]; try done.
    { apply init_traced. } { by apply init_shaped. }
    rewrite (ledger_count_Permutation _ _ _ Hitems), Hledger, Htaken.
    rewrite init_ledger_count, init_taken. lia.
Qed.

(** X13. The master seating plan behind a run of the first allocator that
    returns (distinct hall codes and registration numbers), for the
    [items()] of the ledger in any order: the rows are built without an
    error, the grand total is the number of students, and the total of
    every hall is the number of occupied cells of its grid. *)
Theorem master_plan_counts_every_student int fuel halls students st items :
  NoDup (hall_code <$> halls) →
  NoDup (reg_no <$> students) →
  Exam1.allocate_seats fuel halls students = Done st →
  items_of st items →
  ∃ m, MasterPlan.master_rows int halls items = Done m ∧
    MasterPlan.grand_total m = Z.of_nat (length students) ∧
    ∀ hall, hall ∈ halls →
      default 0 (MasterPlan.hall_summary m !! hall_code hall)
      = Z.of_nat (seats_taken st (hall_code hall)).
Proof.
  intros Hcodes Hregs Hrun Hitems.
  apply exam1_success_trace in Hrun as (trace & Hrun & Hgood & Hp); [|done].
  destruct (run_trace_reports true halls trace students st items)
    as (Hin & Hlen & Hcount); try done.
  destruct (master_rows_totals int halls items Hcodes Hin) as (m & Hm & Htotal & Hhalls).
  exists m. split; [done|]. split; [by rewrite Htotal, Hlen|].
  intros hall Hhall. by rewrite (Hhalls hall Hhall), Hcount.
Qed.

Lemma master_plan_counts_every_student_witness :
  let st := state_of (Exam1.allocate_seats 8 demo_halls demo_students) demo_halls in
  ∃ m, MasterPlan.master_rows decimal demo_halls (map_to_list (allocations st))
       = Done m ∧
    MasterPlan.grand_total m = 4 ∧
    ∀ hall, hall ∈ demo_halls →
      default 0 (MasterPlan.hall_summary m !! hall_code hall)
      = Z.of_nat (seats_taken st (hall_code hall)).
Proof.
  intros st.
  apply (master_plan_counts_every_student decimal 8 demo_halls demo_students st
           (map_to_list (allocations st))).
  - apply (bool_decide_unpack _). vm_compute. exact I.
  - apply (bool_decide_unpack _). vm_compute. exact I.
  - vm_compute. reflexivity.
  - unfold items_of. reflexivity.
Defined.

(** ** The courses of the halls *)

Lemma exam1_courses_first_pass fuel courses halls a remaining :
  Exam1Courses.first_pass fuel courses halls a remaining
    ≫= (λ ar, Done (state ar.1, ar.2))
  = Exam1.first_pass fuel courses halls (state a) remaining.
Proof.
  revert a remaining. induction halls as [|hall halls IH]; intros a remaining;
    simpl; [done|].
  unfold Exam1Courses.first_pass_hall.
  destruct (Exam1.first_pass_hall fuel courses hall (state a) remaining)
    as [[st1 remaining1]| |]; simpl; [|done..].
  apply IH.
Qed.

(** The allocator with [hall_courses] has the ledger and the grids of the
    allocator without. *)
Lemma exam1_courses_state fuel halls students :
  Exam1Courses.allocate_seats fuel halls students ≫= (λ a, Done (state a))
  = Exam1.allocate_seats fuel halls students.
Proof.
  unfold Exam1Courses.allocate_seats, Exam1.allocate_seats, Exam1.placement_passes.
  destruct (validate_inputs halls students) as [[]| |]; simpl; [|done..].
  rewrite <- (exam1_courses_first_pass _ _ _ (init_allocator halls)).
  destruct (Exam1Courses.first_pass _ _ _ _ _) as [[a remaining]| |]; simpl;
    [|done..].
  destruct (Exam1.second_pass halls remaining (state a)); simpl; [|done..].
  by case_decide.
Qed.

Lemma university_courses_allocate_halls fuel targets halls a first second :
  UniversityCourses.allocate_halls fuel targets halls a first second
    ≫= (λ r, Done (state r.1.1, r.1.2, r.2))
  = University.allocate_halls fuel targets halls (state a) first second.
Proof.
  revert a first second.
  induction halls as [|hall halls IH]; intros a first second; simpl; [done|].
  unfold UniversityCourses.allocate_hall, University.allocate_hall.
  case_decide; simpl; [apply IH|].
  destruct (while _ _ _ _) as [p| |]; simpl; [|done..].
  destruct (nonempty (University.hall_students p)); simpl; [|apply IH].
  destruct (place_serpentine _ _ _ _) as [st1| |]; simpl; [|done..].
  apply IH.
Qed.

Lemma university_courses_state fuel halls students :
  UniversityCourses.allocate_seats fuel halls students ≫= (λ a, Done (state a))
  = University.allocate_seats fuel halls students.
Proof.
  unfold UniversityCourses.allocate_seats, University.allocate_seats,
    University.placement_passes.
  destruct (validate_inputs halls students) as [[]| |]; simpl; [|done..].
  destruct (University.select_halls _ _) as [selected| |]; simpl; [|done..].
  rewrite <- (university_courses_allocate_halls _ _ _ (init_allocator halls)).
  destruct (UniversityCourses.allocate_halls _ _ _ _ _ _) as [[[a first] second]| |];
    simpl; [|done..].
  by destruct (nonempty _).
Qed.

Lemma seat_ledger wd hall r c student st st' reg alloc :
  seat wd hall r c student st = Done st' →
  allocations st' !! reg = Some alloc ↔
  (reg = reg_no student ∧ alloc = allocation_of hall r c student wd) ∨
  (reg ≠ reg_no student ∧ allocations st !! reg = Some alloc).
Proof.
  unfold seat. intros Hseat.
  destruct (hall_seats st !! hall_code hall) as [g|]; [|done].
  destruct (g !! r) as [line|]; [|done].
  case_decide; [|done]. simplify_eq/=.
  destruct (decide (reg = reg_no student)) as [->|Hne].
  - rewrite lookup_insert_eq. split.
    + intros [= <-]. by left.
    + intros [[_ ->]|[? _]]; done.
  - rewrite lookup_insert_ne by done. split; [by right|].
    by intros [[? _]|[_ ?]].
Qed.

Lemma run_trace_ledger_from wd trace st st' reg alloc :
  run_trace wd trace st = Done st' →
  allocations st' !! reg = Some alloc →
  allocations st !! reg = Some alloc ∨
  ∃ p : Placement, p ∈ trace ∧ reg = reg_no p.2
     ∧ alloc = allocation_of p.1.1.1 p.1.1.2 p.1.2 p.2 wd.
Proof.
  revert st. induction trace as [|[[[hall r] c] s] trace IH]; intros st Hrun;
    simpl in Hrun.
  - simplify_eq. by left.
  - done_inv Hrun. rename x into st1. intros Hl.
    destruct (IH _ Hrun Hl) as [H1|(p & Hp & ? & ?)].
    + apply (seat_ledger _ _ _ _ _ _ _ _ _ Hrun0) in H1 as [[-> ->]|[_ ?]].
      * right. exists (hall, r, c, s). split; [left|done].
      * by left.
    + right. exists p. split; [by right|done].
Qed.

Lemma run_trace_ledger_to wd trace st st' (p : Placement) :
  run_trace wd trace st = Done st' →
  NoDup (placed_reg <$> trace) → p ∈ trace →
  allocations st' !! reg_no p.2
  = Some (allocation_of p.1.1.1 p.1.1.2 p.1.2 p.2 wd).
Proof.
  revert st. induction trace as [|[[[hall r] c] s] trace IH]; intros st Hrun Hnd Hp;
    simpl in Hrun.
  - by apply elem_of_nil in Hp.
  - done_inv Hrun. rename x into st1.
    rewrite fmap_cons in Hnd. apply NoDup_cons in Hnd as [Hfresh Hnd].
    apply elem_of_cons in Hp as [->|Hp]; [|by eapply IH].
    simpl.
    assert (allocations st1 !! reg_no s = Some (allocation_of hall r c s wd)) as H1.
    { apply (seat_ledger _ _ _ _ _ _ _ _ _ Hrun0). by left. }
    clear IH Hrun0. revert st1 H1 Hrun.
    induction trace as [|[[[hall' r'] c'] s'] trace IH]; intros st1 H1 Hrun;
      simpl in Hrun.
    + by simplify_eq.
    + done_inv Hrun. rename x into st2.
      rewrite fmap_cons in Hfresh, Hnd.
      apply not_elem_of_cons in Hfresh as [Hne Hfresh].
      apply NoDup_cons in Hnd as [_ Hnd].
      eapply IH; [done|done| |done].
      apply (seat_ledger _ _ _ _ _ _ _ _ _ Hrun0). right. by split.
Qed.

Lemma filter_hall_trace hall col_range hs code :
  filter (λ p : Placement, hall_code p.1.1.1 = code) (hall_trace hall col_range hs)
  = if decide (hall_code hall = code) then hall_trace hall col_range hs else [].
Proof.
  unfold hall_trace, trace_of.
  generalize (coords_of col_range (seq 0 (rows hall))). intros coords.
  revert hs. induction coords as [|rc coords IH]; intros [|s hs]; simpl;
    try (by case_decide).
  rewrite filter_cons, IH. simpl. by case_decide.
Qed.

Lemma filter_good_trace halls trace code :
  good_trace halls trace → code ∉ hall_code <$> halls →
  filter (λ p : Placement, hall_code p.1.1.1 = code) trace = [].
Proof.
  intros [Hin _] Hcode. induction trace as [|p trace IH]; [done|].
  apply Forall_cons in Hin as [(Hp & _) Hin]. rewrite filter_cons.
  rewrite decide_False; [by apply IH|].
  intros Heq. apply Hcode. rewrite <- Heq. by apply list_elem_of_fmap_2.
Qed.

Lemma courses_of_hall_trace hall col_range hs code :
  (∀ r, col_range r ≡ₚ seq 0 (cols hall)) →
  (length hs ≤ rows hall * cols hall)%nat →
  courses_of_trace code (hall_trace hall col_range hs)
  = if decide (hall_code hall = code) then list_to_set (course_code <$> hs) else ∅.
Proof.
  intros Hperm Hfit. unfold courses_of_trace. rewrite filter_hall_trace.
  case_decide; [|done].
  rewrite <- (hall_trace_students hall col_range hs Hperm Hfit) at 2.
  by rewrite <- list_fmap_compose.
Qed.

(** *** Second allocator *)

Lemma university_courses_hall_trace fuel targets hall a first second
    a' first' second' :
  UniversityCourses.allocate_hall fuel targets hall a first second
    = Done (a', first', second') →
  ∃ hs, run_trace false (hall_trace hall (serpentine_cols hall) hs) (state a)
          = Done (state a')
        ∧ hs ++ first' ++ second' ≡ₚ first ++ second
        ∧ (length hs ≤ rows hall * cols hall)%nat
        ∧ hall_courses a'
          = if nonempty hs
            then <[hall_code hall := list_to_set (course_code <$> hs)]> (hall_courses a)
            else hall_courses a.
Proof.
  unfold UniversityCourses.allocate_hall. intros Hrun.
  case_decide.
  - simplify_eq. exists []. unfold hall_trace. rewrite trace_of_nil_r.
    repeat split; simpl; try done; lia.
  - done_inv Hrun. rename x into p.
    set (usable := Z.min _ _) in *.
    eapply (while_inv (university_pack_inv (first ++ second) usable))
      in Hrun0 as [[Hp Hl] _].
    + destruct (University.hall_students p) as [|s hs] eqn:Hhs.
      * simpl in Hrun. simplify_eq. exists []. unfold hall_trace.
        rewrite trace_of_nil_r. repeat split; simpl; try done; lia.
      * simpl in Hrun. done_inv Hrun. simplify_eq.
        exists (s :: hs). rewrite <- place_serpentine_trace with (rb := true).
        split; [done|]. split; [done|]. split; [|done].
        unfold usable, grid_capacity in Hl. lia.
    + split; simpl; [done|lia].
    + intros p' Hinv _. unfold University.pack_body.
      by apply university_take_second_inv, university_take_first_inv.
Qed.

Lemma placed_in_zero code (trace : list Placement) :
  placed_in code trace = 0%nat ↔
  filter (λ p : Placement, hall_code p.1.1.1 = code) trace = [].
Proof. unfold placed_in. apply length_zero_iff_nil. Qed.

Lemma university_courses_halls_trace fuel targets halls a first second
    a' first' second' :
  NoDup (hall_code <$> halls) →
  UniversityCourses.allocate_halls fuel targets halls a first second
    = Done (a', first', second') →
  ∃ trace, run_trace false trace (state a) = Done (state a')
    ∧ good_trace halls trace
    ∧ (snd <$> trace) ++ first' ++ second' ≡ₚ first ++ second
    ∧ ∀ code, hall_courses a' !! code
              = if decide (placed_in code trace = 0%nat)
                then hall_courses a !! code
                else Some (courses_of_trace code trace).
Proof.
  revert a first second.
  induction halls as [|hall halls IH]; intros a first second Hnd Hrun;
    simpl in Hrun.
  - simplify_eq. exists []. split; [done|]. split; [apply good_trace_nil|].
    split; [done|]. intros code. by rewrite decide_True.
  - rewrite fmap_cons in Hnd. apply NoDup_cons in Hnd as [Hcode Hnd].
    done_inv Hrun. destruct x as [[a1 first1] second1].
    apply university_courses_hall_trace in Hrun0
      as (hs & Hrun1 & Hp1 & Hfit & Hc1).
    apply IH in Hrun as (trace & Hrun2 & Hgood & Hp2 & Hc2); [|done].
    exists (hall_trace hall (serpentine_cols hall) hs ++ trace).
    split; [by rewrite run_trace_app, Hrun1|].
    split; [apply good_trace_cons; [apply serpentine_cols_perm|done..]|].
    split.
    { rewrite fmap_app, hall_trace_students;
        [|apply serpentine_cols_perm|done].
      by rewrite <- (assoc_L (++)), Hp2. }
    intros code. rewrite Hc2.
    unfold placed_in, courses_of_trace. rewrite !filter_app, !length_app.
    rewrite filter_hall_trace.
    destruct (decide (hall_code hall = code)) as [<-|Hne].
    + rewrite (filter_good_trace halls trace) by done. simpl.
      rewrite app_nil_r, Nat.add_0_r.
      pose proof (hall_trace_students hall (serpentine_cols hall) hs
                    (serpentine_cols_perm hall) Hfit) as Hst.
      assert (course_code <$> hs
              = (λ p : Placement, course_code p.2)
                  <$> hall_trace hall (serpentine_cols hall) hs) as Hco.
      { rewrite <- Hst at 1. by rewrite <- list_fmap_compose. }
      rewrite Hc1, Hco. destruct hs as [|s hs].
      * unfold hall_trace. rewrite trace_of_nil_r. done.
      * cbn [nonempty]. rewrite lookup_insert_eq.
        assert (hall_trace hall (serpentine_cols hall) (s :: hs) ≠ []) as Hne.
        { intros Hnil. rewrite Hnil in Hst. done. }
        rewrite decide_False; [done|].
        intros H0. apply length_zero_iff_nil in H0. done.
    + simpl.
      assert (hall_courses a1 !! code = hall_courses a !! code) as ->.
      { rewrite Hc1. destruct (nonempty hs); [|done]. by rewrite lookup_insert_ne. }
      done.
Qed.

Lemma init_hall_courses_lookup halls code :
  init_hall_courses halls !! code
  = if decide (code ∈ hall_code <$> halls) then Some ∅ else None.
Proof.
  unfold init_hall_courses.
  assert (∀ m : gmap string (gset string),
    foldl (λ m hall, <[hall_code hall := ∅]> m) m halls !! code
    = if decide (code ∈ hall_code <$> halls) then Some ∅ else m !! code) as Hgen.
  { induction halls as [|h halls IH]; intros m.
    - done.
    - cbn [foldl]. rewrite IH. rewrite fmap_cons.
      destruct (decide (code ∈ hall_code <$> halls)) as [Hin|Hout].
      + rewrite decide_True; [done|by right].
      + destruct (decide (code = hall_code h)) as [->|Hne].
        * rewrite lookup_insert_eq. rewrite decide_True; [done|by left].
        * rewrite lookup_insert_ne by done. rewrite decide_False; [done|].
          by intros [?|?]%elem_of_cons. }
  rewrite Hgen. by case_decide.
Qed.

Lemma elem_of_courses_of_trace course code (trace : list Placement) :
  course ∈ courses_of_trace code trace ↔
  ∃ p : Placement, p ∈ trace ∧ hall_code p.1.1.1 = code ∧ course_code p.2 = course.
Proof.
  unfold courses_of_trace. rewrite elem_of_list_to_set, list_elem_of_fmap.
  split.
  - intros (p & -> & [? ?]%list_elem_of_filter). by exists p.
  - intros (p & ? & ? & <-). exists p. split; [done|]. by apply list_elem_of_filter.
Qed.

Lemma seated_course_trace wd halls trace st code course :
  run_trace wd trace (init_state halls) = Done st →
  NoDup (placed_reg <$> trace) →
  seated_course st code course ↔ course ∈ courses_of_trace code trace.
Proof.
  intros Hrun Hnd. rewrite elem_of_courses_of_trace. split.
  - intros (reg & alloc & Hl & Hcode & Hcourse).
    destruct (run_trace_ledger_from _ _ _ _ _ _ Hrun Hl) as [H0|(p & Hp & -> & ->)].
    + simpl in H0. by rewrite lookup_empty in H0.
    + by exists p.
  - intros (p & Hp & Hcode & Hcourse).
    exists (reg_no p.2), (allocation_of p.1.1.1 p.1.1.2 p.1.2 p.2 wd).
    split; [by eapply run_trace_ledger_to|done].
Qed.

Lemma university_courses_success fuel halls students a :
  NoDup (hall_code <$> halls) →
  UniversityCourses.allocate_seats fuel halls students = Done a →
  ∃ trace, run_trace false trace (init_state halls) = Done (state a)
    ∧ good_trace halls trace ∧ snd <$> trace ≡ₚ students
    ∧ ∀ code, hall_courses a !! code
              = if decide (placed_in code trace = 0%nat)
                then init_hall_courses halls !! code
                else Some (courses_of_trace code trace).
Proof.
  intros Hcodes Hrun. unfold UniversityCourses.allocate_seats in Hrun.
  apply outcome_bind_done in Hrun as (_ & _ & Hrun).
  apply outcome_bind_done in Hrun as (selected & Hsel & Hrun).
  apply outcome_bind_done in Hrun as ([[a1 first] second] & Hhalls & Hrun).
  destruct (first ++ second) as [|] eqn:Hrem; [|done]. simpl in Hrun.
  simplify_eq.
  unfold University.select_halls in Hsel. case_decide; [done|]. simplify_eq.
  set (selected := University.halls_to_use _ _) in *.
  assert (selected `sublist_of` halls) as Hsub by apply sublist_filter.
  apply university_courses_halls_trace in Hhalls
    as (trace & Hrun & [Hin Hcells] & Hp & Hc).
  2: { eapply sublist_NoDup; [exact Hcodes|]. by apply fmap_sublist. }
  rewrite Hrem, app_nil_r, take_drop in Hp.
  exists trace. split; [done|]. split; [|done]. split; [|done].
  eapply Forall_impl; [exact Hin|]. intros p (Hp1 & ? & ?).
  split; [|done]. by eapply elem_of_sublist.
Qed.

(** X14. [hall_courses] after a run of the second allocator that returns
    (distinct hall codes and registration numbers): every hall has its
    entry, and the entry of a hall holds exactly the course codes of the
    students the ledger seats in that hall; the ledger and the grids are
    those of [allocate_seats] as modelled without [hall_courses]. *)
Theorem second_allocator_hall_courses_are_seated fuel halls students a :
  NoDup (hall_code <$> halls) →
  NoDup (reg_no <$> students) →
  UniversityCourses.allocate_seats fuel halls students = Done a →
  University.allocate_seats fuel halls students = Done (state a) ∧
  ∀ hall, hall ∈ halls →
    is_Some (hall_courses a !! hall_code hall) ∧
    ∀ course, course ∈ courses_in a (hall_code hall)
              ↔ seated_course (state a) (hall_code hall) course.
Proof.
  intros Hcodes Hregs Hrun. split.
  { rewrite <- university_courses_state. by rewrite Hrun. }
  apply university_courses_success in Hrun as (trace & Hrun & Hgood & Hp & Hc);
    [|done].
  assert (NoDup (placed_reg <$> trace)) as Hnd.
  { by rewrite placed_reg_students, Hp. }
  intros hall Hhall.
  assert (hall_code hall ∈ hall_code <$> halls) as Hin
    by (by apply list_elem_of_fmap_2).
  specialize (Hc (hall_code hall)).
  rewrite init_hall_courses_lookup in Hc.
  rewrite (decide_True _ _ Hin) in Hc.
  split.
  - rewrite Hc. by case_decide.
  - intros course. rewrite (seated_course_trace false halls trace) by done.
    unfold courses_in. rewrite Hc. case_decide as Hz; [|done].
    apply placed_in_zero in Hz. unfold courses_of_trace. rewrite Hz. done.
Qed.

Lemma second_allocator_hall_courses_are_seated_witness :
  let a := result_of (UniversityCourses.allocate_seats 8 demo_halls demo_students)
             (init_allocator demo_halls) in
  University.allocate_seats 8 demo_halls demo_students = Done (state a) ∧
  ∀ hall, hall ∈ demo_halls →
    is_Some (hall_courses a !! hall_code hall) ∧
    ∀ course, course ∈ courses_in a (hall_code hall)
              ↔ seated_course (state a) (hall_code hall) course.
Proof.
  intros a.
  apply (second_allocator_hall_courses_are_seated 8 demo_halls demo_students a).
  - apply (bool_decide_unpack _). vm_compute. exact I.
  - apply (bool_decide_unpack _). vm_compute. exact I.
  - vm_compute. reflexivity.
Defined.

(** *** First allocator *)

Lemma initial_queues_by_course (students : list Student) :
  let students_by_course := group_by_course (sorted course_reg_leb students) in
  queues_by_course
    (queues_of students_by_course (courses_by_size students_by_course)).
Proof.
  intros d c s. unfold d. rewrite initial_queues_get.
  by intros [? _]%list_elem_of_filter.
Qed.

Lemma exam1_take_courses (current : list string) course p :
  course ∈ current →
  queues_by_course (Exam1.remaining_courses p) →
  Forall (λ s, course_code s ∈ current) (Exam1.hall_students p) →
  queues_by_course (Exam1.remaining_courses (Exam1.take course p)) ∧
  Forall (λ s, course_code s ∈ current) (Exam1.hall_students (Exam1.take course p)).
Proof.
  intros Hcourse Hq Hhs. unfold Exam1.take.
  destruct (dict_get (Exam1.remaining_courses p) course) as [|s rest] eqn:Hg;
    [done|]. simpl. split.
  - intros c s'. rewrite dict_get_set. case_decide as Hc.
    + subst c. intros Hin. apply Hq. rewrite Hg. by right.
    + apply Hq.
  - apply Forall_app. split; [done|]. apply Forall_singleton.
    rewrite (Hq course s); [done|]. rewrite Hg. left.
Qed.

Lemma exam1_ratio_body_courses (current : list string) p :
  queues_by_course (Exam1.remaining_courses p) →
  Forall (λ s, course_code s ∈ current) (Exam1.hall_students p) →
  queues_by_course (Exam1.remaining_courses (Exam1.ratio_body current p)) ∧
  Forall (λ s, course_code s ∈ current)
         (Exam1.hall_students (Exam1.ratio_body current p)).
Proof.
  intros Hq Hhs. unfold Exam1.ratio_body.
  destruct (current !! _) as [course|] eqn:Hl; simpl; [|done].
  apply exam1_take_courses; [|done..]. by eapply list_elem_of_lookup_2.
Qed.

Lemma exam1_round_robin_body_courses usable (current : list string) p :
  queues_by_course (Exam1.remaining_courses p) →
  Forall (λ s, course_code s ∈ current) (Exam1.hall_students p) →
  queues_by_course
    (Exam1.remaining_courses (Exam1.round_robin_body usable current p)) ∧
  Forall (λ s, course_code s ∈ current)
         (Exam1.hall_students (Exam1.round_robin_body usable current p)).
Proof.
  unfold Exam1.round_robin_body.
  assert (∀ l p, l ⊆ current →
    queues_by_course (Exam1.remaining_courses p) →
    Forall (λ s, course_code s ∈ current) (Exam1.hall_students p) →
    let p' := foldl (λ p course,
                if nonempty (dict_get (Exam1.remaining_courses p) course)
                   && len_lt (Exam1.hall_students p) usable
                then Exam1.take course p else p) p l in
    queues_by_course (Exam1.remaining_courses p') ∧
    Forall (λ s, course_code s ∈ current) (Exam1.hall_students p')) as Hgen.
  { clear p. induction l as [|course l IH]; intros p Hsub Hq Hhs; simpl; [done|].
    assert (course ∈ current) as Hc by (apply Hsub; left).
    destruct (exam1_take_courses current course p Hc Hq Hhs) as [Hq' Hhs'].
    apply IH; [intros c ?; apply Hsub; by right|..];
      by destruct (nonempty _ && len_lt _ _). }
  intros Hq Hhs. by apply Hgen.
Qed.

Lemma exam1_pack_hall_courses fuel courses hall remaining o :
  Exam1.pack_hall fuel courses hall remaining = Done o →
  queues_by_course remaining →
  match o with
  | None => True
  | Some p =>
      queues_by_course (Exam1.remaining_courses p) ∧
      Forall (λ s, course_code s ∈ pick_courses 4 remaining courses [])
             (Exam1.hall_students p)
  end.
Proof.
  unfold Exam1.pack_hall. intros Hrun Hq.
  destruct (nonempty (pick_courses 4 remaining courses [])); [|by simplify_eq].
  done_inv Hrun. simplify_eq.
  set (current := pick_courses 4 remaining courses []) in *.
  case_decide.
  - eapply (while_inv (λ p, queues_by_course (Exam1.remaining_courses p) ∧
                            Forall (λ s, course_code s ∈ current)
                                   (Exam1.hall_students p)))
      in Hrun0 as [? _]; [done|done|].
    intros p [? ?] _. by apply exam1_ratio_body_courses.
  - eapply (while_inv (λ p, queues_by_course (Exam1.remaining_courses p) ∧
                            Forall (λ s, course_code s ∈ current)
                                   (Exam1.hall_students p)))
      in Hrun0 as [? _]; [done|done|].
    intros p [? ?] _. by apply exam1_round_robin_body_courses.
Qed.

Lemma exam1_first_pass_hall_courses fuel courses hall st remaining st' remaining' :
  Exam1.first_pass_hall fuel courses hall st remaining = Done (st', remaining') →
  queues_by_course remaining →
  ∃ hs, run_trace true (hall_trace hall (row_major_cols hall) hs) st = Done st'
        ∧ (length hs ≤ rows hall * cols hall)%nat
        ∧ Forall (λ s, course_code s ∈ pick_courses 4 remaining courses []) hs
        ∧ queues_by_course remaining'
        ∧ hs ++ concat (remaining'.*2) ≡ₚ concat (remaining.*2).
Proof.
  unfold Exam1.first_pass_hall. intros Hrun Hq. done_inv Hrun.
  pose proof (exam1_pack_hall_courses _ _ _ _ _ Hrun0 Hq) as Hc.
  destruct x as [p|].
  - done_inv Hrun. simplify_eq. destruct Hc as [Hq' Hhs].
    apply exam1_pack_hall_inv in Hrun0 as [Hp Hl].
    exists (sorted reg_leb (Exam1.hall_students p)).
    rewrite <- place_row_major_trace. split; [done|].
    split; [|split; [|split; [done|]]].
    + rewrite sorted_Permutation. unfold grid_capacity in Hl. lia.
    + by rewrite sorted_Permutation.
    + by rewrite sorted_Permutation.
  - simplify_eq. exists []. unfold hall_trace. rewrite trace_of_nil_r.
    split; [done|]. split; [simpl; lia|]. split; [done|done].
Qed.

Lemma size_list_to_set_length (l : list string) :
  (size (list_to_set (C := gset string) l) ≤ length l)%nat.
Proof.
  induction l as [|x l IH].
  - done.
  - rewrite list_to_set_cons, size_union_alt, size_singleton. simpl.
    pose proof (subseteq_size (list_to_set (C := gset string) l ∖ {[x]})
                  (list_to_set l)) as Hle.
    assert (list_to_set (C := gset string) l ∖ {[x]} ⊆ list_to_set l) as Hsub
      by set_solver.
    specialize (Hle Hsub). lia.
Qed.

Lemma exam1_courses_first_pass_trace fuel courses halls a remaining a' remaining' :
  NoDup (hall_code <$> halls) →
  Exam1Courses.first_pass fuel courses halls a remaining = Done (a', remaining') →
  queues_by_course remaining →
  ∃ trace, run_trace true trace (state a) = Done (state a')
    ∧ good_trace halls trace
    ∧ (∀ p : Placement, p ∈ trace →
         course_code p.2 ∈ courses_in a' (hall_code p.1.1.1))
    ∧ (∀ hall, hall ∈ halls →
         ∃ cs, hall_courses a' !! hall_code hall = Some cs ∧ (size cs ≤ 4)%nat)
    ∧ (∀ code, code ∉ hall_code <$> halls →
         hall_courses a' !! code = hall_courses a !! code)
    ∧ (snd <$> trace) ++ concat (remaining'.*2) ≡ₚ concat (remaining.*2).
Proof.
  revert a remaining.
  induction halls as [|hall halls IH]; intros a remaining Hnd Hrun Hq;
    simpl in Hrun.
  - simplify_eq. exists []. split; [done|]. split; [apply good_trace_nil|].
    split; [by intros ? ?%elem_of_nil|]. split; [by intros ? ?%elem_of_nil|done].
  - rewrite fmap_cons in Hnd. apply NoDup_cons in Hnd as [Hcode Hnd].
    done_inv Hrun. destruct x as [a1 remaining1].
    unfold Exam1Courses.first_pass_hall in Hrun0.
    done_inv Hrun0. destruct x as [st1 remaining1']. simplify_eq.
    apply exam1_first_pass_hall_courses in Hrun1
      as (hs & Hrun1 & Hfit & Hcourses & Hq1 & Hp1); [|done].
    apply IH in Hrun as (trace & Hrun2 & Hgood & Hin & Hsize & Hout & Hp2);
      [|done..].
    simpl in Hrun2, Hout.
    exists (hall_trace hall (row_major_cols hall) hs ++ trace).
    split; [by rewrite run_trace_app, Hrun1|].
    split; [apply good_trace_cons; [apply row_major_cols_perm|done..]|].
    assert (hall_courses a' !! hall_code hall
            = Some (list_to_set (pick_courses 4 remaining courses []))) as Hhere.
    { rewrite Hout by done. apply lookup_insert_eq. }
    split; [|split].
    + intros p [Hp|Hp]%elem_of_app; [|by apply Hin].
      pose proof (hall_trace_in_hall hall (row_major_cols hall) hs
                    (row_major_cols_perm hall)) as Hh.
      rewrite Forall_forall in Hh. destruct (Hh p Hp) as (-> & _).
      unfold courses_in. rewrite Hhere. simpl. apply elem_of_list_to_set.
      rewrite Forall_forall in Hcourses. apply Hcourses.
      rewrite <- (hall_trace_students hall (row_major_cols hall) hs
                    (row_major_cols_perm hall) Hfit).
      by apply list_elem_of_fmap_2.
    + intros h [->|Hh]%elem_of_cons; [|by apply Hsize].
      eexists. split; [exact Hhere|].
      etrans; [apply size_list_to_set_length|].
      pose proof (pick_courses_length 4 remaining courses []) as Hlen.
      simpl in Hlen. apply Hlen. lia.
    + split.
      * intros code [? ?]%not_elem_of_cons. rewrite Hout by done.
        by rewrite lookup_insert_ne.
      * rewrite fmap_app, hall_trace_students;
          [|apply row_major_cols_perm|done].
        by rewrite <- (assoc_L (++)), Hp2.
Qed.

Lemma exam1_courses_success fuel halls students a :
  NoDup (hall_code <$> halls) →
  Exam1Courses.allocate_seats fuel halls students = Done a →
  ∃ trace, run_trace true trace (init_state halls) = Done (state a)
    ∧ good_trace halls trace ∧ snd <$> trace ≡ₚ students
    ∧ (∀ p : Placement, p ∈ trace →
         course_code p.2 ∈ courses_in a (hall_code p.1.1.1))
    ∧ (∀ hall, hall ∈ halls →
         ∃ cs, hall_courses a !! hall_code hall = Some cs ∧ (size cs ≤ 4)%nat).
Proof.
  intros Hcodes Hrun. unfold Exam1Courses.allocate_seats in Hrun.
  apply outcome_bind_done in Hrun as (_ & _ & Hrun).
  apply outcome_bind_done in Hrun as ([a1 remaining] & Hfirst & Hrun).
  apply outcome_bind_done in Hrun as (st2 & Hsecond & Hrun).
  case_decide as Hleft; [done|]. simplify_eq.
  assert (concat (remaining.*2) = []) as Hnil.
  { apply length_zero_iff_nil. rewrite <- count_remaining_length. lia. }
  unfold Exam1.second_pass in Hsecond. rewrite Hnil in Hsecond.
  simpl in Hsecond. simplify_eq.
  apply exam1_courses_first_pass_trace in Hfirst
    as (trace & Hrun & Hgood & Hin & Hsize & _ & Hp);
    [|done|apply initial_queues_by_course].
  rewrite Hnil, app_nil_r, initial_queues_Permutation in Hp.
  exists trace. by simpl in *.
Qed.

(** X15. [hall_courses] after a run of the first allocator that returns
    (distinct hall codes): every hall has an entry of at most four course
    codes, and the course code of every student the ledger seats in a hall
    is in the entry of that hall; the ledger and the grids are those of
    [allocate_seats] as modelled without [hall_courses]. *)
Theorem first_allocator_hall_courses_cover_seated fuel halls students a :
  NoDup (hall_code <$> halls) →
  Exam1Courses.allocate_seats fuel halls students = Done a →
  Exam1.allocate_seats fuel halls students = Done (state a) ∧
  (∀ hall, hall ∈ halls →
     ∃ cs, hall_courses a !! hall_code hall = Some cs ∧ (size cs ≤ 4)%nat) ∧
  (∀ code course, seated_course (state a) code course → course ∈ courses_in a code).
Proof.
  intros Hcodes Hrun. split.
  { rewrite <- exam1_courses_state. by rewrite Hrun. }
  apply exam1_courses_success in Hrun as (trace & Hrun & Hgood & _ & Hin & Hsize);
    [|done].
  split; [done|].
  intros code course (reg & alloc & Hl & Hc & Hco).
  destruct (run_trace_ledger_from _ _ _ _ _ _ Hrun Hl) as [H0|(p & Hp & -> & ->)].
  - simpl in H0. by rewrite lookup_empty in H0.
  - simpl in Hc, Hco. subst. by apply Hin.
Qed.

Lemma first_allocator_hall_courses_cover_seated_witness :
  let a := result_of (Exam1Courses.allocate_seats 8 demo_halls demo_students)
             (init_allocator demo_halls) in
  Exam1.allocate_seats 8 demo_halls demo_students = Done (state a) ∧
  (∀ hall, hall ∈ demo_halls →
     ∃ cs, hall_courses a !! hall_code hall = Some cs ∧ (size cs ≤ 4)%nat) ∧
  (∀ code course, seated_course (state a) code course → course ∈ courses_in a code).
Proof.
  intros a.
  apply (first_allocator_hall_courses_cover_seated 8 demo_halls demo_students a).
  - apply (bool_decide_unpack _). vm_compute. exact I.
  - vm_compute. reflexivity.
Defined.

(** ** [print_seating_plan] *)

Lemma read_cell_shaped halls st hall r c :
  shaped halls st → hall ∈ halls → (r < rows hall)%nat → (c < cols hall)%nat →
  read_cell (hall_seats st) (hall_code hall) r c
  = Done (cell (hall_seats st) (hall_code hall) r c).
Proof.
  intros Hsh Hin Hr Hc. destruct (Hsh hall Hin) as (g & Hg & Hlen & Hlines).
  destruct (lookup_lt_is_Some_2 g r) as [line Hline]; [lia|].
  destruct (lookup_lt_is_Some_2 line c) as [o Ho].
  { rewrite (Hlines r line Hline). lia. }
  unfold read_cell, cell. rewrite Hg. simpl. rewrite Hline. simpl.
  by rewrite Ho.
Qed.

Lemma any_seat_shaped halls st hall coords :
  shaped halls st → hall ∈ halls →
  (∀ r c, (r, c) ∈ coords → (r < rows hall)%nat ∧ (c < cols hall)%nat) →
  ∃ b, SeatingPlanText.any_seat (hall_seats st) (hall_code hall) coords = Done b ∧
    (b = true ↔ ∃ r c reg, (r, c) ∈ coords ∧
       cell (hall_seats st) (hall_code hall) r c = Some reg ∧ reg ≠ EmptyString).
Proof.
  intros Hsh Hin. induction coords as [|[r c] coords IH]; intros Hb; simpl.
  - exists false. split; [done|]. split; [done|].
    by intros (? & ? & ? & ?%elem_of_nil & _).
  - destruct (Hb r c) as [Hr Hc]; [left|].
    rewrite (read_cell_shaped halls) by done. simpl.
    destruct (SeatingPlanPdf.truthy _) eqn:Ht.
    + exists true. split; [done|]. split; [|done]. intros _.
      apply truthy_spec in Ht as (reg & Hcell & Hreg).
      exists r, c, reg. split; [left|done].
    + destruct IH as (b & Hrun & Hiff).
      { intros r' c' Hrc. apply Hb. by right. }
      exists b. split; [done|]. rewrite Hiff. split.
      * intros (r' & c' & reg & ? & ? & ?). exists r', c', reg.
        split; [by right|done].
      * intros (r' & c' & reg & [[= -> ->]|?]%elem_of_cons & Hcell & Hreg).
        -- assert (SeatingPlanPdf.truthy (Some reg) = true) as Ht'
             by (apply truthy_spec; eauto).
           rewrite Hcell in Ht. congruence.
        -- eauto 10.
Qed.

Lemma row_display_returns (allocations : gmap string Allocation)
    (row : list (option string)) :
  (∀ reg, Some reg ∈ row → is_Some (allocations !! reg)) →
  ∃ texts, SeatingPlanText.row_display allocations row = Done texts
           ∧ length texts = length row.
Proof.
  induction row as [|o row IH]; intros Hin; simpl; [by exists []|].
  destruct IH as (texts & -> & Hlen). { intros reg ?. apply Hin. by right. }
  assert (∃ text, SeatingPlanText.seat_display allocations o = Done text)
    as [text ->].
  { unfold SeatingPlanText.seat_display. destruct o as [reg|]; [|eauto].
    destruct (SeatingPlanPdf.truthy _); [|eauto].
    destruct (Hin reg) as [alloc ->]; [left|]. eauto. }
  simpl. exists (text :: texts). split; [done|]. simpl. by rewrite Hlen.
Qed.

Lemma print_rows_returns (allocations : gmap string Allocation) row_idx (grid : Grid) :
  (∀ row reg, row ∈ grid → Some reg ∈ row → is_Some (allocations !! reg)) →
  ∃ lines, SeatingPlanText.print_rows allocations row_idx grid = Done lines
           ∧ length lines = length grid.
Proof.
  revert row_idx. induction grid as [|row grid IH]; intros row_idx Hin; simpl;
    [by exists []|].
  destruct (row_display_returns allocations row) as (texts & -> & _).
  { intros reg. apply Hin. left. }
  destruct (IH (S row_idx)) as (lines & -> & Hlen).
  { intros row' reg ?. apply Hin. by right. }
  simpl. eexists. split; [done|]. simpl. by rewrite Hlen.
Qed.

Lemma print_hall_returns halls a hall :
  printable halls a → hall ∈ halls →
  ∃ lines, SeatingPlanText.print_hall a hall = Done lines ∧
    (has_student (hall_seats (state a)) hall → length lines = (2 + rows hall)%nat) ∧
    (¬ has_student (hall_seats (state a)) hall → lines = []).
Proof.
  intros (Hsh & Hgrid & Hcourses) Hin. unfold SeatingPlanText.print_hall.
  destruct (any_seat_shaped halls (state a) hall (row_major_coords hall) Hsh Hin)
    as (b & -> & Hb).
  { intros r c. apply row_major_coords_elem. }
  assert (b = true ↔ has_student (hall_seats (state a)) hall) as Hiff.
  { rewrite Hb. unfold has_student. split.
    - intros (r & c & reg & [??]%row_major_coords_elem & ? & ?). eauto 10.
    - intros (r & c & reg & ? & ? & ? & ?). exists r, c, reg.
      split; [by apply row_major_coords_elem|done]. }
  simpl. destruct b.
  - destruct (Hcourses hall Hin) as [courses ->].
    destruct (Hsh hall Hin) as (g & Hg & Hlen & Hlines). rewrite Hg.
    destruct (print_rows_returns (allocations (state a)) 1 g) as (lines & -> & Hl).
    { intros row reg Hrow Hreg.
      apply list_elem_of_lookup in Hrow as [r Hr].
      apply list_elem_of_lookup in Hreg as [c Hc].
      destruct (Hgrid (hall_code hall) r c reg) as (alloc & -> & _); [|done].
      by apply (cell_lookup _ _ g r row c). }
    simpl. eexists. split; [done|]. split.
    + intros _. simpl. by rewrite Hl, Hlen.
    + intros Hnot. destruct Hnot. by apply Hiff.
  - exists []. split; [done|]. split; [|done].
    intros Hs%Hiff. done.
Qed.

Lemma print_seating_plan_returns halls a :
  printable halls a → plan_printed halls a.
Proof.
  intros Hp. split; [|intros hall Hin; by eapply print_hall_returns].
  assert (∀ hs, hs ⊆ halls →
            ∃ lines, SeatingPlanText.print_seating_plan hs a = Done lines) as Hgen.
  { induction hs as [|h hs IH]; intros Hsub; simpl; [by eexists|].
    destruct (print_hall_returns halls a h Hp) as (lines & -> & _).
    { apply Hsub. left. }
    destruct IH as (rest & ->). { intros x ?. apply Hsub. by right. }
    simpl. by eexists. }
  by apply Hgen.
Qed.

Lemma run_trace_printable wd halls trace a students :
  NoDup (hall_code <$> halls) → NoDup (reg_no <$> students) →
  run_trace wd trace (init_state halls) = Done (state a) →
  good_trace halls trace → snd <$> trace ≡ₚ students →
  (∀ hall, hall ∈ halls → is_Some (hall_courses a !! hall_code hall)) →
  printable halls a.
Proof.
  intros Hcodes Hregs Hrun [Hin Hcells] Hp Hcourses.
  destruct (run_trace_traced wd halls trace [] (init_state halls))
    as (st' & Hrun' & Htr & Hsh); try done.
  { apply init_traced. } { by apply init_shaped. }
  { simpl. by rewrite placed_reg_students, Hp. }
  rewrite Hrun in Hrun'. simplify_eq.
  split; [done|]. split; [apply (tr_grid _ _ Htr)|done].
Qed.

(** X16. [print_seating_plan] behind a run of the first or of the second
    allocator that returns (distinct hall codes and registration numbers):
    the plan is printed without an error; a hall without a student gets no
    line, a hall with a student its two header lines and a line for every
    row of its grid. *)
Theorem print_seating_plan_after_allocation fuel halls students a :
  NoDup (hall_code <$> halls) →
  NoDup (reg_no <$> students) →
  Exam1Courses.allocate_seats fuel halls students = Done a
  ∨ UniversityCourses.allocate_seats fuel halls students = Done a →
  plan_printed halls a.
Proof.
  intros Hcodes Hregs Hrun. apply print_seating_plan_returns.
  destruct Hrun as [Hrun|Hrun].
  - apply exam1_courses_success in Hrun
      as (trace & Hrun & Hgood & Hp & _ & Hsize); [|done].
    eapply run_trace_printable; try done.
    intros hall Hhall. destruct (Hsize hall Hhall) as (cs & -> & _). done.
  - apply university_courses_success in Hrun as (trace & Hrun & Hgood & Hp & Hc);
      [|done].
    eapply run_trace_printable; try done.
    intros hall Hhall. rewrite Hc, init_hall_courses_lookup.
    case_decide; [|done]. rewrite decide_True; [done|].
    by apply list_elem_of_fmap_2.
Qed.

Lemma print_seating_plan_after_allocation_witness :
  plan_printed demo_halls
    (result_of (Exam1Courses.allocate_seats 8 demo_halls demo_students)
       (init_allocator demo_halls)) ∧
  plan_printed demo_halls
    (result_of (UniversityCourses.allocate_seats 8 demo_halls demo_students)
       (init_allocator demo_halls)).
Proof.
  split.
  - apply (print_seating_plan_after_allocation 8 demo_halls demo_students).
    + apply (bool_decide_unpack _). vm_compute. exact I.
    + apply (bool_decide_unpack _). vm_compute. exact I.
    + left. vm_compute. reflexivity.
  - apply (print_seating_plan_after_allocation 8 demo_halls demo_students).
    + apply (bool_decide_unpack _). vm_compute. exact I.
    + apply (bool_decide_unpack _). vm_compute. exact I.
    + right. vm_compute. reflexivity.
Defined.
